(** * resynth: the synthesis engine of [resynth.c], embedded and verified

    The development follows [resynth.c]: the coordinate helpers, the
    boundary resolver [wrap_or_clip], the offset table built by
    [make_offset_list], the diff table, the scoring routine [try_point]
    and the driver [run].

    Conventions of the embedding.
    - A C [int] is a [Z].  Arithmetic is written with the exact
      operations of [Z], which is what the [int] holds as long as the
      values stay in its range: the theorems that rest on it carry the
      bound on the sizes that keeps them there (the squared lengths of the
      offsets, the sizes of the arrays).  Where the range decides the
      behaviour (the guard of the polish loop, the radius flag, the
      comparison of the offsets of an image too wide), the operations go
      through [int_wrap].
    - An array is a [list]; an access outside the allocated cells is
      undefined behaviour in C and yields [Fault] here.
    - A loop whose trip count is not fixed on entry takes fuel and yields
      [OutOfFuel] when it is exhausted.
    - [qsort] and [rand] belong to the C library: the model takes them as
      parameters. *)

From Stdlib Require Import Ascii String.
From Stdlib Require Import ZArith List Bool Lia.
From Stdlib Require Import Permutation Sorted.
From Stdlib Require Import QArith Qround Qreals.
From Stdlib Require Import Reals Lra.
Import ListNotations.

#[local] Open Scope Z_scope.

(** ** Outcomes of a computation *)

Inductive result (A : Type) : Type :=
| Done (a : A)
| Fault
| OutOfFuel.

Arguments Done {A} a.
Arguments Fault {A}.
Arguments OutOfFuel {A}.

Definition bind {A B : Type} (m : result A) (f : A -> result B) : result B :=
  match m with
  | Done a => f a
  | Fault => Fault
  | OutOfFuel => OutOfFuel
  end.

Notation "x <- m ;; k" := (bind m (fun x => k))
  (at level 61, m at next level, right associativity).

(** ** Arrays *)

Definition in_range {A : Type} (l : list A) (i : Z) : bool :=
  (0 <=? i) && (i <? Z.of_nat (length l)).

Definition read {A : Type} (l : list A) (i : Z) : result A :=
  if in_range l i then
    match nth_error l (Z.to_nat i) with
    | Some a => Done a
    | None => Fault
    end
  else Fault.

Fixpoint replace_nth {A : Type} (n : nat) (a : A) (l : list A) : list A :=
  match l, n with
  | [], _ => []
  | _ :: t, O => a :: t
  | h :: t, S n' => h :: replace_nth n' a t
  end.

Definition write {A : Type} (l : list A) (i : Z) (a : A) : result (list A) :=
  if in_range l i then Done (replace_nth (Z.to_nat i) a l) else Fault.

(** [MEMORY(a, size)]: the old block is freed, and [calloc] gives [size]
    zeroed cells when [size > 0]; otherwise the pointer stays [NULL]. *)
Definition MEMORY {A : Type} (zero : A) (size : Z) : list A :=
  repeat zero (Z.to_nat size).

(** The integers [lo, lo+1, ..., lo+n-1]: the values a counting [for]
    loop gives its variable. *)
Fixpoint count_from (lo : Z) (n : nat) : list Z :=
  match n with
  | O => []
  | S n' => lo :: count_from (lo + 1) n'
  end.

Definition zrange (lo hi : Z) : list Z := count_from lo (Z.to_nat (hi - lo)).

(** ** The [int] type *)

Definition INT_MAX : Z := 2147483647.
Definition INT_MIN : Z := -2147483648.

Definition int_wrap (z : Z) : Z := (z + 2147483648) mod 4294967296 - 2147483648.

Definition int_add (a b : Z) : Z := int_wrap (a + b).


Definition int_mul (a b : Z) : Z := int_wrap (a * b).

(** ** Coordinates, pixels, images, parameters *)

Record Coord : Type := mkCoord { cx : Z; cy : Z }.

Definition coord_add (a b : Coord) : Coord := mkCoord (cx a + cx b) (cy a + cy b).

Definition coord_sub (a b : Coord) : Coord := mkCoord (cx a - cx b) (cy a - cy b).

Definition coord_compare (a b : Coord) : Z :=
  (cx a * cx a + cy a * cy a) - (cx b * cx b + cy b * cy b).


Definition Coord_eqb (a b : Coord) : bool := (cx a =? cx b) && (cy a =? cy b).

(** [Pixel] is [uint8_t]; [Pixel32] is its array [v[4]]. *)
Abbreviation Pixel := Z (only parsing).
Abbreviation Pixel32 := (list Z) (only parsing).
Definition Pixel32_zero : Pixel32 := [0; 0; 0; 0].

Record Status : Type := mkStatus {
  has_value : bool;
  has_source : bool;
  source : Coord
}.

Definition Status_zero : Status := mkStatus false false (mkCoord 0 0).

Record Image : Type := mkImage { width : Z; height : Z; depth : Z }.

(** [image_at(image, x, y)]: the offset of the pixel's first cell. *)
Definition image_at (image : Image) (x y : Z) : Z :=
  (y * width image + x) * depth image.

Definition image_atc (image : Image) (c : Coord) : Z := image_at image (cx c) (cy c).

(** [autism] is a [double]; its finite values are rationals. *)
Record Parameters : Type := mkParameters {
  h_tile : bool;
  v_tile : bool;
  autism : Q;
  neighbors : Z;
  tries : Z;
  polish : Z;
  magic : Z
}.

(** ** The boundary resolver *)

(** [while (v < 0) { if (tile) v += dim; else return false; }]
    The boolean tells whether control leaves the loop normally ([true]) or
    through [return false]; the integer is the coordinate at that time. *)
Fixpoint wrap_below (fuel : nat) (tile : bool) (dim v : Z) : result (bool * Z) :=
  if v <? 0 then
    if tile then
      match fuel with
      | O => OutOfFuel
      | S fuel' => wrap_below fuel' tile dim (v + dim)
      end
    else Done (false, v)
  else Done (true, v).

(** [while (v >= dim) { if (tile) v -= dim; else return false; }] *)
Fixpoint wrap_above (fuel : nat) (tile : bool) (dim v : Z) : result (bool * Z) :=
  if v >=? dim then
    if tile then
      match fuel with
      | O => OutOfFuel
      | S fuel' => wrap_above fuel' tile dim (v - dim)
      end
    else Done (false, v)
  else Done (true, v).

(** The point is updated in place: the second component is its value when
    the function returns. *)
Definition wrap_or_clip (fuel : nat) (parameters : Parameters) (image : Image)
    (point : Coord) : result (bool * Coord) :=
  r1 <- wrap_below fuel (h_tile parameters) (width image) (cx point) ;;
  let '(ok1, x1) := r1 in
  if negb ok1 then Done (false, mkCoord x1 (cy point)) else
  r2 <- wrap_above fuel (h_tile parameters) (width image) x1 ;;
  let '(ok2, x2) := r2 in
  if negb ok2 then Done (false, mkCoord x2 (cy point)) else
  r3 <- wrap_below fuel (v_tile parameters) (height image) (cy point) ;;
  let '(ok3, y3) := r3 in
  if negb ok3 then Done (false, mkCoord x2 y3) else
  r4 <- wrap_above fuel (v_tile parameters) (height image) y3 ;;
  let '(ok4, y4) := r4 in
  if negb ok4 then Done (false, mkCoord x2 y4) else
  Done (true, mkCoord x2 y4).

(** ** The run state

    The fields of [Resynth_state], in the order of the C struct.  The field
    [neighbors] of the struct is [s_neighbors] here, since [Parameters] has
    a field of that name.  A [Status *] of [neighbor_statuses] is the index
    of the cell of [status_array] it points to, [None] for [NULL].  The last
    two fields are not in the struct: they are the state of the process the
    engine touches, the number of calls made to [rand] so far and what has
    been printed on [stderr] (a format and its integer arguments). *)

Record Resynth_state : Type := mkState {
  input_bytes : Z;
  data : Image;
  corpus : Image;
  status : Image;
  data_array : list Pixel;
  corpus_array : list Pixel;
  status_array : list Status;
  data_points : list Coord;
  corpus_points : list Coord;
  sorted_offsets : list Coord;
  tried : Image;
  tried_array : list Z;
  s_neighbors : list Coord;
  neighbor_values : list Pixel32;
  neighbor_statuses : list (option Z);
  n_neighbors : Z;
  diff_table : list Z;
  best : Z;
  best_point : Coord;
  rand_calls : nat;
  stderr : list (string * list Z)
}.

Definition set_input_bytes (v : Z) (s : Resynth_state) : Resynth_state :=
  mkState v (data s) (corpus s) (status s) (data_array s) (corpus_array s)
    (status_array s) (data_points s) (corpus_points s) (sorted_offsets s)
    (tried s) (tried_array s) (s_neighbors s) (neighbor_values s)
    (neighbor_statuses s) (n_neighbors s) (diff_table s) (best s)
    (best_point s) (rand_calls s) (stderr s).

Definition set_data (v : Image) (s : Resynth_state) : Resynth_state :=
  mkState (input_bytes s) v (corpus s) (status s) (data_array s)
    (corpus_array s) (status_array s) (data_points s) (corpus_points s)
    (sorted_offsets s) (tried s) (tried_array s) (s_neighbors s)
    (neighbor_values s) (neighbor_statuses s) (n_neighbors s) (diff_table s)
    (best s) (best_point s) (rand_calls s) (stderr s).

Definition set_corpus (v : Image) (s : Resynth_state) : Resynth_state :=
  mkState (input_bytes s) (data s) v (status s) (data_array s)
    (corpus_array s) (status_array s) (data_points s) (corpus_points s)
    (sorted_offsets s) (tried s) (tried_array s) (s_neighbors s)
    (neighbor_values s) (neighbor_statuses s) (n_neighbors s) (diff_table s)
    (best s) (best_point s) (rand_calls s) (stderr s).

Definition set_corpus_array (v : list Pixel) (s : Resynth_state) : Resynth_state :=
  mkState (input_bytes s) (data s) (corpus s) (status s) (data_array s) v
    (status_array s) (data_points s) (corpus_points s) (sorted_offsets s)
    (tried s) (tried_array s) (s_neighbors s) (neighbor_values s)
    (neighbor_statuses s) (n_neighbors s) (diff_table s) (best s)
    (best_point s) (rand_calls s) (stderr s).

Definition set_status (v : Image) (s : Resynth_state) : Resynth_state :=
  mkState (input_bytes s) (data s) (corpus s) v (data_array s)
    (corpus_array s) (status_array s) (data_points s) (corpus_points s)
    (sorted_offsets s) (tried s) (tried_array s) (s_neighbors s)
    (neighbor_values s) (neighbor_statuses s) (n_neighbors s) (diff_table s)
    (best s) (best_point s) (rand_calls s) (stderr s).

Definition set_data_array (v : list Pixel) (s : Resynth_state) : Resynth_state :=
  mkState (input_bytes s) (data s) (corpus s) (status s) v (corpus_array s)
    (status_array s) (data_points s) (corpus_points s) (sorted_offsets s)
    (tried s) (tried_array s) (s_neighbors s) (neighbor_values s)
    (neighbor_statuses s) (n_neighbors s) (diff_table s) (best s)
    (best_point s) (rand_calls s) (stderr s).

Definition set_status_array (v : list Status) (s : Resynth_state) : Resynth_state :=
  mkState (input_bytes s) (data s) (corpus s) (status s) (data_array s)
    (corpus_array s) v (data_points s) (corpus_points s) (sorted_offsets s)
    (tried s) (tried_array s) (s_neighbors s) (neighbor_values s)
    (neighbor_statuses s) (n_neighbors s) (diff_table s) (best s)
    (best_point s) (rand_calls s) (stderr s).

Definition set_data_points (v : list Coord) (s : Resynth_state) : Resynth_state :=
  mkState (input_bytes s) (data s) (corpus s) (status s) (data_array s)
    (corpus_array s) (status_array s) v (corpus_points s) (sorted_offsets s)
    (tried s) (tried_array s) (s_neighbors s) (neighbor_values s)
    (neighbor_statuses s) (n_neighbors s) (diff_table s) (best s)
    (best_point s) (rand_calls s) (stderr s).

Definition set_corpus_points (v : list Coord) (s : Resynth_state) : Resynth_state :=
  mkState (input_bytes s) (data s) (corpus s) (status s) (data_array s)
    (corpus_array s) (status_array s) (data_points s) v (sorted_offsets s)
    (tried s) (tried_array s) (s_neighbors s) (neighbor_values s)
    (neighbor_statuses s) (n_neighbors s) (diff_table s) (best s)
    (best_point s) (rand_calls s) (stderr s).

Definition set_sorted_offsets (v : list Coord) (s : Resynth_state) : Resynth_state :=
  mkState (input_bytes s) (data s) (corpus s) (status s) (data_array s)
    (corpus_array s) (status_array s) (data_points s) (corpus_points s) v
    (tried s) (tried_array s) (s_neighbors s) (neighbor_values s)
    (neighbor_statuses s) (n_neighbors s) (diff_table s) (best s)
    (best_point s) (rand_calls s) (stderr s).

Definition set_tried (v : Image) (s : Resynth_state) : Resynth_state :=
  mkState (input_bytes s) (data s) (corpus s) (status s) (data_array s)
    (corpus_array s) (status_array s) (data_points s) (corpus_points s)
    (sorted_offsets s) v (tried_array s) (s_neighbors s) (neighbor_values s)
    (neighbor_statuses s) (n_neighbors s) (diff_table s) (best s)
    (best_point s) (rand_calls s) (stderr s).

Definition set_tried_array (v : list Z) (s : Resynth_state) : Resynth_state :=
  mkState (input_bytes s) (data s) (corpus s) (status s) (data_array s)
    (corpus_array s) (status_array s) (data_points s) (corpus_points s)
    (sorted_offsets s) (tried s) v (s_neighbors s) (neighbor_values s)
    (neighbor_statuses s) (n_neighbors s) (diff_table s) (best s)
    (best_point s) (rand_calls s) (stderr s).

Definition set_s_neighbors (v : list Coord) (s : Resynth_state) : Resynth_state :=
  mkState (input_bytes s) (data s) (corpus s) (status s) (data_array s)
    (corpus_array s) (status_array s) (data_points s) (corpus_points s)
    (sorted_offsets s) (tried s) (tried_array s) v (neighbor_values s)
    (neighbor_statuses s) (n_neighbors s) (diff_table s) (best s)
    (best_point s) (rand_calls s) (stderr s).

Definition set_neighbor_values (v : list Pixel32) (s : Resynth_state) : Resynth_state :=
  mkState (input_bytes s) (data s) (corpus s) (status s) (data_array s)
    (corpus_array s) (status_array s) (data_points s) (corpus_points s)
    (sorted_offsets s) (tried s) (tried_array s) (s_neighbors s) v
    (neighbor_statuses s) (n_neighbors s) (diff_table s) (best s)
    (best_point s) (rand_calls s) (stderr s).

Definition set_neighbor_statuses (v : list (option Z)) (s : Resynth_state) : Resynth_state :=
  mkState (input_bytes s) (data s) (corpus s) (status s) (data_array s)
    (corpus_array s) (status_array s) (data_points s) (corpus_points s)
    (sorted_offsets s) (tried s) (tried_array s) (s_neighbors s)
    (neighbor_values s) v (n_neighbors s) (diff_table s) (best s)
    (best_point s) (rand_calls s) (stderr s).

Definition set_n_neighbors (v : Z) (s : Resynth_state) : Resynth_state :=
  mkState (input_bytes s) (data s) (corpus s) (status s) (data_array s)
    (corpus_array s) (status_array s) (data_points s) (corpus_points s)
    (sorted_offsets s) (tried s) (tried_array s) (s_neighbors s)
    (neighbor_values s) (neighbor_statuses s) v (diff_table s) (best s)
    (best_point s) (rand_calls s) (stderr s).

Definition set_diff_table (v : list Z) (s : Resynth_state) : Resynth_state :=
  mkState (input_bytes s) (data s) (corpus s) (status s) (data_array s)
    (corpus_array s) (status_array s) (data_points s) (corpus_points s)
    (sorted_offsets s) (tried s) (tried_array s) (s_neighbors s)
    (neighbor_values s) (neighbor_statuses s) (n_neighbors s) v (best s)
    (best_point s) (rand_calls s) (stderr s).

Definition set_best (v : Z) (s : Resynth_state) : Resynth_state :=
  mkState (input_bytes s) (data s) (corpus s) (status s) (data_array s)
    (corpus_array s) (status_array s) (data_points s) (corpus_points s)
    (sorted_offsets s) (tried s) (tried_array s) (s_neighbors s)
    (neighbor_values s) (neighbor_statuses s) (n_neighbors s) (diff_table s)
    v (best_point s) (rand_calls s) (stderr s).

Definition set_best_point (v : Coord) (s : Resynth_state) : Resynth_state :=
  mkState (input_bytes s) (data s) (corpus s) (status s) (data_array s)
    (corpus_array s) (status_array s) (data_points s) (corpus_points s)
    (sorted_offsets s) (tried s) (tried_array s) (s_neighbors s)
    (neighbor_values s) (neighbor_statuses s) (n_neighbors s) (diff_table s)
    (best s) v (rand_calls s) (stderr s).

Definition set_rand_calls (v : nat) (s : Resynth_state) : Resynth_state :=
  mkState (input_bytes s) (data s) (corpus s) (status s) (data_array s)
    (corpus_array s) (status_array s) (data_points s) (corpus_points s)
    (sorted_offsets s) (tried s) (tried_array s) (s_neighbors s)
    (neighbor_values s) (neighbor_statuses s) (n_neighbors s) (diff_table s)
    (best s) (best_point s) v (stderr s).

Definition set_stderr (v : list (string * list Z)) (s : Resynth_state) : Resynth_state :=
  mkState (input_bytes s) (data s) (corpus s) (status s) (data_array s)
    (corpus_array s) (status_array s) (data_points s) (corpus_points s)
    (sorted_offsets s) (tried s) (tried_array s) (s_neighbors s)
    (neighbor_values s) (neighbor_statuses s) (n_neighbors s) (diff_table s)
    (best s) (best_point s) (rand_calls s) v.

(** ** Loops over a fixed range *)

(** The body [f] run for each element of [l] in turn; a failure stops the
    loop. *)
Fixpoint for_each {A S : Type} (f : S -> A -> result S) (l : list A) (s : S)
    : result S :=
  match l with
  | [] => Done s
  | a :: l' => s' <- f s a ;; for_each f l' s'
  end.

Definition modify {A : Type} (l : list A) (i : Z) (f : A -> A) : result (list A) :=
  a <- read l i ;; write l i (f a).

(** The coordinates [(x, y)] that two nested loops go through, [y] in [ys]
    outside and [x] in [xs] inside. *)
Definition rows (xs ys : list Z) : list Coord :=
  flat_map (fun y => map (fun x => mkCoord x y) xs) ys.

(** The pixel coordinates of a [w] by [h] image, rows first: the values of
    [(x, y)] in [for (y = 0; y < h; y++) for (x = 0; x < w; x++)]. *)
Definition grid (w h : Z) : list Coord := rows (zrange 0 w) (zrange 0 h).

(** ** The diff table *)

(** A [double] computation is modelled over the reals: the rounding of
    the floating-point operations is not represented. *)
Definition neglog_cauchy (x : R) : R := ln (x * x + 1).

(** [(int)(value)]: the conversion truncates toward zero. *)
Definition int_of_double (v : R) : Z :=
  if Rle_dec 0 v then Int_part v else - Int_part (- v).

Definition diff_value (a : Q) (i : Z) : R :=
  (neglog_cauchy (IZR i / 256 / Q2R a) / neglog_cauchy (1 / Q2R a) * 65536)%R.

(** The value stored in [diff_table[256 + i]]. *)
Definition diff_entry (a : Q) (i : Z) : Z :=
  if Qlt_le_dec 0 a then int_of_double (diff_value a i)
  else (if i =? 0 then 0 else 1) * 65536.

(** Both loops run [i] from -256 to 255 and fill the cells 0 to 511. *)
Definition make_diff_table (a : Q) : list Z := map (diff_entry a) (zrange (-256) 256).

(** ** Scoring a candidate *)

Definition outside_corpus (s : Resynth_state) (p : Coord) : bool :=
  (cx p <? 0) || (cy p <? 0) ||
  (cx p >=? width (corpus s)) || (cy p >=? height (corpus s)).

(** The loop over the channels [j] of [try_point]. *)
Definition channel_step (s : Resynth_state) (data_pixel : Pixel32) (corpus_pixel : Z)
    (sum : Z) (j : Z) : result Z :=
  d <- read data_pixel j ;;
  c <- read (corpus_array s) (corpus_pixel + j) ;;
  t <- read (diff_table s) (256 + d - c) ;;
  Done (sum + t).

(** The loop over the neighbors [i]; [None] is the early [return]. *)
Fixpoint try_point_loop (s : Resynth_state) (point : Coord) (idx : list Z) (sum : Z)
    : result (option Z) :=
  match idx with
  | [] => Done (Some sum)
  | i :: idx' =>
      nb <- read (s_neighbors s) i ;;
      let off_point := coord_add point nb in
      sum' <- (if outside_corpus s off_point then
                 t <- read (diff_table s) 0 ;;
                 Done (sum + t * input_bytes s)
               else if negb (i =? 0) then
                 data_pixel <- read (neighbor_values s) i ;;
                 for_each (channel_step s data_pixel (image_atc (corpus s) off_point))
                          (zrange 0 (input_bytes s)) sum
               else Done sum) ;;
      if sum' >=? best s then Done None
      else try_point_loop s point idx' sum'
  end.

Definition try_point (s : Resynth_state) (point : Coord) : result Resynth_state :=
  r <- try_point_loop s point (zrange 0 (n_neighbors s)) 0 ;;
  match r with
  | None => Done s
  | Some sum => Done (set_best_point point (set_best sum s))
  end.

(** ** The driver *)

Definition push_data_point (c : Coord) (s : Resynth_state) : Resynth_state :=
  set_data_points (data_points s ++ [c]) s.

Definition push_corpus_point (c : Coord) (s : Resynth_state) : Resynth_state :=
  set_corpus_points (corpus_points s ++ [c]) s.

(** The body of the loop that clears the status map and lists the output
    coordinates. *)
Definition init_status_step (s : Resynth_state) (c : Coord) : result Resynth_state :=
  let i := image_at (status s) (cx c) (cy c) in
  a1 <- modify (status_array s) i (fun st => mkStatus (has_value st) false (source st)) ;;
  a2 <- modify a1 i (fun st => mkStatus false (has_source st) (source st)) ;;
  Done (push_data_point c (set_status_array a2 s)).

(** The offsets pushed by the two loops of [make_offset_list]. *)
Definition offset_grid (w h : Z) : list Coord :=
  rows (zrange (- w + 1) w) (zrange (- h + 1) h).

(** One neighbor's value: the loop over [k] in the gathering loop. *)
Definition copy_value_step (point : Coord) (s : Resynth_state) (k : Z)
    : result Resynth_state :=
  v <- read (data_array s) (image_atc (data s) point + k) ;;
  px <- read (neighbor_values s) (n_neighbors s) ;;
  px' <- write px k v ;;
  nv <- write (neighbor_values s) (n_neighbors s) px' ;;
  Done (set_neighbor_values nv s).

(** The loop over the sorted offsets; it ends at the end of the table or
    at the [break]. *)
Fixpoint gather_loop (fuel : nat) (parameters : Parameters) (position : Coord)
    (offsets : list Coord) (s : Resynth_state) : result Resynth_state :=
  match offsets with
  | [] => Done s
  | offset :: rest =>
      r <- wrap_or_clip fuel parameters (data s) (coord_add position offset) ;;
      let '(ok, point) := r in
      if ok then
        st <- read (status_array s) (image_atc (status s) point) ;;
        if has_value st then
          nb <- write (s_neighbors s) (n_neighbors s) offset ;;
          let s := set_s_neighbors nb s in
          ns <- write (neighbor_statuses s) (n_neighbors s)
                      (Some (image_atc (status s) point)) ;;
          let s := set_neighbor_statuses ns s in
          s <- for_each (copy_value_step point) (zrange 0 (input_bytes s)) s ;;
          let s := set_n_neighbors (n_neighbors s + 1) s in
          if n_neighbors s >=? neighbors parameters then Done s
          else gather_loop fuel parameters position rest s
        else gather_loop fuel parameters position rest s
      else gather_loop fuel parameters position rest s
  end.

(** The candidates that the neighbors' sources point to; [js] holds the
    values of [j] still to come, and the loop also ends when [best] is 0. *)
Fixpoint phase1_loop (i : Z) (js : list Z) (s : Resynth_state) : result Resynth_state :=
  match js with
  | [] => Done s
  | j :: rest =>
      if best s =? 0 then Done s else
      ptr <- read (neighbor_statuses s) j ;;
      match ptr with
      | None => Fault
      | Some a =>
          st <- read (status_array s) a ;;
          if has_source st then
            nb <- read (s_neighbors s) j ;;
            let point := coord_sub (source st) nb in
            if outside_corpus s point then phase1_loop i rest s
            else
              t <- read (tried_array s) (image_atc (tried s) point) ;;
              if t =? i then phase1_loop i rest s
              else
                s <- try_point s point ;;
                ta <- write (tried_array s) (image_atc (tried s) point) i ;;
                phase1_loop i rest (set_tried_array ta s)
          else phase1_loop i rest s
      end
  end.

(** The body of the loop of the driver that copies the winning pixel. *)
Definition commit_step (position : Coord) (s : Resynth_state) (j : Z)
    : result Resynth_state :=
  v <- read (corpus_array s) (image_atc (corpus s) (best_point s) + j) ;;
  d <- write (data_array s) (image_atc (data s) position + j) v ;;
  Done (set_data_array d s).

Definition commit (position : Coord) (s : Resynth_state) : result Resynth_state :=
  s <- for_each (commit_step position) (zrange 0 (input_bytes s)) s ;;
  a1 <- modify (status_array s) (image_atc (status s) position)
               (fun st => mkStatus (has_value st) true (source st)) ;;
  a2 <- modify a1 (image_atc (status s) position)
               (fun st => mkStatus (has_value st) (has_source st) (best_point s)) ;;
  Done (set_status_array a2 s).

(** The duplicates appended by one turn of the inner loop of the magic
    loop. *)
Definition duplicate_step (s : Resynth_state) (i : Z) : result Resynth_state :=
  c <- read (data_points s) i ;;
  Done (push_data_point c s).

Fixpoint magic_loop (fuel : nat) (parameters : Parameters) (n : Z)
    (s : Resynth_state) : result Resynth_state :=
  if n >? 0 then
    match fuel with
    | O => OutOfFuel
    | S fuel' =>
        let n := Z.quot (n * magic parameters) 256 in
        s <- for_each duplicate_step (zrange 0 n) s ;;
        magic_loop fuel' parameters n s
    end
  else Done s.

(** The guard [p < parameters.polish + p] of the polish loop, with the
    sum taken in [int]. *)
Definition polish_guard (parameters : Parameters) (p : Z) : bool :=
  p <? int_add (polish parameters) p.

Section Engine.

(** The C library: [qsort] with its comparison function, and the values
    that the successive calls of [rand] return. *)
Variable qsort : (Coord -> Coord -> Z) -> list Coord -> list Coord.
Variable rand : nat -> nat.

Definition call_rand (s : Resynth_state) : Z * Resynth_state :=
  (Z.of_nat (rand (rand_calls s)), set_rand_calls (S (rand_calls s)) s).

Definition make_offset_list (s : Resynth_state) : Resynth_state :=
  let w := Z.min (width (corpus s)) (width (data s)) in
  let h := Z.min (height (corpus s)) (height (data s)) in
  let s := set_sorted_offsets [] s in
  let s := set_sorted_offsets (sorted_offsets s ++ offset_grid w h) s in
  set_sorted_offsets (qsort coord_compare (sorted_offsets s)) s.

Definition shuffle_step (data_area : Z) (s : Resynth_state) (i : Z)
    : result Resynth_state :=
  let '(r, s) := call_rand s in
  let j := Z.rem r data_area in
  temp <- read (data_points s) i ;;
  dj <- read (data_points s) j ;;
  a1 <- write (data_points s) i dj ;;
  a2 <- write a1 j temp ;;
  Done (set_data_points a2 s).

(** One pass of the polish loop: the shuffle, then the duplicates. *)
Definition polish_pass (fuel : nat) (parameters : Parameters) (data_area : Z)
    (s : Resynth_state) : result Resynth_state :=
  s <- for_each (shuffle_step data_area) (zrange 0 data_area) s ;;
  if negb (magic parameters =? 0) then magic_loop fuel parameters data_area s
  else Done s.

(** The polish loop from the value [p] of its counter on.  The first
    component of the result counts the passes made. *)
Fixpoint polish_loop (fuel inner : nat) (parameters : Parameters) (data_area : Z)
    (p : Z) (passes : nat) (s : Resynth_state) : result (nat * Resynth_state) :=
  if polish_guard parameters p then
    match fuel with
    | O => OutOfFuel
    | S fuel' =>
        s <- polish_pass inner parameters data_area s ;;
        polish_loop fuel' inner parameters data_area (p + 1) (S passes) s
    end
  else Done (passes, s).

(** The random candidates; [n] turns are left, and the loop also ends
    when [best] is 0. *)
Fixpoint phase2_loop (n : nat) (s : Resynth_state) : result Resynth_state :=
  match n with
  | O => Done s
  | S n' =>
      if best s =? 0 then Done s else
      let '(r, s) := call_rand s in
      c <- read (corpus_points s) (Z.rem r (Z.of_nat (length (corpus_points s)))) ;;
      s <- try_point s c ;;
      phase2_loop n' s
  end.

(** The body of the main loop, the visit of [data_points[i]], in its three
    parts.  First the position is read and marked, and its neighbors are
    gathered. *)
Definition gather (fuel : nat) (parameters : Parameters) (s : Resynth_state) (i : Z)
    : result (Coord * Resynth_state) :=
  position <- read (data_points s) i ;;
  a <- modify (status_array s) (image_atc (status s) position)
              (fun st => mkStatus true (has_source st) (source st)) ;;
  let s := set_status_array a s in
  let s := set_n_neighbors 0 s in
  s <- gather_loop fuel parameters position (sorted_offsets s) s ;;
  Done (position, s).

(** Then the candidates are scored. *)
Definition search (parameters : Parameters) (i : Z) (s : Resynth_state)
    : result Resynth_state :=
  let s := set_best INT_MAX s in
  s <- phase1_loop i (zrange 0 (n_neighbors s)) s ;;
  phase2_loop (Z.to_nat (tries parameters)) s.

(** Last the winner is committed. *)
Definition visit (fuel : nat) (parameters : Parameters) (s : Resynth_state) (i : Z)
    : result Resynth_state :=
  r <- gather fuel parameters s i ;;
  let '(position, s) := r in
  s <- search parameters i s ;;
  commit position s.

(** The part of [run] before the test of the sizes: the allocations and
    the two coordinate lists. *)
Definition run_setup (s : Resynth_state) (parameters : Parameters)
    : result Resynth_state :=
  let s := set_data_points [] s in
  let s := set_corpus_points [] s in
  let s := set_sorted_offsets [] s in
  let s := set_diff_table (MEMORY 0 512) s in
  let s := set_s_neighbors (MEMORY (mkCoord 0 0) (neighbors parameters)) s in
  let s := set_neighbor_values (MEMORY Pixel32_zero (neighbors parameters)) s in
  let s := set_neighbor_statuses (MEMORY None (neighbors parameters)) s in
  let s := set_status (mkImage (width (data s)) (height (data s)) 1) s in
  let s := set_status_array
             (MEMORY Status_zero (width (data s) * height (data s) * 1)) s in
  s <- for_each init_status_step (grid (width (status s)) (height (status s))) s ;;
  Done (fold_left (fun s c => push_corpus_point c s)
                  (grid (width (corpus s)) (height (corpus s))) s).

(** The part of [run] after the test of the sizes.  The first component
    of the result is the number of passes the polish loop made. *)
Definition run_synthesis (fuel : nat) (s : Resynth_state) (parameters : Parameters)
    : result (nat * Resynth_state) :=
  let s := make_offset_list s in
  let s := set_diff_table (make_diff_table (autism parameters)) s in
  let data_area := Z.of_nat (length (data_points s)) in
  r <- polish_loop fuel fuel parameters data_area 0 O s ;;
  let '(passes, s) := r in
  let s := set_tried (mkImage (width (corpus s)) (height (corpus s)) 1) s in
  let s := set_tried_array (MEMORY 0 (width (corpus s) * height (corpus s) * 1)) s in
  (* the loop up to [corpus_area] stores -1 in each cell of the array *)
  let s := set_tried_array (map (fun _ => -1) (tried_array s)) s in
  s <- for_each (visit fuel parameters)
                (rev (zrange 0 (Z.of_nat (length (data_points s))))) s ;;
  Done (passes, s).

Definition sizes_invalid (s : Resynth_state) : bool :=
  (Z.of_nat (length (corpus_points s)) =? 0) ||
  (Z.of_nat (length (data_points s)) =? 0).

Definition report_invalid_sizes (s : Resynth_state) : Resynth_state :=
  set_stderr (stderr s ++
                [("invalid sizes\n"%string, []);
                 ("corpus: %i\n"%string, [Z.of_nat (length (corpus_points s))]);
                 ("data: %i\n"%string, [Z.of_nat (length (data_points s))])]) s.

Definition run_counting (fuel : nat) (s : Resynth_state) (parameters : Parameters)
    : result (nat * Resynth_state) :=
  s <- run_setup s parameters ;;
  if sizes_invalid s then Done (O, report_invalid_sizes s)
  else run_synthesis fuel s parameters.

Definition run (fuel : nat) (s : Resynth_state) (parameters : Parameters)
    : result Resynth_state :=
  r <- run_counting fuel s parameters ;;
  Done (snd r).

End Engine.

(** ** The states a run goes through *)

(** The state at the test of the sizes. *)
Definition setup_state (s : Resynth_state) (parameters : Parameters) : Resynth_state :=
  mkState (input_bytes s) (data s) (corpus s)
    (mkImage (width (data s)) (height (data s)) 1)
    (data_array s) (corpus_array s)
    (MEMORY Status_zero (width (data s) * height (data s) * 1))
    (grid (width (data s)) (height (data s)))
    (grid (width (corpus s)) (height (corpus s)))
    [] (tried s) (tried_array s)
    (MEMORY (mkCoord 0 0) (neighbors parameters))
    (MEMORY Pixel32_zero (neighbors parameters))
    (MEMORY None (neighbors parameters))
    (n_neighbors s) (MEMORY 0 512) (best s) (best_point s) (rand_calls s)
    (stderr s).

(** The state on entry to the polish loop. *)
Definition scheduled_state (qsort : (Coord -> Coord -> Z) -> list Coord -> list Coord)
    (s : Resynth_state) (parameters : Parameters) : Resynth_state :=
  set_diff_table (make_diff_table (autism parameters))
                 (make_offset_list qsort (setup_state s parameters)).

(** The state on entry to the main loop, from the state the polish loop
    leaves. *)
Definition tried_state (s : Resynth_state) : Resynth_state :=
  set_tried_array
    (map (fun _ => -1) (MEMORY 0 (width (corpus s) * height (corpus s) * 1)))
    (set_tried (mkImage (width (corpus s)) (height (corpus s)) 1) s).

(** The state on entry to the main loop when the polish loop makes no
    pass. *)
Definition main_loop_entry (qsort : (Coord -> Coord -> Z) -> list Coord -> list Coord)
    (s : Resynth_state) (parameters : Parameters) : Resynth_state :=
  tried_state (scheduled_state qsort s parameters).

(** ** An instance of the C library, for running the model

    Insertion sort driven by the comparison function stands for [qsort],
    and [rand] is read off a list of values that is repeated for ever. *)

Fixpoint insert_sorted (cmp : Coord -> Coord -> Z) (a : Coord) (l : list Coord)
    : list Coord :=
  match l with
  | [] => [a]
  | b :: t => if cmp a b <=? 0 then a :: l else b :: insert_sorted cmp a t
  end.

Definition insertion_sort (cmp : Coord -> Coord -> Z) (l : list Coord) : list Coord :=
  fold_right (insert_sorted cmp) [] l.

Definition rand_cycle (values : list nat) (k : nat) : nat :=
  nth (Nat.modulo k (length values)) values O.

(** ** What [main] does around [run]

    [main] starts from a zeroed state and keeps it from one image file to
    the next.  For each file it stores the decoded image as the corpus,
    sets [input_bytes], sizes the output from [scale], and calls [run]. *)

Definition zero_state : Resynth_state :=
  mkState 0 (mkImage 0 0 0) (mkImage 0 0 0) (mkImage 0 0 0) [] [] [] [] [] []
    (mkImage 0 0 0) [] [] [] [] 0 [] 0 (mkCoord 0 0) O [].

(** [IMAGE_RESIZE(s->corpus, w, h, d)], the [memcpy] of the [w * h * d]
    bytes of the image, [s->input_bytes = MIN(d, 3)], and
    [IMAGE_RESIZE(s->data, data_w, data_h, s->input_bytes)]. *)
Definition load_image (s : Resynth_state) (w h d : Z) (image : list Pixel)
    (scale : Z) : Resynth_state :=
  let s := set_corpus (mkImage w h d) s in
  let s := set_corpus_array (firstn (Z.to_nat (w * h * d)) image) s in
  let s := set_input_bytes (Z.min d 3) s in
  let data_w := if scale <? 0 then - scale else if scale >? 0 then scale * w else 256 in
  let data_h := if scale <? 0 then - scale else if scale >? 0 then scale * h else 256 in
  let s := set_data (mkImage data_w data_h (input_bytes s)) s in
  set_data_array (MEMORY 0 (data_w * data_h * input_bytes s)) s.

(** The parameters [main] starts with. *)
Definition main_parameters : Parameters :=
  mkParameters true true (32 # 256) 29 192 0 192.

(** ** The diff table as the specification words it

    [cost(d) = round(65536 * f(d/256/autism) / f(1/autism))] with
    [f(x) = ln(x^2 + 1)]; [round] is rounding to the nearest integer. *)

Definition spec_f (x : R) : R := ln (x ^ 2 + 1).

Definition spec_cost_value (a : Q) (d : Z) : R :=
  (65536 * spec_f (IZR d / 256 / Q2R a) / spec_f (1 / Q2R a))%R.

Definition round_nearest (v : R) : Z := Int_part (v + / 2).

Definition spec_cost (a : Q) (d : Z) : Z := round_nearest (spec_cost_value a d).

(** ** The score of a candidate as the specification words it

    For the neighbor of index [i], with offset [O] and recorded value [V]:
    the out-of-bounds penalty [diff_table[0] * input_bytes] when [C + O]
    falls outside the corpus; nothing for the neighbor of index 0 when it
    is inside; otherwise, for each input channel, the cost of the
    difference between [V] and the corpus pixel.  There is no pruning:
    the candidate becomes the best when its whole sum is lower than the
    best so far. *)

Definition cost (s : Resynth_state) (d : Z) : Z :=
  nth (Z.to_nat (256 + d)) (diff_table s) 0.

Definition corpus_channel (s : Resynth_state) (p : Coord) (ch : Z) : Z :=
  nth (Z.to_nat (image_atc (corpus s) p + ch)) (corpus_array s) 0.

Definition reference_neighbor_cost (s : Resynth_state) (C : Coord) (i : Z) : Z :=
  let O := nth (Z.to_nat i) (s_neighbors s) (mkCoord 0 0) in
  let V := nth (Z.to_nat i) (neighbor_values s) [] in
  if outside_corpus s (coord_add C O) then nth 0 (diff_table s) 0 * input_bytes s
  else if i =? 0 then 0
  else fold_right Z.add 0
         (map (fun ch => cost s (nth (Z.to_nat ch) V 0 - corpus_channel s (coord_add C O) ch))
              (zrange 0 (input_bytes s))).

Definition reference_sum (s : Resynth_state) (C : Coord) : Z :=
  fold_right Z.add 0 (map (reference_neighbor_cost s C) (zrange 0 (n_neighbors s))).

Definition reference_try_point (s : Resynth_state) (C : Coord) : Resynth_state :=
  if reference_sum s C <? best s
  then set_best_point C (set_best (reference_sum s C) s)
  else s.

(** ** Well-formed inputs of the scoring routine *)

Definition is_byte (b : Z) : Prop := 0 <= b <= 255.

(** The arrays hold what the routine reads: the gathered neighbors, their
    values with a byte for each input channel, the corpus pixels, and a diff
    table of 512 penalties, none negative. *)
Record scoring_ready (s : Resynth_state) : Prop := {
  sr_neighbors : n_neighbors s <= Z.of_nat (length (s_neighbors s));
  sr_values : n_neighbors s <= Z.of_nat (length (neighbor_values s));
  sr_channels :
    Forall (fun V => input_bytes s <= Z.of_nat (length V) /\ Forall is_byte V)
           (neighbor_values s);
  sr_input_bytes : 0 <= input_bytes s <= depth (corpus s);
  sr_corpus :
    Z.of_nat (length (corpus_array s)) =
    width (corpus s) * height (corpus s) * depth (corpus s);
  sr_corpus_bytes : Forall is_byte (corpus_array s);
  sr_table_length : length (diff_table s) = 512%nat;
  sr_table_nonneg : Forall (fun t => 0 <= t) (diff_table s)
}.

(** ** Resolved pixels *)

(** A status whose pixel has a value and a source inside the corpus. *)
Definition resolved (corpus_image : Image) (st : Status) : Prop :=
  has_value st = true /\ has_source st = true /\
  0 <= cx (source st) < width corpus_image /\
  0 <= cy (source st) < height corpus_image.

(** ** Neighbors that give no candidate

    The gathered neighbor [j] gives phase 1 nothing to score: its status
    has no source, or the source less the offset falls outside the
    corpus. *)
Definition no_candidate (s : Resynth_state) (j : Z) : Prop :=
  exists a st,
    read (neighbor_statuses s) j = Done (Some a) /\
    read (status_array s) a = Done st /\
    (has_source st = false \/
     exists nb, read (s_neighbors s) j = Done nb /\
                outside_corpus s (coord_sub (source st) nb) = true).

(** ** Sample inputs *)

(** A 2 by 2 corpus of four solid colors, and six gray pixels. *)
Definition four_colors : list Pixel :=
  [255; 0; 0;  0; 255; 0;  0; 0; 255;  255; 255; 0].

Definition six_grays : list Pixel :=
  [10; 10; 10;  20; 20; 20;  30; 30; 30;  40; 40; 40;  50; 50; 50;  60; 60; 60].

Definition no_random : nat -> nat := rand_cycle [O].

(** The end-to-end scenario of the four colors: [neighbors = 0],
    [tries = 1], [polish = 0]. *)
Definition four_colors_state : Resynth_state := load_image zero_state 2 2 3 four_colors 1.

Definition scenario_parameters : Parameters := mkParameters true true 0 0 1 0 192.

(** A run that completes: four neighbors, two tries. *)
Definition sample_parameters : Parameters := mkParameters true true 0 4 2 0 192.

Definition sample_result : Resynth_state :=
  match run insertion_sort (rand_cycle [3; 1; 2]%nat) 10 four_colors_state
            sample_parameters with
  | Done r => r
  | _ => zero_state
  end.

(** One pass of polish asked for. *)
Definition polish_parameters : Parameters := mkParameters true true 0 4 2 1 0.

(** Two image files in one invocation with [-a 0 -M 0]: a 3 by 1 image,
    then a 1 by 2 image. *)
Definition no_tries_parameters : Parameters := mkParameters true true 0 29 0 0 192.

Definition first_image_state : Resynth_state := load_image zero_state 3 1 3 six_grays 1.

Definition first_image_result : Resynth_state :=
  match run insertion_sort no_random 10 first_image_state no_tries_parameters with
  | Done r => r
  | _ => zero_state
  end.

Definition second_image_state : Resynth_state :=
  load_image first_image_result 1 2 3 six_grays 1.

Definition second_image_result : Resynth_state :=
  match run insertion_sort no_random 10 second_image_state no_tries_parameters with
  | Done r => r
  | _ => zero_state
  end.

(** The first visit of each of the two runs: the state after the
    neighbors are gathered, and the state after the visit. *)
Definition first_run_entry : Resynth_state :=
  main_loop_entry insertion_sort first_image_state no_tries_parameters.

Definition first_run_gathered : Resynth_state :=
  match gather 10 no_tries_parameters first_run_entry 2 with
  | Done r => snd r
  | _ => zero_state
  end.

Definition first_run_visited : Resynth_state :=
  match visit no_random 10 no_tries_parameters first_run_entry 2 with
  | Done r => r
  | _ => zero_state
  end.

Definition second_run_entry : Resynth_state :=
  main_loop_entry insertion_sort second_image_state no_tries_parameters.

Definition second_run_gathered : Resynth_state :=
  match gather 10 no_tries_parameters second_run_entry 1 with
  | Done r => snd r
  | _ => zero_state
  end.

Definition second_run_visited : Resynth_state :=
  match visit no_random 10 no_tries_parameters second_run_entry 1 with
  | Done r => r
  | _ => zero_state
  end.

(** A corpus without pixels and an output of one pixel. *)
Definition empty_corpus_state : Resynth_state := load_image zero_state 0 0 3 [] (-1).

(** A state in the middle of a visit: two neighbors gathered, the pixel
    itself and its right-hand neighbor. *)
Definition scoring_state : Resynth_state :=
  set_best INT_MAX
    (set_n_neighbors 2
       (set_neighbor_values [[0; 0; 0; 0]; [0; 255; 0; 0]]
          (set_s_neighbors [mkCoord 0 0; mkCoord 1 0]
             (set_diff_table (make_diff_table 0) four_colors_state)))).

(** The same with no neighbor gathered and a best score of 0. *)
Definition settled_state : Resynth_state :=
  set_best 0 (set_n_neighbors 0 scoring_state).

(** ** Auxiliary notions of the proofs *)


Definition inside (image : Image) (p : Coord) : Prop :=
  0 <= cx p < width image /\ 0 <= cy p < height image.

(** The fields that scoring and the two search phases do not write. *)
Definition search_kept (s : Resynth_state) :=
  (input_bytes s, data s, corpus s, status s, data_array s, corpus_array s,
   status_array s, data_points s, corpus_points s, sorted_offsets s, tried s,
   s_neighbors s, neighbor_values s, neighbor_statuses s, n_neighbors s,
   diff_table s, stderr s, length (tried_array s)).

(** The fields that gathering the neighbors does not write. *)
Definition gather_kept (s : Resynth_state) :=
  (input_bytes s, data s, corpus s, status s, data_array s, corpus_array s,
   status_array s, data_points s, corpus_points s, sorted_offsets s, tried s,
   tried_array s, diff_table s, best s, best_point s, rand_calls s, stderr s).

(** The fields that committing the winner does not write. *)
Definition commit_kept (s : Resynth_state) :=
  (input_bytes s, data s, corpus s, status s, corpus_array s, status_array s,
   data_points s, corpus_points s, sorted_offsets s, tried s, tried_array s,
   s_neighbors s, neighbor_values s, neighbor_statuses s, n_neighbors s,
   diff_table s, best s, best_point s, rand_calls s, stderr s,
   length (data_array s)).

(** The fields that a whole visit does not write. *)
Definition visit_kept (s : Resynth_state) :=
  (input_bytes s, data s, corpus s, status s, corpus_array s, data_points s,
   corpus_points s, sorted_offsets s, tried s, diff_table s, stderr s,
   length (status_array s), length (data_array s), length (tried_array s)).

(** The fields that scheduling does not write. *)
Definition schedule_kept (s : Resynth_state) :=
  (input_bytes s, data s, corpus s, status s, data_array s, corpus_array s,
   status_array s, corpus_points s, sorted_offsets s, tried s, tried_array s,
   s_neighbors s, neighbor_values s, neighbor_statuses s, n_neighbors s,
   diff_table s, best s, best_point s, stderr s).

(** What scheduling may do: the kept fields, and the same coordinates in
    the visiting list. *)
Definition rescheduled (s s' : Resynth_state) : Prop :=
  schedule_kept s' = schedule_kept s /\
  (forall c, In c (data_points s') <-> In c (data_points s)).

(** ** Inversion of completed computations *)

Ltac inv_done :=
  repeat match goal with
  | H : Done _ = Done _ |- _ => injection H as H; try subst
  | H : Fault = Done _ |- _ => discriminate H
  | H : OutOfFuel = Done _ |- _ => discriminate H
  | H : bind ?m _ = Done _ |- _ =>
      let E := fresh "E" in destruct m eqn:E; cbn [bind] in H
  end.

(** ** States in which the main loop cannot go wrong *)





(** ** C strings

    A [char *] is the list of the cells from the pointer to the end of
    its block; the string it holds stops before the first NUL.  A scan
    that leaves the block, or a store outside it, is [Fault]. *)

Definition NUL : ascii := Ascii.zero.

Fixpoint strlen (s : list ascii) : result Z :=
  match s with
  | [] => Fault
  | c :: t => if Ascii.eqb c NUL then Done 0 else n <- strlen t ;; Done (n + 1)
  end.

(** [strncpy(dst, src, n)]: the cell [i] receives [src[i]] until a NUL has
    been copied, and NUL from then on.  The boolean tells whether the NUL
    has been met. *)
Definition strncpy_step (src : list ascii) (st : list ascii * bool) (i : Z)
    : result (list ascii * bool) :=
  let '(dst, ended) := st in
  if ended then
    d <- write dst i NUL ;;
    Done (d, true)
  else
    c <- read src i ;;
    d <- write dst i c ;;
    Done (d, Ascii.eqb c NUL).

Definition strncpy (dst src : list ascii) (n : Z) : result (list ascii) :=
  r <- for_each (strncpy_step src) (zrange 0 n) (dst, false) ;;
  Done (fst r).

(** [strrchr(s, c)]: the offset of the last [c] of the string, its
    terminator included; [None] is [NULL].  [i] is the offset of the head
    of [s], [last] the last match before it. *)
Fixpoint strrchr_from (s : list ascii) (c : ascii) (i : Z) (last : option Z)
    : result (option Z) :=
  match s with
  | [] => Fault
  | a :: t =>
      let last := if Ascii.eqb a c then Some i else last in
      if Ascii.eqb a NUL then Done last else strrchr_from t c (i + 1) last
  end.

Definition strrchr (s : list ascii) (c : ascii) : result (option Z) :=
  strrchr_from s c 0 None.

(** [strcpy(dst + pos, src)]: the characters of [src] up to its NUL, and
    the NUL. *)
Fixpoint strcpy (dst : list ascii) (pos : Z) (src : list ascii)
    : result (list ascii) :=
  match src with
  | [] => Fault
  | a :: t =>
      d <- write dst pos a ;;
      if Ascii.eqb a NUL then Done d else strcpy d (pos + 1) t
  end.

(** The string that a block holds. *)
Fixpoint c_string (s : list ascii) : list ascii :=
  match s with
  | [] => []
  | c :: t => if Ascii.eqb c NUL then [] else c :: c_string t
  end.

(** ** The name of the output file *)

Definition MAX_LENGTH : Z := 256.

(** The result is the block that [calloc(2 * MAX_LENGTH, 1)] gives. *)
Definition manipulate_filename (fn new_extension : list ascii)
    : result (list ascii) :=
  len <- strlen fn ;;
  let len := if len >? MAX_LENGTH then MAX_LENGTH else len in
  let out_fn := repeat NUL (Z.to_nat (2 * MAX_LENGTH)) in
  out_fn <- strncpy out_fn fn len ;;
  hint <- strrchr out_fn "."%char ;;
  match hint with
  | None => strcpy out_fn len new_extension
  | Some h => strcpy out_fn h new_extension
  end.

(** The literal [".resynth.png"] that [main] passes, with its NUL. *)
Definition resynth_extension : list ascii :=
  list_ascii_of_string ".resynth.png" ++ [NUL].

(** ** The options of [main] *)

(** The macros [MIN], [MAX] and [CLAMP], at [int] and at [double]. *)
Definition MIN (a b : Z) : Z := if a <? b then a else b.
Definition MAX (a b : Z) : Z := if a >? b then a else b.
Definition CLAMP (x l u : Z) : Z := MIN (MAX x l) u.

Definition MIN_double (a b : Q) : Q := if Qlt_le_dec a b then a else b.
Definition MAX_double (a b : Q) : Q := if Qlt_le_dec b a then a else b.
Definition CLAMP_double (x l u : Q) : Q := MIN_double (MAX_double x l) u.

Definition disc00 : list Z :=
  [1;    5;    9;    13;   21;   25;   29;   37;
   45;   49;   57;   61;   69;   81;   89;   97;
   101;  109;  113;  121;  129;  137;  145;  149;
   161;  169;  177;  185;  193;  197;  213;  221;
   225;  233;  241;  249;  253;  261;  277;  285;
   293;  301;  305;  317;  325;  333;  341;  349;
   357;  365;  373;  377;  385;  401;  405;  421;
   429;  437;  441;  457;  465;  473;  481;  489;
   497;  505;  509;  517;  529;  545;  553;  561;
   569;  577;  593;  601;  609;  613;  621;  633;
   641;  657;  665;  673;  681;  697;  709;  717;
   725;  733;  741;  749;  757;  761;  769;  777;
   793;  797;  805;  821;  829;  845;  853;  861;
   869;  877;  885;  889;  901;  917;  925;  933;
   941;  949;  965;  973;  981;  989;  997;  1005;
   1009; 1033; 1041; 1049; 1057; 1069; 1085; 1093].

(** [LEN(disc00)] *)
Definition LEN_disc00 : Z := Z.of_nat (length disc00).

Definition set_autism (v : Q) (p : Parameters) : Parameters :=
  mkParameters (h_tile p) (v_tile p) v (neighbors p) (tries p) (polish p) (magic p).

Definition set_neighbors (v : Z) (p : Parameters) : Parameters :=
  mkParameters (h_tile p) (v_tile p) (autism p) v (tries p) (polish p) (magic p).

Definition set_tries (v : Z) (p : Parameters) : Parameters :=
  mkParameters (h_tile p) (v_tile p) (autism p) (neighbors p) v (polish p) (magic p).

Definition set_polish (v : Z) (p : Parameters) : Parameters :=
  mkParameters (h_tile p) (v_tile p) (autism p) (neighbors p) (tries p) v (magic p).

Definition set_magic (v : Z) (p : Parameters) : Parameters :=
  mkParameters (h_tile p) (v_tile p) (autism p) (neighbors p) (tries p) (polish p) v.

(** The flags that set a field of [parameters], by their long names. *)
Inductive Flag : Type :=
| flag_autism
| flag_neighbors
| flag_radius
| flag_circle_radius
| flag_tries
| flag_polish
| flag_magic.

(** The statements that follow each flag; [kyaa_flag_arg] is the integer
    given with it. *)
Definition set_flag (flag : Flag) (kyaa_flag_arg : Z) (p : Parameters)
    : result Parameters :=
  match flag with
  | flag_autism => Done (set_autism (inject_Z kyaa_flag_arg / 256) p)
  | flag_neighbors => Done (set_neighbors kyaa_flag_arg p)
  | flag_radius =>
      let radius := kyaa_flag_arg in
      let radius := int_add (int_mul 2 (MAX radius 0)) 1 in
      Done (set_neighbors (int_mul radius radius) p)
  | flag_circle_radius =>
      let radius := kyaa_flag_arg in
      let radius := CLAMP radius 1 LEN_disc00 in
      n <- read disc00 (radius - 1) ;;
      Done (set_neighbors n p)
  | flag_tries => Done (set_tries kyaa_flag_arg p)
  | flag_polish => Done (set_polish kyaa_flag_arg p)
  | flag_magic => Done (set_magic kyaa_flag_arg p)
  end.

(** The five [CLAMPV] of the parameters, made before each file. *)
Definition clamp_parameters (p : Parameters) : result Parameters :=
  let p := set_polish (CLAMP (polish p) 0 9) p in
  let p := set_magic (CLAMP (magic p) 0 255) p in
  let p := set_autism (CLAMP_double (autism p) 0 1) p in
  last <- read disc00 (LEN_disc00 - 1) ;;
  let p := set_neighbors (CLAMP (neighbors p) 0 last) p in
  Done (set_tries (CLAMP (tries p) 0 65536) p).

Definition clamp_scale (scale : Z) : Z := CLAMP scale (-8192) 32.

(** [srand]: the values of [rand] start again from the first. *)
Definition srand (s : Resynth_state) : Resynth_state := set_rand_calls O s.

(** What [main] does with one decoded image of [w] by [h] pixels of [d]
    bytes: the clamps, the corpus and the output set up, the generator
    seeded, and the run. *)
Definition main_file (qsort : (Coord -> Coord -> Z) -> list Coord -> list Coord)
    (rand : nat -> nat) (fuel : nat) (s : Resynth_state) (p : Parameters)
    (scale : Z) (w h d : Z) (image : list Pixel) : result Resynth_state :=
  p <- clamp_parameters p ;;
  let scale := clamp_scale scale in
  let s := load_image s w h d image scale in
  let s := srand s in
  run qsort rand fuel s p.

(** ** The end of [main] *)

Definition state_free (s : Resynth_state) : Resynth_state :=
  let s := set_data_points [] s in
  let s := set_corpus_points [] s in
  let s := set_sorted_offsets [] s in
  let s := set_diff_table (MEMORY 0 0) s in
  let s := set_data_array (MEMORY 0 0) s in
  let s := set_corpus_array (MEMORY 0 0) s in
  let s := set_status_array (MEMORY Status_zero 0) s in
  set_tried_array (MEMORY 0 0) s.

(** ** Discs of lattice points

    The squared length of an offset, the offsets within a squared distance
    [n] of the origin, and the squared distances that some offset has. *)

Definition norm2 (c : Coord) : Z := cx c * cx c + cy c * cy c.

Definition disc (n : Z) : list Coord :=
  filter (fun c => norm2 c <=? n) (offset_grid (Z.sqrt n + 1) (Z.sqrt n + 1)).

Definition disc_count (n : Z) : Z := Z.of_nat (length (disc n)).

Definition sum_of_two_squares (n : Z) : bool :=
  existsb (fun c => norm2 c =? n) (offset_grid (Z.sqrt n + 1) (Z.sqrt n + 1)).

Definition disc_radii (bound : Z) : list Z :=
  filter sum_of_two_squares (zrange 0 bound).

(** ** Notions of the properties of a run *)

(** The pixels that have a source hold the bytes of the corpus pixel at
    their source. *)
Definition sources_copied (s : Resynth_state) : Prop :=
  forall k st,
    nth_error (status_array s) k = Some st -> has_source st = true ->
    forall j, 0 <= j < input_bytes s ->
      exists v,
        read (corpus_array s) (image_atc (corpus s) (source st) + j) = Done v /\
        read (data_array s) (Z.of_nat k * depth (data s) + j) = Done v.


(** ** Two runs side by side

    What two states share when they differ only in what a run can inherit
    from an earlier one and does not reset: the output pixels, the values
    recorded for the neighbors, [n_neighbors], [best], [best_point], and
    what has been printed. *)
Definition visit_shared (s : Resynth_state) :=
  (input_bytes s, data s, corpus s, status s, corpus_array s, status_array s,
   data_points s, corpus_points s, sorted_offsets s, tried s, tried_array s,
   s_neighbors s, neighbor_statuses s, diff_table s, rand_calls s).

(** The values of the neighbors agree from the cell 1 on, and the cells 0
    have the same size. *)
Definition values_agree (v1 v2 : list Pixel32) : Prop :=
  length v1 = length v2 /\
  (forall i, (1 <= i)%nat -> nth_error v1 i = nth_error v2 i) /\
  option_map (@length Z) (nth_error v1 0) = option_map (@length Z) (nth_error v2 0).

Definition same_visits (s1 s2 : Resynth_state) : Prop :=
  visit_shared s1 = visit_shared s2 /\
  length (data_array s1) = length (data_array s2) /\
  values_agree (neighbor_values s1) (neighbor_values s2).

(** The offsets that lead from a pixel to another pixel: not (0,0), and
    shorter than the image is wide and high. *)
Definition moving_offset (image : Image) (o : Coord) : Prop :=
  o <> mkCoord 0 0 /\ Z.abs (cx o) < width image /\ Z.abs (cy o) < height image.

(** Between two visits of a run: the status map has the dimensions of the
    output, the offset table starts with (0,0) and its other offsets are
    shorter than the output is wide and high, the visiting list stays
    inside the output, the costs are at most 65536, the parameters ask for
    a neighbor and a try and keep the scores below [INT_MAX], a pixel has a
    value when it has a source, and the pixels that have a source hold the
    bytes of the corpus. *)
Record visit_context (parameters : Parameters) (s : Resynth_state) : Prop := {
  vc_status : status s = mkImage (width (data s)) (height (data s)) 1;
  vc_width : 0 < width (data s);
  vc_height : 0 < height (data s);
  vc_input_bytes : 0 <= input_bytes s <= depth (data s);
  vc_offsets :
    exists rest,
      sorted_offsets s = mkCoord 0 0 :: rest /\
      Forall (moving_offset (data s)) rest;
  vc_data_points : Forall (inside (data s)) (data_points s);
  vc_table : Forall (fun t => 0 <= t <= 65536) (diff_table s);
  vc_neighbors : 1 <= neighbors parameters;
  vc_score : neighbors parameters * (input_bytes s * 65536) < INT_MAX;
  vc_tries : 1 <= tries parameters;
  vc_settled :
    forall k st, nth_error (status_array s) k = Some st -> has_value st = has_source st;
  vc_sources : sources_copied s
}.

(** After the neighbors are gathered the two runs have the same number of
    them; during the search they also have the same best score, and the
    same best point once a candidate has been recorded. *)
Definition same_gather (s1 s2 : Resynth_state) : Prop :=
  same_visits s1 s2 /\ n_neighbors s1 = n_neighbors s2.

Definition same_search (s1 s2 : Resynth_state) : Prop :=
  same_gather s1 s2 /\ best s1 = best s2 /\
  (best s1 < INT_MAX -> best_point s1 = best_point s2).

(** The scores of the candidates stay below [INT_MAX]. *)
Definition scores_fit (s : Resynth_state) : Prop :=
  Forall (fun t => 0 <= t <= 65536) (diff_table s) /\
  0 <= input_bytes s /\ 0 <= n_neighbors s /\
  n_neighbors s * (input_bytes s * 65536) < INT_MAX.

(** What scheduling reads and writes, and what two runs share when
    their visiting lists are ready. *)
Definition same_schedule (s1 s2 : Resynth_state) : Prop :=
  data_points s1 = data_points s2 /\ rand_calls s1 = rand_calls s2.

Definition schedule_shared (s : Resynth_state) :=
  (input_bytes s, data s, corpus s, status s, corpus_array s, status_array s,
   corpus_points s, sorted_offsets s, s_neighbors s, neighbor_values s,
   neighbor_statuses s, diff_table s, length (data_array s)).
(** ** More sample inputs *)

(** File names as [main] receives them: the characters and the NUL. *)
Definition c_literal (s : string) : list ascii := list_ascii_of_string s ++ [NUL].

(** The state of [scoring_state] once the candidate (0, 0) is scored. *)
Definition scored_state : Resynth_state :=
  match try_point scoring_state (mkCoord 0 0) with
  | Done r => r
  | _ => zero_state
  end.

(** The sample run on entry to its main loop, and the first pixel that it
    visits with its neighbors gathered. *)
Definition sample_entry : Resynth_state :=
  main_loop_entry insertion_sort four_colors_state sample_parameters.

Definition sample_gathered : Resynth_state :=
  match gather 10 sample_parameters sample_entry 3 with
  | Done r => snd r
  | _ => zero_state
  end.

(** The visiting list of the sample run, shuffled. *)
Definition sample_shuffled : Resynth_state :=
  match for_each (shuffle_step (rand_cycle [3; 1; 2]%nat) 4) (zrange 0 4) sample_entry with
  | Done r => r
  | _ => zero_state
  end.

(** The duplicates that [magic = 192] appends to the four pixels of the
    visiting list. *)
Definition sample_duplicated : Resynth_state :=
  match magic_loop 4 sample_parameters 4 sample_entry with
  | Done r => r
  | _ => zero_state
  end.

(** What [main] makes of the four colors as its first file. *)
Definition sample_file_result : Resynth_state :=
  match main_file insertion_sort (rand_cycle [3; 1; 2]%nat) 10 zero_state
                  sample_parameters 1 2 2 3 four_colors with
  | Done r => r
  | _ => zero_state
  end.


(** * Properties *)

(** ** The boundary resolver *)









(** ** Ranges and tables *)

Lemma nth_error_count_from (n : nat) :
  forall lo k, (k < n)%nat -> nth_error (count_from lo n) k = Some (lo + Z.of_nat k).
Proof.
  induction n as [|n IH]; intros lo k Hk; [lia|].
  destruct k as [|k]; simpl.
  - f_equal. lia.
  - rewrite IH by lia. f_equal. lia.
Qed.

Lemma length_count_from (n : nat) : forall lo, length (count_from lo n) = n.
Proof. induction n; intros; simpl; auto. Qed.

Lemma length_zrange (lo hi : Z) : length (zrange lo hi) = Z.to_nat (hi - lo).
Proof. apply length_count_from. Qed.

Lemma in_count_from (n : nat) :
  forall lo z, In z (count_from lo n) <-> lo <= z < lo + Z.of_nat n.
Proof.
  induction n as [|n IH]; intros lo z; simpl.
  - lia.
  - rewrite IH. lia.
Qed.

Lemma in_zrange (lo hi z : Z) : In z (zrange lo hi) <-> lo <= z < hi.
Proof. unfold zrange. rewrite in_count_from. lia. Qed.

Lemma read_Done {A : Type} (l : list A) (i : Z) (a : A) :
  read l i = Done a <->
  0 <= i < Z.of_nat (length l) /\ nth_error l (Z.to_nat i) = Some a.
Proof.
  unfold read, in_range.
  destruct (Z.leb_spec 0 i), (Z.ltb_spec i (Z.of_nat (length l))); simpl;
    try (split; [discriminate|lia]).
  destruct (nth_error l (Z.to_nat i)) eqn:E.
  - split; [intros [= ->]; split; [lia|reflexivity]|intros [_ [= ->]]; reflexivity].
  - split; [discriminate|intros [_ ?]; discriminate].
Qed.

Lemma read_map_zrange {A : Type} (f : Z -> A) (lo hi i : Z) :
  lo <= i < hi -> read (map f (zrange lo hi)) (i - lo) = Done (f i).
Proof.
  intros Hi. apply read_Done. rewrite length_map, length_zrange. split; [lia|].
  rewrite nth_error_map. unfold zrange.
  rewrite nth_error_count_from by lia. simpl. f_equal. f_equal. lia.
Qed.

(** ** The diff table *)

Lemma Int_part_between (r : R) (z : Z) :
  (IZR z <= r < IZR z + 1)%R -> Int_part r = z.
Proof.
  intros [Hlo Hhi]. symmetry. apply Int_part_spec. lra.
Qed.

Lemma neglog_cauchy_nonneg (x : R) : (0 <= neglog_cauchy x)%R.
Proof.
  unfold neglog_cauchy.
  assert (H : (0 <= x * x)%R) by nra.
  destruct (Req_dec (x * x) 0) as [E|E].
  - rewrite E, Rplus_0_l, ln_1. lra.
  - left. rewrite <- ln_1. apply ln_increasing; lra.
Qed.

Lemma diff_value_nonneg (a : Q) (i : Z) : (0 <= diff_value a i)%R.
Proof.
  unfold diff_value.
  pose proof (neglog_cauchy_nonneg (IZR i / 256 / Q2R a)) as Hn.
  pose proof (neglog_cauchy_nonneg (1 / Q2R a)) as Hd.
  apply Rmult_le_pos; [|lra].
  destruct Hd as [Hd|Hd].
  - apply Rmult_le_pos; [assumption|]. left. now apply Rinv_0_lt_compat.
  - rewrite <- Hd. unfold Rdiv. rewrite Rinv_0, Rmult_0_r. lra.
Qed.

Lemma diff_value_0 (a : Q) : diff_value a 0 = 0%R.
Proof.
  unfold diff_value, neglog_cauchy.
  replace (0 / 256 / Q2R a)%R with 0%R by (unfold Rdiv; ring).
  replace (0 * 0 + 1)%R with 1%R by ring.
  rewrite ln_1. unfold Rdiv. ring.
Qed.

Lemma diff_entry_0 (a : Q) : diff_entry a 0 = 0.
Proof.
  unfold diff_entry. destruct (Qlt_le_dec 0 a); [|reflexivity].
  rewrite diff_value_0. unfold int_of_double.
  destruct (Rle_dec 0 0) as [_|N]; [|exfalso; apply N; lra].
  apply Int_part_between. simpl. lra.
Qed.

Lemma diff_entry_hard (a : Q) (i : Z) :
  (a <= 0)%Q -> diff_entry a i = if i =? 0 then 0 else 65536.
Proof.
  intros Ha. unfold diff_entry.
  destruct (Qlt_le_dec 0 a) as [Hpos|_].
  - exfalso. apply (Qlt_irrefl 0). eapply Qlt_le_trans; eauto.
  - destruct (i =? 0); reflexivity.
Qed.

Lemma read_diff_table (a : Q) (d : Z) :
  -256 <= d < 256 -> read (make_diff_table a) (256 + d) = Done (diff_entry a d).
Proof.
  intros Hd. unfold make_diff_table.
  replace (256 + d) with (d - -256) by lia. now apply read_map_zrange.
Qed.

(** C8.  Whatever [autism] is, the cell of difference 0, [diff_table[256]],
    holds 0; and when [autism <= 0] the cell of each difference [d] holds
    65536 for [d <> 0] and 0 for [d = 0]. *)
Theorem diff_table_zero_and_hard (a : Q) :
  read (make_diff_table a) 256 = Done 0 /\
  ((a <= 0)%Q ->
   forall d, -256 <= d < 256 ->
     read (make_diff_table a) (256 + d) = Done (if d =? 0 then 0 else 65536)).
Proof.
  split.
  - change 256 with (256 + 0). rewrite read_diff_table by lia.
    now rewrite diff_entry_0.
  - intros Ha d Hd. rewrite read_diff_table by assumption.
    now rewrite diff_entry_hard.
Qed.

Lemma spec_cost_value_diff_value (a : Q) (d : Z) :
  spec_cost_value a d = diff_value a d.
Proof.
  unfold spec_cost_value, diff_value, spec_f, neglog_cauchy. simpl.
  rewrite !Rmult_1_r. unfold Rdiv. ring.
Qed.

(** C4, as the code has it.  For [autism > 0] and each difference [d] of
    the table, the cell holds the integer part of
    [65536 * f(d/256/autism) / f(1/autism)]: the value is not negative and
    the conversion to [int] truncates it. *)
Theorem diff_table_truncates (a : Q) (d : Z) :
  (0 < a)%Q -> -256 <= d < 256 ->
  exists c, read (make_diff_table a) (256 + d) = Done c /\
            0 <= c /\
            (IZR c <= spec_cost_value a d < IZR c + 1)%R.
Proof.
  intros Ha Hd. rewrite read_diff_table by assumption.
  exists (diff_entry a d). split; [reflexivity|].
  unfold diff_entry. destruct (Qlt_le_dec 0 a) as [_|Hle].
  2:{ exfalso. apply (Qlt_irrefl 0). eapply Qlt_le_trans; eauto. }
  rewrite spec_cost_value_diff_value.
  pose proof (diff_value_nonneg a d) as Hnn.
  unfold int_of_double. destruct (Rle_dec 0 (diff_value a d)) as [_|N]; [|tauto].
  pose proof (base_Int_part (diff_value a d)) as [Hlo Hhi].
  split; [|lra].
  destruct (Z_lt_le_dec (Int_part (diff_value a d)) 0) as [Hneg|]; [|assumption].
  exfalso. assert (Int_part (diff_value a d) <= -1) as Hm by lia.
  apply IZR_le in Hm. lra.
Qed.

(** *** Bounds on the logarithm, for evaluating one cell *)

Lemma ln_1p_lt (u : R) : (0 < u)%R -> (ln (1 + u) < u)%R.
Proof.
  intros Hu. rewrite <- (ln_exp u) at 2.
  apply ln_increasing; [lra|]. apply exp_ineq1. lra.
Qed.

Lemma ln_1p_ge (u : R) : (0 < u)%R -> (u / (1 + u) <= ln (1 + u))%R.
Proof.
  intros Hu.
  assert (Hpos : (0 < 1 + u)%R) by lra.
  pose proof (exp_ineq1_le (- (u / (1 + u)))) as He.
  assert (Hinv : (/ (1 + u) = 1 + - (u / (1 + u)))%R) by (field; lra).
  rewrite <- Hinv in He.
  assert (Hln : (ln (/ (1 + u)) <= - (u / (1 + u)))%R).
  { rewrite <- (ln_exp (- (u / (1 + u)))).
    destruct He as [He|He].
    - left. apply ln_increasing; [now apply Rinv_0_lt_compat|assumption].
    - rewrite He. lra. }
  rewrite ln_Rinv in Hln by assumption. lra.
Qed.

Lemma exp_double (t : R) : exp (t + t) = (exp t * exp t)%R.
Proof. apply exp_plus. Qed.

Lemma square_le (c e : R) : (0 <= c)%R -> (c <= e)%R -> (c * c <= e * e)%R.
Proof. intros H0 Hle. apply Rmult_le_compat; assumption. Qed.

Lemma ln_2_upper : (ln 2 < 727 / 1000)%R.
Proof.
  rewrite <- (ln_exp (727 / 1000)). apply ln_increasing; [lra|].
  set (t := (727 / 8000)%R).
  replace (727 / 1000)%R with (((t + t) + (t + t)) + ((t + t) + (t + t)))%R
    by (unfold t; field).
  rewrite !exp_double.
  pose proof (exp_ineq1_le t) as H1.
  set (e := exp t) in *. unfold t in H1.
  set (c := (8727 / 8000)%R).
  assert (H2 : (c * c <= e * e)%R) by (apply square_le; unfold c; lra).
  assert (H4 : (c * c * (c * c) <= e * e * (e * e))%R)
    by (apply square_le; [unfold c; lra|assumption]).
  assert (H8 : (c * c * (c * c) * (c * c * (c * c))
                <= e * e * (e * e) * (e * e * (e * e)))%R)
    by (apply square_le; [unfold c; lra|assumption]).
  eapply Rlt_le_trans; [|exact H8]. unfold c. lra.
Qed.

Lemma ln_2_lower : (2 / 3 < ln 2)%R.
Proof.
  assert (Hhalf : (/ 2 < exp (- (2 / 3)))%R).
  { set (t := (- (1 / 24))%R).
    replace (- (2 / 3))%R with
      ((((t + t) + (t + t)) + ((t + t) + (t + t))) +
       (((t + t) + (t + t)) + ((t + t) + (t + t))))%R by (unfold t; field).
    rewrite !exp_double.
    pose proof (exp_ineq1_le t) as H1.
    set (e := exp t) in *. unfold t in H1.
    set (c := (23 / 24)%R).
    assert (H2 : (c * c <= e * e)%R) by (apply square_le; unfold c; lra).
    assert (H4 : (c * c * (c * c) <= e * e * (e * e))%R)
      by (apply square_le; [unfold c; lra|assumption]).
    assert (H8 : (c * c * (c * c) * (c * c * (c * c))
                  <= e * e * (e * e) * (e * e * (e * e)))%R)
      by (apply square_le; [unfold c; lra|assumption]).
    assert (H16 : (c * c * (c * c) * (c * c * (c * c)) *
                   (c * c * (c * c) * (c * c * (c * c)))
                   <= e * e * (e * e) * (e * e * (e * e)) *
                      (e * e * (e * e) * (e * e * (e * e))))%R)
      by (apply square_le; [unfold c; lra|assumption]).
    eapply Rlt_le_trans; [|exact H16]. unfold c. lra. }
  assert (Hprod : (exp (2 / 3) * exp (- (2 / 3)) = 1)%R).
  { rewrite <- exp_plus. replace (2 / 3 + - (2 / 3))%R with 0%R by field.
    apply exp_0. }
  pose proof (exp_pos (2 / 3)) as Hp.
  assert (Hlt : (exp (2 / 3) < 2)%R) by nra.
  rewrite <- (ln_exp (2 / 3)). now apply ln_increasing.
Qed.

Lemma diff_value_1_2 : (11 / 2 < diff_value 1 2 < 6)%R.
Proof.
  unfold diff_value, neglog_cauchy. rewrite RMicromega.Q2R_1.
  replace (2 / 256 / 1 * (2 / 256 / 1) + 1)%R with (1 + / 16384)%R by field.
  replace (1 / 1 * (1 / 1) + 1)%R with 2%R by field.
  pose proof (ln_1p_lt (/ 16384) ltac:(lra)) as Hu.
  pose proof (ln_1p_ge (/ 16384) ltac:(lra)) as Hl.
  replace (/ 16384 / (1 + / 16384))%R with (/ 16385)%R in Hl by field.
  pose proof ln_2_upper as H2u. pose proof ln_2_lower as H2l.
  set (L := ln (1 + / 16384)) in *. set (M := ln 2) in *.
  assert (HM : (0 < M)%R) by lra.
  assert (E : (L / M * 65536 = (65536 * L) * / M)%R) by (field; lra).
  rewrite E.
  assert (Hinv : (0 < / M)%R) by now apply Rinv_0_lt_compat.
  assert (HMi : (M * / M = 1)%R) by (field; lra).
  split; nra.
Qed.

(** C4 fails as stated.  At [autism = 1] and [d = 2] the value
    [65536 * f(2/256) / f(1)] lies strictly between 5.5 and 6: the cell
    holds 5, its integer part, and rounding to the nearest integer gives
    6. *)
Lemma diff_table_not_rounded :
  read (make_diff_table 1) (256 + 2) = Done 5 /\
  spec_cost 1 2 = 6 /\
  read (make_diff_table 1) (256 + 2) <> Done (spec_cost 1 2).
Proof.
  pose proof diff_value_1_2 as [Hlo Hhi].
  assert (Hcell : read (make_diff_table 1) (256 + 2) = Done 5).
  { rewrite read_diff_table by lia. f_equal.
    unfold diff_entry. destruct (Qlt_le_dec 0 1) as [_|Hle].
    2:{ exfalso. revert Hle. apply Qlt_not_le. reflexivity. }
    unfold int_of_double.
    destruct (Rle_dec 0 (diff_value 1 2)) as [_|N]; [|exfalso; apply N; lra].
    apply Int_part_between. simpl. lra. }
  assert (Hspec : spec_cost 1 2 = 6).
  { unfold spec_cost, round_nearest. rewrite spec_cost_value_diff_value.
    apply Int_part_between. simpl. lra. }
  split; [assumption|]. split; [assumption|].
  rewrite Hcell, Hspec. intros [= H].
Qed.

(** ** Coordinate lists *)

Lemma NoDup_count_from (n : nat) : forall lo, NoDup (count_from lo n).
Proof.
  induction n as [|n IH]; intros lo; simpl; constructor.
  - rewrite in_count_from. lia.
  - apply IH.
Qed.

Lemma NoDup_zrange (lo hi : Z) : NoDup (zrange lo hi).
Proof. apply NoDup_count_from. Qed.

Section Rows.

Variables xs ys : list Z.

Lemma in_rows (c : Coord) : In c (rows xs ys) <-> In (cx c) xs /\ In (cy c) ys.
Proof.
  unfold rows. rewrite in_flat_map. split.
  - intros (y & Hy & Hc). apply in_map_iff in Hc as (x & <- & Hx). now simpl.
  - intros [Hx Hy]. exists (cy c). split; [assumption|].
    apply in_map_iff. exists (cx c). split; [now destruct c|assumption].
Qed.

Lemma length_rows : length (rows xs ys) = (length ys * length xs)%nat.
Proof.
  unfold rows. apply flat_map_constant_length. intros y _. apply length_map.
Qed.

Lemma NoDup_rows : NoDup xs -> NoDup ys -> NoDup (rows xs ys).
Proof.
  intros Hxs Hys. unfold rows.
  induction Hys as [|y ys' Hy Hys' IH]; simpl; [constructor|].
  apply NoDup_app.
  - apply Finite.Injective_map_NoDup; [|assumption].
    intros x x' [= ->]. reflexivity.
  - exact IH.
  - intros c Hc Hc'. apply in_map_iff in Hc as (x & <- & Hx).
    apply in_flat_map in Hc' as (y' & Hy' & Hc').
    apply in_map_iff in Hc' as (x' & [= -> ->] & _). contradiction.
Qed.

End Rows.

Lemma in_offset_grid (w h : Z) (c : Coord) :
  In c (offset_grid w h) <-> - w < cx c < w /\ - h < cy c < h.
Proof. unfold offset_grid. rewrite in_rows, !in_zrange. lia. Qed.


Lemma NoDup_offset_grid (w h : Z) : NoDup (offset_grid w h).
Proof. apply NoDup_rows; apply NoDup_zrange. Qed.

Lemma in_grid (w h : Z) (c : Coord) :
  In c (grid w h) <-> 0 <= cx c < w /\ 0 <= cy c < h.
Proof. unfold grid. rewrite in_rows, !in_zrange. lia. Qed.

Lemma length_grid (w h : Z) :
  length (grid w h) = (Z.to_nat h * Z.to_nat w)%nat.
Proof.
  unfold grid. rewrite length_rows, !length_zrange. now rewrite !Z.sub_0_r.
Qed.

(** ** The offset table *)

Lemma coord_compare_total (a b : Coord) :
  coord_compare a b <= 0 \/ coord_compare b a <= 0.
Proof. unfold coord_compare. lia. Qed.

Lemma coord_compare_trans (a b c : Coord) :
  coord_compare a b <= 0 -> coord_compare b c <= 0 -> coord_compare a c <= 0.
Proof. unfold coord_compare. lia. Qed.

(** The squared distances of the offsets of an image of at most 32768
    pixels a side, and their differences, fit in an [int]. *)
Lemma coord_compare_in_int (a b : Coord) :
  Z.abs (cx a) < 32768 -> Z.abs (cy a) < 32768 ->
  Z.abs (cx b) < 32768 -> Z.abs (cy b) < 32768 ->
  0 <= cx a * cx a + cy a * cy a <= INT_MAX /\
  INT_MIN <= coord_compare a b <= INT_MAX.
Proof. unfold coord_compare, INT_MAX, INT_MIN. nia. Qed.





Section OffsetTable.

Variable qsort : (Coord -> Coord -> Z) -> list Coord -> list Coord.

(** The contract of [qsort]: the array is permuted, and comes out ordered
    when the comparison function is a total preorder. *)
Hypothesis qsort_permutation :
  forall cmp l, Permutation (qsort cmp l) l.
Hypothesis qsort_sorted :
  forall cmp l,
    (forall a b, cmp a b <= 0 \/ cmp b a <= 0) ->
    (forall a b c, cmp a b <= 0 -> cmp b c <= 0 -> cmp a c <= 0) ->
    StronglySorted (fun a b => cmp a b <= 0) (qsort cmp l).




End OffsetTable.

(** *** Insertion sort meets the contract of [qsort] *)

Lemma insert_sorted_permutation (cmp : Coord -> Coord -> Z) (a : Coord) (l : list Coord) :
  Permutation (insert_sorted cmp a l) (a :: l).
Proof.
  induction l as [|b t IH]; simpl; [reflexivity|].
  destruct (cmp a b <=? 0); [reflexivity|].
  rewrite IH. apply perm_swap.
Qed.

Lemma insertion_sort_permutation (cmp : Coord -> Coord -> Z) (l : list Coord) :
  Permutation (insertion_sort cmp l) l.
Proof.
  induction l as [|a l IH]; simpl; [reflexivity|].
  rewrite insert_sorted_permutation. now constructor.
Qed.

Lemma insert_sorted_sorted (cmp : Coord -> Coord -> Z) (a : Coord) (l : list Coord) :
  (forall a b, cmp a b <= 0 \/ cmp b a <= 0) ->
  (forall a b c, cmp a b <= 0 -> cmp b c <= 0 -> cmp a c <= 0) ->
  StronglySorted (fun a b => cmp a b <= 0) l ->
  StronglySorted (fun a b => cmp a b <= 0) (insert_sorted cmp a l).
Proof.
  intros Htot Htrans HS. induction HS as [|b t HS IH Hall]; simpl.
  - repeat constructor.
  - destruct (Z.leb_spec (cmp a b) 0) as [Hle|Hgt].
    + constructor; [now constructor|]. constructor; [assumption|].
      eapply Forall_impl; [|exact Hall]. intros c Hc. eauto.
    + constructor; [exact IH|].
      apply (Permutation_Forall (Permutation_sym (insert_sorted_permutation cmp a t))).
      constructor; [|assumption]. destruct (Htot a b); [lia|assumption].
Qed.

Lemma insertion_sort_sorted (cmp : Coord -> Coord -> Z) (l : list Coord) :
  (forall a b, cmp a b <= 0 \/ cmp b a <= 0) ->
  (forall a b c, cmp a b <= 0 -> cmp b c <= 0 -> cmp a c <= 0) ->
  StronglySorted (fun a b => cmp a b <= 0) (insertion_sort cmp l).
Proof.
  intros Htot Htrans. induction l as [|a l IH]; simpl; [constructor|].
  now apply insert_sorted_sorted.
Qed.

(** ** Scoring a candidate *)

Lemma read_nth {A : Type} (l : list A) (i : Z) (d : A) :
  0 <= i < Z.of_nat (length l) -> read l i = Done (nth (Z.to_nat i) l d).
Proof.
  intros Hi. apply read_Done. split; [assumption|].
  apply nth_error_nth'. lia.
Qed.

Lemma read_Fault {A : Type} (l : list A) (i : Z) :
  ~ 0 <= i < Z.of_nat (length l) -> read l i = Fault.
Proof.
  intros Hi. unfold read, in_range.
  destruct (Z.leb_spec 0 i), (Z.ltb_spec i (Z.of_nat (length l))); simpl;
    try reflexivity. lia.
Qed.

Lemma Forall_nth_Z {A : Type} (P : A -> Prop) (l : list A) (i : Z) (d : A) :
  Forall P l -> 0 <= i < Z.of_nat (length l) -> P (nth (Z.to_nat i) l d).
Proof.
  intros HF Hi. rewrite Forall_forall in HF. apply HF. apply nth_In. lia.
Qed.

Lemma inside_corpus_index (s : Resynth_state) (p : Coord) (j : Z) :
  scoring_ready s -> outside_corpus s p = false -> 0 <= j < input_bytes s ->
  0 <= image_atc (corpus s) p + j < Z.of_nat (length (corpus_array s)).
Proof.
  intros R Hin Hj. rewrite (sr_corpus s R).
  pose proof (sr_input_bytes s R) as Hb.
  unfold outside_corpus in Hin. rewrite !orb_false_iff in Hin.
  destruct Hin as [[[Hx Hy] Hw] Hh].
  apply Z.ltb_ge in Hx, Hy. rewrite Z.geb_leb in Hw, Hh.
  apply Z.leb_gt in Hw, Hh.
  unfold image_atc, image_at.
  assert (H0 : 0 <= cy p * width (corpus s) + cx p) by nia.
  assert (H1 : cy p * width (corpus s) + cx p + 1 <= width (corpus s) * height (corpus s))
    by nia.
  set (k := cy p * width (corpus s) + cx p) in *.
  set (a := width (corpus s) * height (corpus s)) in *.
  assert (H2 : (k + 1) * depth (corpus s) <= a * depth (corpus s)) by nia.
  nia.
Qed.

Section Scoring.

Variable s : Resynth_state.
Hypothesis ready : scoring_ready s.
Variable C : Coord.

Lemma table_length : Z.of_nat (length (diff_table s)) = 512.
Proof. now rewrite (sr_table_length s ready). Qed.

Lemma cost_nonneg (d : Z) : 0 <= cost s d.
Proof.
  unfold cost. destruct (nth_in_or_default (Z.to_nat (256 + d)) (diff_table s) 0)
    as [Hin| ->]; [|lia].
  pose proof (sr_table_nonneg s ready) as HF. rewrite Forall_forall in HF. auto.
Qed.

Lemma channel_loop (V : Pixel32) (p : Coord) :
  outside_corpus s p = false ->
  input_bytes s <= Z.of_nat (length V) -> Forall is_byte V ->
  forall chs sum,
    (forall ch, In ch chs -> 0 <= ch < input_bytes s) ->
    for_each (channel_step s V (image_atc (corpus s) p)) chs sum =
    Done (sum + fold_right Z.add 0
                  (map (fun ch => cost s (nth (Z.to_nat ch) V 0 - corpus_channel s p ch))
                       chs)).
Proof.
  intros Hin HV HVb. induction chs as [|ch chs IH]; intros sum Hchs;
    cbn [for_each map fold_right].
  - f_equal. lia.
  - assert (Hch : 0 <= ch < input_bytes s) by (apply Hchs; now left).
    assert (HchV : 0 <= ch < Z.of_nat (length V)) by lia.
    pose proof (inside_corpus_index s p ch ready Hin Hch) as Hidx.
    pose proof (Forall_nth_Z is_byte V ch 0 HVb HchV) as Hd.
    pose proof (Forall_nth_Z is_byte (corpus_array s) _ 0 (sr_corpus_bytes s ready)
                  Hidx) as Hc.
    unfold is_byte in Hd, Hc.
    unfold channel_step at 1.
    rewrite (read_nth V ch 0) by assumption. cbn [bind].
    rewrite (read_nth (corpus_array s) _ 0) by assumption. cbn [bind].
    rewrite (read_nth (diff_table s) _ 0)
      by (rewrite table_length; lia).
    cbn [bind].
    rewrite IH by (intros; apply Hchs; now right).
    unfold cost, corpus_channel. rewrite <- Z.add_sub_assoc. f_equal. lia.
Qed.

Lemma reference_neighbor_cost_nonneg (i : Z) : 0 <= reference_neighbor_cost s C i.
Proof.
  unfold reference_neighbor_cost.
  destruct (outside_corpus s _).
  - apply Z.mul_nonneg_nonneg; [|apply (sr_input_bytes s ready)].
    destruct (nth_in_or_default 0 (diff_table s) 0) as [Hin| ->]; [|lia].
    pose proof (sr_table_nonneg s ready) as HF. rewrite Forall_forall in HF. auto.
  - destruct (i =? 0); [lia|].
    induction (zrange 0 (input_bytes s)) as [|ch chs IH]; simpl; [lia|].
    pose proof (cost_nonneg
                  (nth (Z.to_nat ch) (nth (Z.to_nat i) (neighbor_values s) []) 0 -
                   corpus_channel s
                     (coord_add C (nth (Z.to_nat i) (s_neighbors s) (mkCoord 0 0))) ch)).
    lia.
Qed.

Lemma reference_costs_nonneg (idx : list Z) :
  0 <= fold_right Z.add 0 (map (reference_neighbor_cost s C) idx).
Proof.
  induction idx as [|i idx IH]; simpl; [lia|].
  pose proof (reference_neighbor_cost_nonneg i). lia.
Qed.

(** One turn of the loop of [try_point] adds the neighbor's reference
    cost. *)
Lemma neighbor_contribution (i sum : Z) :
  0 <= i < n_neighbors s ->
  (if outside_corpus s (coord_add C (nth (Z.to_nat i) (s_neighbors s) (mkCoord 0 0)))
   then t <- read (diff_table s) 0 ;; Done (sum + t * input_bytes s)
   else if negb (i =? 0) then
     data_pixel <- read (neighbor_values s) i ;;
     for_each (channel_step s data_pixel
                 (image_atc (corpus s)
                    (coord_add C (nth (Z.to_nat i) (s_neighbors s) (mkCoord 0 0)))))
              (zrange 0 (input_bytes s)) sum
   else Done sum) = Done (sum + reference_neighbor_cost s C i).
Proof.
  intros Hi. pose proof (sr_values s ready).
  unfold reference_neighbor_cost.
  destruct (outside_corpus s _) eqn:Hout.
  - rewrite (read_nth (diff_table s) 0 0) by (rewrite table_length; lia).
    reflexivity.
  - destruct (i =? 0); cbn [negb]; [f_equal; lia|].
    rewrite (read_nth (neighbor_values s) i []) by lia. cbn [bind].
    assert (HiV : 0 <= i < Z.of_nat (length (neighbor_values s))) by lia.
    pose proof (Forall_nth_Z _ (neighbor_values s) i [] (sr_channels s ready) HiV)
      as [HV HVb].
    apply channel_loop; auto.
    intros ch Hch. now apply in_zrange in Hch.
Qed.

(** The loop with its early [return]: since no cost is negative, leaving
    early and comparing the whole sum at the end select the same
    candidates. *)
Lemma try_point_loop_reference (idx : list Z) :
  (forall i, In i idx -> 0 <= i < n_neighbors s) ->
  forall sum,
    try_point_loop s C idx sum =
    Done (match idx with
          | [] => Some sum
          | _ :: _ =>
              let total := sum + fold_right Z.add 0 (map (reference_neighbor_cost s C) idx) in
              if total >=? best s then None else Some total
          end).
Proof.
  induction idx as [|i idx IH]; intros Hidx sum; [reflexivity|].
  cbn [try_point_loop].
  assert (Hi : 0 <= i < n_neighbors s) by (apply Hidx; now left).
  pose proof (sr_neighbors s ready).
  rewrite (read_nth (s_neighbors s) i (mkCoord 0 0)) by lia.
  cbn [bind]. cbv zeta.
  rewrite (neighbor_contribution i sum) by assumption.
  cbn [bind map fold_right].
  pose proof (reference_costs_nonneg idx) as Hrest.
  set (c := reference_neighbor_cost s C i) in *.
  set (rest := fold_right Z.add 0 (map (reference_neighbor_cost s C) idx)) in *.
  cbv zeta.
  destruct (Z.geb_spec (sum + c) (best s)) as [Hge|Hlt].
  - destruct (Z.geb_spec (sum + (c + rest)) (best s)); [reflexivity|lia].
  - rewrite IH by (intros; apply Hidx; now right).
    destruct idx as [|i' idx'].
    + simpl in rest. subst rest.
      destruct (Z.geb_spec (sum + (c + 0)) (best s)); [lia|].
      do 2 f_equal. lia.
    + cbv zeta. fold rest. rewrite Z.add_assoc. reflexivity.
Qed.

End Scoring.

(** C5.  On the states in which the driver calls it, [try_point] is
    the unpruned reference.  The arrays hold what the routine reads and no
    cost is negative; the best so far is positive (both search loops test
    [best != 0] before each call, and a best score is [INT_MAX] or a sum
    of costs) or a neighbor has been gathered (a visit gathers the pixel
    itself first).  Then [try_point] returns, and the pair
    [(best, best_point)] becomes [(sum, C)] exactly when the whole
    reference sum is lower than the best so far; the state is unchanged
    otherwise. *)
Theorem try_point_reference (s : Resynth_state) (C : Coord) :
  scoring_ready s ->
  0 < best s \/ 0 < n_neighbors s ->
  try_point s C = Done (reference_try_point s C).
Proof.
  intros R Hpos. unfold try_point, reference_try_point, reference_sum.
  rewrite (try_point_loop_reference s R C)
    by (intros i Hi; now apply in_zrange in Hi).
  pose proof (reference_costs_nonneg s R C (zrange 0 (n_neighbors s))) as Hnn.
  destruct (zrange 0 (n_neighbors s)) as [|i idx] eqn:E.
  - simpl. assert (Hn : n_neighbors s <= 0).
    { destruct (Z_lt_le_dec 0 (n_neighbors s)) as [Hlt|]; [|assumption].
      apply (f_equal (@length Z)) in E. rewrite length_zrange in E. simpl in E. lia. }
    destruct (Z.ltb_spec 0 (best s)); [reflexivity|lia].
  - cbv zeta. cbn [bind]. rewrite Z.add_0_l.
    set (total := fold_right Z.add 0 (map (reference_neighbor_cost s C) (i :: idx))).
    destruct (Z.geb_spec total (best s)), (Z.ltb_spec total (best s));
      try lia; reflexivity.
Qed.

(** ** Array updates *)

Lemma length_replace_nth {A : Type} (a : A) (l : list A) :
  forall n, length (replace_nth n a l) = length l.
Proof.
  induction l as [|h t IH]; intros [|n]; simpl; auto.
Qed.

Lemma nth_error_replace_nth_same {A : Type} (a : A) (l : list A) :
  forall n, (n < length l)%nat -> nth_error (replace_nth n a l) n = Some a.
Proof.
  induction l as [|h t IH]; intros [|n] Hn; simpl in *; try lia; auto.
  apply IH. lia.
Qed.

Lemma nth_error_replace_nth_other {A : Type} (a : A) (l : list A) :
  forall n k, k <> n -> nth_error (replace_nth n a l) k = nth_error l k.
Proof.
  induction l as [|h t IH]; intros [|n] [|k] Hk; simpl; auto; try congruence.
Qed.

Lemma replace_nth_same {A : Type} (a : A) (l : list A) :
  forall n, nth_error l n = Some a -> replace_nth n a l = l.
Proof.
  induction l as [|h t IH]; intros [|n] Hn; simpl in *; try congruence.
  f_equal. now apply IH.
Qed.

Lemma write_Done {A : Type} (l l' : list A) (i : Z) (a : A) :
  write l i a = Done l' <->
  0 <= i < Z.of_nat (length l) /\ l' = replace_nth (Z.to_nat i) a l.
Proof.
  unfold write, in_range.
  destruct (Z.leb_spec 0 i), (Z.ltb_spec i (Z.of_nat (length l))); simpl;
    try (split; [discriminate|lia]).
  split; [intros [= <-]; split; [lia|reflexivity]|intros [_ ->]; reflexivity].
Qed.

Lemma write_in_range {A : Type} (l : list A) (i : Z) (a : A) :
  0 <= i < Z.of_nat (length l) -> write l i a = Done (replace_nth (Z.to_nat i) a l).
Proof. intros Hi. now apply write_Done. Qed.

Lemma write_Fault {A : Type} (l : list A) (i : Z) (a : A) :
  ~ 0 <= i < Z.of_nat (length l) -> write l i a = Fault.
Proof.
  intros Hi. unfold write, in_range.
  destruct (Z.leb_spec 0 i), (Z.ltb_spec i (Z.of_nat (length l))); simpl;
    try reflexivity. lia.
Qed.

Lemma modify_Done {A : Type} (l l' : list A) (i : Z) (f : A -> A) :
  modify l i f = Done l' <->
  exists a, 0 <= i < Z.of_nat (length l) /\
            nth_error l (Z.to_nat i) = Some a /\
            l' = replace_nth (Z.to_nat i) (f a) l.
Proof.
  unfold modify. split.
  - destruct (read l i) as [a| |] eqn:E; cbn [bind]; try discriminate.
    intros Hw. apply read_Done in E as [Hi Ha]. apply write_Done in Hw as [_ ->].
    exists a. auto.
  - intros (a & Hi & Ha & ->).
    rewrite (proj2 (read_Done l i a)) by auto. cbn [bind].
    now apply write_in_range.
Qed.

Lemma for_each_invariant {A S : Type} (P : S -> Prop) (f : S -> A -> result S)
    (l : list A) :
  (forall s a s', In a l -> P s -> f s a = Done s' -> P s') ->
  forall s s', P s -> for_each f l s = Done s' -> P s'.
Proof.
  induction l as [|a l IH]; intros Hstep s s' HP Hrun; simpl in Hrun.
  - now inv_done.
  - inv_done. apply (IH (fun s a s' Hin => Hstep s a s' (or_intror Hin)) a0 s').
    + eapply Hstep; eauto. now left.
    + assumption.
Qed.

Lemma for_each_app {A S : Type} (f : S -> A -> result S) (l1 l2 : list A) (s : S) :
  for_each f (l1 ++ l2) s = (s' <- for_each f l1 s ;; for_each f l2 s').
Proof.
  revert s. induction l1 as [|a l1 IH]; intros s; simpl; [reflexivity|].
  destruct (f s a); simpl; auto.
Qed.

(** ** What the parts of a visit leave alone *)

Lemma outside_corpus_false (s : Resynth_state) (p : Coord) :
  outside_corpus s p = false <-> inside (corpus s) p.
Proof.
  unfold outside_corpus, inside. rewrite !orb_false_iff, !Z.ltb_ge, !Z.geb_leb, !Z.leb_gt.
  lia.
Qed.

Lemma try_point_cases (s s' : Resynth_state) (point : Coord) :
  try_point s point = Done s' ->
  s' = s \/ exists sum, s' = set_best_point point (set_best sum s).
Proof.
  unfold try_point. intros H. inv_done. destruct a as [sum|]; inv_done.
  - right. now exists sum.
  - now left.
Qed.

Lemma try_point_kept (s s' : Resynth_state) (point : Coord) :
  try_point s point = Done s' ->
  search_kept s' = search_kept s /\ tried_array s' = tried_array s /\
  rand_calls s' = rand_calls s /\
  (best_point s' = best_point s \/ best_point s' = point).
Proof.
  intros H. apply try_point_cases in H as [->|(sum & ->)]; repeat split; auto.
Qed.

Lemma read_In {A : Type} (l : list A) (i : Z) (a : A) :
  read l i = Done a -> In a l.
Proof. intros H. apply read_Done in H as [_ H]. eapply nth_error_In; eauto. Qed.

Section VisitFrames.

Variable rand : nat -> nat.

Lemma phase1_loop_kept (i : Z) (js : list Z) :
  forall s s', phase1_loop i js s = Done s' ->
    search_kept s' = search_kept s /\ rand_calls s' = rand_calls s /\
    (inside (corpus s) (best_point s) -> inside (corpus s) (best_point s')).
Proof.
  induction js as [|j js IH]; intros s s' H; cbn [phase1_loop] in H.
  - inv_done. auto.
  - destruct (best s =? 0); [inv_done; auto|].
    inv_done. destruct a as [a|]; [|discriminate]. inv_done.
    destruct (has_source a0); [|now apply IH].
    inv_done.
    destruct (outside_corpus s (coord_sub (source a0) a1)) eqn:Hout; [now apply IH|].
    inv_done. destruct (a2 =? i); [now apply IH|].
    inv_done. apply IH in H as (K & Rc & B).
    apply try_point_kept in E3 as (K3 & T3 & R3 & B3).
    apply write_Done in E4 as [_ ->].
    unfold search_kept in *. cbn in K, B, Rc.
    rewrite length_replace_nth in K. rewrite T3 in K.
    split; [congruence|]. split; [congruence|].
    intros Hin. assert (Hc : corpus a3 = corpus s) by congruence.
    rewrite Hc in B. apply B.
    destruct B3 as [->| ->]; [assumption|].
    now apply outside_corpus_false.
Qed.

Lemma phase2_loop_kept (n : nat) :
  forall s s', phase2_loop rand n s = Done s' ->
    search_kept s' = search_kept s /\ tried_array s' = tried_array s /\
    (Forall (inside (corpus s)) (corpus_points s) ->
     inside (corpus s) (best_point s) -> inside (corpus s) (best_point s')).
Proof.
  induction n as [|n IH]; intros s s' H; cbn [phase2_loop] in H.
  - inv_done. auto.
  - destruct (best s =? 0); [inv_done; auto|].
    unfold call_rand in H. inv_done.
    apply IH in H as (K & T & B).
    apply try_point_kept in E0 as (K0 & T0 & _ & B0).
    apply read_In in E. cbn in E, K0, T0, B0.
    unfold search_kept in *. cbn in K0.
    split; [congruence|]. split; [congruence|].
    intros Hall Hin.
    assert (Hc : corpus a0 = corpus s) by congruence.
    assert (Hp : corpus_points a0 = corpus_points s) by congruence.
    rewrite Hc, Hp in B. apply B; [assumption|].
    destruct B0 as [->| ->]; [assumption|].
    rewrite Forall_forall in Hall. now apply Hall.
Qed.

Lemma copy_value_step_kept (point : Coord) (s s' : Resynth_state) (k : Z) :
  copy_value_step point s k = Done s' ->
  gather_kept s' = gather_kept s /\ s_neighbors s' = s_neighbors s /\
  neighbor_statuses s' = neighbor_statuses s /\ n_neighbors s' = n_neighbors s /\
  length (neighbor_values s') = length (neighbor_values s).
Proof.
  unfold copy_value_step. intros H. inv_done.
  apply write_Done in E2 as [_ ->]. cbn. rewrite length_replace_nth. auto.
Qed.

Lemma gather_loop_kept (fuel : nat) (parameters : Parameters) (position : Coord)
    (offsets : list Coord) :
  forall s s', gather_loop fuel parameters position offsets s = Done s' ->
    gather_kept s' = gather_kept s.
Proof.
  induction offsets as [|offset rest IH]; intros s s' H; cbn [gather_loop] in H.
  - now inv_done.
  - inv_done. destruct a as [ok point]. destruct ok; [|now apply IH].
    inv_done. destruct (has_value a); [|now apply IH].
    inv_done.
    assert (K : gather_kept a2 = gather_kept s).
    { revert E3. apply for_each_invariant with (P := fun t => gather_kept t = gather_kept s).
      - intros t k t' _ Ht Hstep. apply copy_value_step_kept in Hstep as (-> & _).
        exact Ht.
      - reflexivity. }
    match type of H with (if ?b then _ else _) = _ => destruct b end.
    + inv_done. exact K.
    + apply IH in H. rewrite H. exact K.
Qed.

End VisitFrames.

Lemma replace_nth_twice {A : Type} (a b : A) (l : list A) :
  forall n, replace_nth n a (replace_nth n b l) = replace_nth n a l.
Proof.
  induction l as [|h t IH]; intros [|n]; simpl; auto. f_equal. apply IH.
Qed.

Lemma commit_step_kept (position : Coord) (s s' : Resynth_state) (j : Z) :
  commit_step position s j = Done s' -> commit_kept s' = commit_kept s.
Proof.
  unfold commit_step. intros H. inv_done.
  apply write_Done in E0 as [_ ->]. unfold commit_kept. cbn.
  now rewrite length_replace_nth.
Qed.

Lemma commit_status (position : Coord) (s s' : Resynth_state) :
  commit position s = Done s' ->
  exists st,
    0 <= image_atc (status s) position < Z.of_nat (length (status_array s)) /\
    nth_error (status_array s) (Z.to_nat (image_atc (status s) position)) = Some st /\
    status_array s' =
      replace_nth (Z.to_nat (image_atc (status s) position))
                  (mkStatus (has_value st) true (best_point s)) (status_array s) /\
    visit_kept s' = visit_kept s /\ best_point s' = best_point s /\
    best s' = best s /\ tried_array s' = tried_array s /\
    rand_calls s' = rand_calls s.
Proof.
  unfold commit. intros H. inv_done.
  assert (K : commit_kept a = commit_kept s).
  { revert E. apply for_each_invariant with (P := fun t => commit_kept t = commit_kept s).
    - intros t j t' _ Ht Hstep. apply commit_step_kept in Hstep. congruence.
    - reflexivity. }
  apply modify_Done in E0 as (st & Hi & Hst & ->).
  apply modify_Done in E1 as (st1 & Hi1 & Hst1 & ->).
  rewrite nth_error_replace_nth_same in Hst1 by lia.
  injection Hst1 as <-. cbn [has_value has_source].
  rewrite replace_nth_twice.
  unfold commit_kept in K. unfold visit_kept. cbn.
  rewrite length_replace_nth.
  assert (Hs : status a = status s) by congruence.
  assert (Ha : status_array a = status_array s) by congruence.
  assert (Hb : best_point a = best_point s) by congruence.
  rewrite Hs, Ha, Hb in *.
  exists st. repeat split; auto; try lia; congruence.
Qed.

Section Visit.

Variable rand : nat -> nat.

(** What a completed visit of [data_points[i]] has done to the status
    map: the cell of the position is resolved, with the final [best_point]
    as its source, and no other cell has changed. *)
Lemma visit_status (fuel : nat) (parameters : Parameters) (s s' : Resynth_state)
    (i : Z) :
  visit rand fuel parameters s i = Done s' ->
  exists position st,
    read (data_points s) i = Done position /\
    0 <= image_atc (status s) position < Z.of_nat (length (status_array s)) /\
    nth_error (status_array s) (Z.to_nat (image_atc (status s) position)) = Some st /\
    status_array s' =
      replace_nth (Z.to_nat (image_atc (status s) position))
                  (mkStatus true true (best_point s')) (status_array s) /\
    visit_kept s' = visit_kept s /\
    (Forall (inside (corpus s)) (corpus_points s) ->
     inside (corpus s) (best_point s) -> inside (corpus s) (best_point s')).
Proof.
  unfold visit. intros H.
  destruct (gather fuel parameters s i) as [[position sg]| |] eqn:G;
    cbn [bind] in H; try discriminate.
  destruct (search rand parameters i sg) as [s2| |] eqn:S;
    cbn [bind] in H; try discriminate.
  unfold gather in G. inv_done.
  apply modify_Done in E0 as (st & Hi & Hst & ->).
  apply gather_loop_kept in E1. unfold gather_kept in E1. cbn in E1.
  unfold search in S. cbv zeta in S. inv_done. rename a into s1.
  apply phase1_loop_kept in E0 as (K1 & _ & B1).
  apply phase2_loop_kept in S as (K2 & _ & B2).
  apply commit_status in H as (st' & Hi' & Hst' & Harr & K3 & B3 & _).
  unfold search_kept in K1, K2. cbn in K1, B1.
  assert (Hsa : status_array s2 =
                replace_nth (Z.to_nat (image_atc (status s) position))
                  (mkStatus true (has_source st) (source st)) (status_array s))
    by congruence.
  assert (Hst2 : status s2 = status s) by congruence.
  assert (Hlen : length (status_array s2) = length (status_array s))
    by (rewrite Hsa; apply length_replace_nth).
  assert (Hlt : length (tried_array s2) = length (tried_array s)) by congruence.
  assert (Hda : data_array s2 = data_array s) by congruence.
  assert (Htr : tried s2 = tried s) by congruence.
  assert (Hdt : diff_table s2 = diff_table s) by congruence.
  assert (Hse : stderr s2 = stderr s) by congruence.
  assert (Hso : sorted_offsets s2 = sorted_offsets s) by congruence.
  assert (Hcp : corpus_points s2 = corpus_points s) by congruence.
  assert (Hdp : data_points s2 = data_points s) by congruence.
  assert (Hca : corpus_array s2 = corpus_array s) by congruence.
  assert (Hco : corpus s2 = corpus s) by congruence.
  assert (Hd : data s2 = data s) by congruence.
  assert (Hib : input_bytes s2 = input_bytes s) by congruence.
  assert (Hc1 : corpus s1 = corpus s) by congruence.
  assert (Hp1 : corpus_points s1 = corpus_points s) by congruence.
  assert (Hcg : corpus sg = corpus s) by congruence.
  assert (Hbg : best_point sg = best_point s) by congruence.
  clear E1 K1 K2.
  rewrite Hst2 in Hst', Harr. rewrite Hsa in Hst', Harr.
  rewrite nth_error_replace_nth_same in Hst' by lia.
  injection Hst' as <-. cbn [has_value] in Harr.
  rewrite replace_nth_twice in Harr.
  exists position, st. split; [reflexivity|]. split; [assumption|].
  split; [assumption|]. split; [congruence|]. split.
  - unfold visit_kept in *. rewrite K3. congruence.
  - intros Hall Hin. rewrite B3.
    rewrite Hc1, Hp1 in B2. rewrite Hcg, Hbg in B1. auto.
Qed.

End Visit.

(** ** The first part of [run] *)

Lemma set_status_array_same (s : Resynth_state) :
  set_status_array (status_array s) s = s.
Proof. now destruct s. Qed.

Lemma grid_index (w h : Z) (c : Coord) :
  inside (mkImage w h 1) c ->
  0 <= image_atc (mkImage w h 1) c < w * h * 1.
Proof. unfold inside, image_atc, image_at. simpl. nia. Qed.

Lemma init_status_loop (w h : Z) (cs : list Coord) :
  Forall (inside (mkImage w h 1)) cs ->
  forall s,
    status s = mkImage w h 1 ->
    status_array s = MEMORY Status_zero (w * h * 1) ->
    for_each init_status_step cs s = Done (set_data_points (data_points s ++ cs) s).
Proof.
  induction 1 as [|c cs Hc Hcs IH]; intros s Hst Harr; cbn [for_each].
  - rewrite app_nil_r. now destruct s.
  - assert (Hstep : init_status_step s c = Done (push_data_point c s)).
    { unfold init_status_step. fold (image_atc (status s) c). rewrite Hst.
      pose proof (grid_index w h c Hc) as Hi.
      assert (Hlen : Z.of_nat (length (status_array s)) = w * h * 1).
      { rewrite Harr. unfold MEMORY. rewrite repeat_length. lia. }
      assert (Hnth : nth_error (status_array s)
                       (Z.to_nat (image_atc (mkImage w h 1) c)) = Some Status_zero).
      { rewrite Harr. unfold MEMORY. apply nth_error_repeat. lia. }
      assert (Hmod : forall f, f Status_zero = Status_zero ->
                modify (status_array s) (image_atc (mkImage w h 1) c) f =
                Done (status_array s)).
      { intros f Hf. apply modify_Done. exists Status_zero.
        split; [lia|]. split; [assumption|].
        rewrite Hf. symmetry. now apply replace_nth_same. }
      rewrite Hmod by reflexivity. cbn [bind].
      rewrite Hmod by reflexivity. cbn [bind].
      now rewrite set_status_array_same. }
    rewrite Hstep. cbn [bind]. rewrite IH by assumption.
    unfold push_data_point. cbn. now rewrite <- app_assoc.
Qed.

Lemma push_corpus_points (cs : list Coord) :
  forall s,
    fold_left (fun s c => push_corpus_point c s) cs s =
    set_corpus_points (corpus_points s ++ cs) s.
Proof.
  induction cs as [|c cs IH]; intros s; cbn [fold_left].
  - rewrite app_nil_r. now destruct s.
  - rewrite IH. unfold push_corpus_point. cbn. now rewrite <- app_assoc.
Qed.

Lemma run_setup_Done (s : Resynth_state) (parameters : Parameters) :
  run_setup s parameters = Done (setup_state s parameters).
Proof.
  unfold run_setup. cbv zeta.
  rewrite (init_status_loop (width (data s)) (height (data s))).
  - cbn [bind]. rewrite push_corpus_points. reflexivity.
  - cbn. apply Forall_forall. intros c Hc. apply in_grid in Hc. exact Hc.
  - reflexivity.
  - reflexivity.
Qed.

Lemma sizes_invalid_setup (s : Resynth_state) (parameters : Parameters) :
  sizes_invalid (setup_state s parameters) = true <->
  (width (corpus s) <= 0 \/ height (corpus s) <= 0 \/
   width (data s) <= 0 \/ height (data s) <= 0).
Proof.
  unfold sizes_invalid. cbn. rewrite !length_grid, orb_true_iff, !Z.eqb_eq. nia.
Qed.

(** ** The scheduling phase *)

Lemma In_replace_nth {A : Type} (a c : A) (l : list A) :
  forall n, In c (replace_nth n a l) -> c = a \/ In c l.
Proof.
  induction l as [|h t IH]; intros [|n] Hin; simpl in *; auto.
  - destruct Hin; auto.
  - destruct Hin as [->|Hin]; auto. apply IH in Hin. tauto.
Qed.

(** Exchanging two cells keeps the elements of the array. *)
Lemma In_swap {A : Type} (l : list A) (i j : nat) (ti tj c : A) :
  nth_error l i = Some ti -> nth_error l j = Some tj ->
  (In c (replace_nth j ti (replace_nth i tj l)) <-> In c l).
Proof.
  intros Hi Hj.
  assert (Li : (i < length l)%nat) by (apply nth_error_Some; congruence).
  assert (Lj : (j < length l)%nat) by (apply nth_error_Some; congruence).
  split.
  - intros Hin. apply In_replace_nth in Hin as [->|Hin].
    + eapply nth_error_In; eauto.
    + apply In_replace_nth in Hin as [->|Hin]; auto.
      eapply nth_error_In; eauto.
  - intros Hin. apply In_nth_error in Hin as [k Hk].
    destruct (Nat.eq_dec k j) as [->|Hkj].
    + assert (c = tj) by congruence. subst c.
      destruct (Nat.eq_dec i j) as [->|Hij].
      * assert (ti = tj) by congruence. subst ti.
        apply (nth_error_In _ j). apply nth_error_replace_nth_same.
        now rewrite length_replace_nth.
      * apply (nth_error_In _ i). rewrite nth_error_replace_nth_other by assumption.
        now apply nth_error_replace_nth_same.
    + destruct (Nat.eq_dec k i) as [->|Hki].
      * assert (c = ti) by congruence. subst c.
        apply (nth_error_In _ j). apply nth_error_replace_nth_same.
        now rewrite length_replace_nth.
      * apply (nth_error_In _ k).
        now rewrite !nth_error_replace_nth_other by assumption.
Qed.

Lemma rescheduled_refl (s : Resynth_state) : rescheduled s s.
Proof. split; [reflexivity|tauto]. Qed.

Lemma rescheduled_trans (s1 s2 s3 : Resynth_state) :
  rescheduled s1 s2 -> rescheduled s2 s3 -> rescheduled s1 s3.
Proof.
  intros [K1 I1] [K2 I2]. split; [congruence|].
  intros c. rewrite I2. apply I1.
Qed.

Lemma duplicate_step_rescheduled (s s' : Resynth_state) (i : Z) :
  duplicate_step s i = Done s' -> rescheduled s s'.
Proof.
  unfold duplicate_step. intros H. inv_done. apply read_In in E.
  split; [reflexivity|]. intros c. cbn. rewrite in_app_iff. simpl.
  split; [intros [?|[<-|[]]]; auto|auto].
Qed.

Lemma for_each_rescheduled {A : Type} (f : Resynth_state -> A -> result Resynth_state)
    (l : list A) :
  (forall s a s', f s a = Done s' -> rescheduled s s') ->
  forall s s', for_each f l s = Done s' -> rescheduled s s'.
Proof.
  intros Hf s s' H. revert H.
  apply for_each_invariant with (P := fun t => rescheduled s t).
  - intros t a t' _ Ht Hstep. eapply rescheduled_trans; eauto.
  - apply rescheduled_refl.
Qed.

Lemma magic_loop_rescheduled (fuel : nat) (parameters : Parameters) :
  forall n s s', magic_loop fuel parameters n s = Done s' -> rescheduled s s'.
Proof.
  induction fuel as [|fuel IH]; intros n s s' H; cbn [magic_loop] in H.
  - destruct (n >? 0); inv_done. apply rescheduled_refl.
  - destruct (n >? 0); inv_done; [|apply rescheduled_refl].
    apply (for_each_rescheduled _ _ (fun t a t' => duplicate_step_rescheduled t t' a)) in E.
    apply IH in H. eapply rescheduled_trans; eauto.
Qed.

Section Schedule.

Variable rand : nat -> nat.

Lemma shuffle_step_rescheduled (data_area : Z) (s s' : Resynth_state) (i : Z) :
  shuffle_step rand data_area s i = Done s' -> rescheduled s s'.
Proof.
  unfold shuffle_step, call_rand. intros H. inv_done. cbn in E, E0, E1.
  apply read_Done in E as [_ Hi]. apply read_Done in E0 as [_ Hj].
  apply write_Done in E1 as [_ ->]. apply write_Done in E2 as [_ ->].
  split; [reflexivity|]. intros c. cbn. now apply In_swap.
Qed.

Lemma polish_pass_rescheduled (fuel : nat) (parameters : Parameters) (data_area : Z)
    (s s' : Resynth_state) :
  polish_pass rand fuel parameters data_area s = Done s' -> rescheduled s s'.
Proof.
  unfold polish_pass. intros H. inv_done.
  apply (for_each_rescheduled _ _
           (fun t a t' => shuffle_step_rescheduled data_area t t' a)) in E.
  destruct (negb (magic parameters =? 0)).
  - apply magic_loop_rescheduled in H. eapply rescheduled_trans; eauto.
  - now inv_done.
Qed.

Lemma polish_loop_rescheduled (fuel inner : nat) (parameters : Parameters)
    (data_area : Z) :
  forall p passes s n s',
    polish_loop rand fuel inner parameters data_area p passes s = Done (n, s') ->
    rescheduled s s'.
Proof.
  induction fuel as [|fuel IH]; intros p passes s n s' H; cbn [polish_loop] in H.
  - destruct (polish_guard parameters p); inv_done. apply rescheduled_refl.
  - destruct (polish_guard parameters p); inv_done; [|apply rescheduled_refl].
    apply polish_pass_rescheduled in E. apply IH in H.
    eapply rescheduled_trans; eauto.
Qed.

(** The guard of the polish loop holds at every value of the counter up
    to the point where the sum [polish + p] leaves the range of [int]. *)
Lemma polish_guard_true (parameters : Parameters) (p : Z) :
  1 <= polish parameters ->
  0 <= p -> polish parameters + p <= INT_MAX ->
  polish_guard parameters p = true.
Proof.
  intros Hpol Hp Hmax. unfold polish_guard, int_add, int_wrap, INT_MAX in *.
  apply Z.ltb_lt. rewrite Z.mod_small by lia. lia.
Qed.

Lemma polish_guard_zero (parameters : Parameters) :
  polish parameters = 0 -> polish_guard parameters 0 = false.
Proof. intros H. unfold polish_guard. now rewrite H. Qed.

Lemma polish_loop_zero (fuel inner : nat) (parameters : Parameters) (data_area : Z)
    (s : Resynth_state) :
  polish parameters = 0 ->
  polish_loop rand fuel inner parameters data_area 0 0 s = Done (O, s).
Proof.
  intros H. destruct fuel; cbn [polish_loop]; now rewrite polish_guard_zero.
Qed.

(** The polish loop cannot leave within [fuel] turns when the counter
    stays below the point where [polish + p] overflows. *)
Lemma polish_loop_not_done (inner : nat) (parameters : Parameters) (data_area : Z) :
  1 <= polish parameters ->
  forall fuel p passes s,
    0 <= p -> polish parameters + p + Z.of_nat fuel <= INT_MAX ->
    forall r,
      polish_loop rand fuel inner parameters data_area p passes s <> Done r.
Proof.
  intros Hpol. induction fuel as [|fuel IH]; intros p passes s Hp Hmax r;
    cbn [polish_loop]; rewrite polish_guard_true by lia.
  - discriminate.
  - destruct (polish_pass rand inner parameters data_area s) as [s1| |];
      cbn [bind]; try discriminate.
    apply IH; lia.
Qed.

End Schedule.

(** ** The main loop *)

Section MainLoop.

Variable rand : nat -> nat.
Variable fuel : nat.
Variable parameters : Parameters.

Lemma visit_loop_resolves (l : list Z) :
  forall s s',
    for_each (visit rand fuel parameters) l s = Done s' ->
    Forall (inside (corpus s)) (corpus_points s) ->
    inside (corpus s) (best_point s) ->
    visit_kept s' = visit_kept s /\
    inside (corpus s) (best_point s') /\
    (forall k st, nth_error (status_array s) k = Some st -> resolved (corpus s) st ->
       exists st', nth_error (status_array s') k = Some st' /\ resolved (corpus s) st') /\
    (forall i, In i l ->
       exists position st',
         read (data_points s) i = Done position /\
         nth_error (status_array s') (Z.to_nat (image_atc (status s) position)) = Some st' /\
         resolved (corpus s) st').
Proof.
  induction l as [|i l IH]; intros s s' H Hall Hin; cbn [for_each] in H.
  - inv_done. split; [reflexivity|]. split; [assumption|]. split.
    + intros k st Hk Hr. now exists st.
    + intros i [].
  - inv_done. rename a into s1.
    apply visit_status in E as (position & st & Hpos & Hidx & Hst & Harr & K & B).
    specialize (B Hall Hin).
    assert (Hc : corpus s1 = corpus s) by (unfold visit_kept in K; congruence).
    assert (Hp : corpus_points s1 = corpus_points s) by (unfold visit_kept in K; congruence).
    assert (Hd : data_points s1 = data_points s) by (unfold visit_kept in K; congruence).
    assert (Hs : status s1 = status s) by (unfold visit_kept in K; congruence).
    specialize (IH s1 s' H). rewrite Hc, Hp, Hd, Hs in IH.
    destruct (IH Hall B) as (K' & B' & Keep & Seen).
    assert (Keep1 : forall k st0, nth_error (status_array s) k = Some st0 ->
              resolved (corpus s) st0 ->
              exists st1, nth_error (status_array s1) k = Some st1 /\
                          resolved (corpus s) st1).
    { intros k st0 Hk Hr. rewrite Harr.
      destruct (Nat.eq_dec k (Z.to_nat (image_atc (status s) position))) as [->|Hne].
      - eexists. split; [apply nth_error_replace_nth_same; lia|].
        repeat split; apply B.
      - exists st0. split; [|assumption].
        now rewrite nth_error_replace_nth_other. }
    split; [congruence|]. split; [assumption|]. split.
    + intros k st0 Hk Hr. destruct (Keep1 k st0 Hk Hr) as (st1 & Hk1 & Hr1).
      now apply (Keep k st1).
    + intros j [<-|Hj].
      * exists position.
        assert (Hcell : nth_error (status_array s1)
                          (Z.to_nat (image_atc (status s) position)) =
                        Some (mkStatus true true (best_point s1))).
        { rewrite Harr. apply nth_error_replace_nth_same. lia. }
        destruct (Keep _ _ Hcell) as (st' & Hst' & Hr').
        { repeat split; apply B. }
        exists st'. auto.
      * now apply Seen.
Qed.

End MainLoop.

(** ** The whole run *)

Section Run.

Variable qsort : (Coord -> Coord -> Z) -> list Coord -> list Coord.
Variable rand : nat -> nat.

Lemma run_counting_invalid (fuel : nat) (s : Resynth_state) (parameters : Parameters) :
  sizes_invalid (setup_state s parameters) = true ->
  run_counting qsort rand fuel s parameters =
  Done (O, report_invalid_sizes (setup_state s parameters)).
Proof.
  intros H. unfold run_counting. rewrite run_setup_Done. cbn [bind]. now rewrite H.
Qed.

Lemma run_counting_valid (fuel : nat) (s : Resynth_state) (parameters : Parameters) :
  sizes_invalid (setup_state s parameters) = false ->
  run_counting qsort rand fuel s parameters =
  (r <- polish_loop rand fuel fuel parameters
          (Z.of_nat (length (grid (width (data s)) (height (data s))))) 0 O
          (scheduled_state qsort s parameters) ;;
   s' <- for_each (visit rand fuel parameters)
           (rev (zrange 0 (Z.of_nat (length (data_points (snd r))))))
           (tried_state (snd r)) ;;
   Done (fst r, s')).
Proof.
  intros H. unfold run_counting. rewrite run_setup_Done. cbn [bind]. rewrite H.
  unfold run_synthesis. cbv zeta. fold (scheduled_state qsort s parameters).
  change (data_points (scheduled_state qsort s parameters))
    with (grid (width (data s)) (height (data s))).
  destruct (polish_loop _ _ _ _ _ _ _ _) as [[n s3]| |]; cbn [bind]; reflexivity.
Qed.

Lemma run_counting_Done (fuel : nat) (s s' : Resynth_state) (parameters : Parameters)
    (n : nat) :
  sizes_invalid (setup_state s parameters) = false ->
  run_counting qsort rand fuel s parameters = Done (n, s') ->
  exists s3,
    polish_loop rand fuel fuel parameters
      (Z.of_nat (length (grid (width (data s)) (height (data s))))) 0 O
      (scheduled_state qsort s parameters) = Done (n, s3) /\
    for_each (visit rand fuel parameters)
      (rev (zrange 0 (Z.of_nat (length (data_points s3))))) (tried_state s3) = Done s'.
Proof.
  intros Hv H. rewrite run_counting_valid in H by assumption.
  destruct (polish_loop rand fuel fuel parameters
              (Z.of_nat (length (grid (width (data s)) (height (data s))))) 0 O
              (scheduled_state qsort s parameters)) as [[n3 s3]| |];
    [|discriminate H|discriminate H].
  unfold bind at 1 in H. unfold snd, fst in H.
  destruct (for_each (visit rand fuel parameters)
              (rev (zrange 0 (Z.of_nat (length (data_points s3))))) (tried_state s3))
    as [s4| |] eqn:E1; [|discriminate H|discriminate H].
  unfold bind in H. injection H as -> ->. exists s3. split; [reflexivity|exact E1].
Qed.

Lemma run_Done (fuel : nat) (s s' : Resynth_state) (parameters : Parameters) :
  run qsort rand fuel s parameters = Done s' ->
  exists n, run_counting qsort rand fuel s parameters = Done (n, s').
Proof.
  unfold run.
  destruct (run_counting qsort rand fuel s parameters) as [[n r]| |];
    intros Hrun; [|discriminate Hrun|discriminate Hrun].
  injection Hrun as ->. now exists n.
Qed.

Lemma sizes_valid (s : Resynth_state) (parameters : Parameters) :
  0 < width (corpus s) -> 0 < height (corpus s) ->
  0 < width (data s) -> 0 < height (data s) ->
  sizes_invalid (setup_state s parameters) = false.
Proof.
  intros. destruct (sizes_invalid (setup_state s parameters)) eqn:E; [|reflexivity].
  apply sizes_invalid_setup in E. lia.
Qed.

Lemma polish_loop_scheduled (fuel : nat) (s s3 : Resynth_state) (n3 : nat)
    (parameters : Parameters) :
  polish_loop rand fuel fuel parameters
    (Z.of_nat (length (grid (width (data s)) (height (data s)))))
    0 0 (scheduled_state qsort s parameters) = Done (n3, s3) ->
  corpus s3 = corpus s /\
  status s3 = mkImage (width (data s)) (height (data s)) 1 /\
  corpus_points s3 = grid (width (corpus s)) (height (corpus s)) /\
  best_point s3 = best_point s /\
  (forall c, In c (data_points s3) <->
             In c (grid (width (data s)) (height (data s)))).
Proof.
  intros E0.
  apply polish_loop_rescheduled in E0 as [K Same].
  unfold schedule_kept in K.
  assert (Hc : corpus s3 = corpus (scheduled_state qsort s parameters)) by congruence.
  assert (Hst : status s3 = status (scheduled_state qsort s parameters)) by congruence.
  assert (Hcp : corpus_points s3 = corpus_points (scheduled_state qsort s parameters))
    by congruence.
  assert (Hbp : best_point s3 = best_point (scheduled_state qsort s parameters))
    by congruence.
  clear K. auto.
Qed.

Lemma main_loop_resolves (fuel : nat) (parameters : Parameters)
    (s3 s' : Resynth_state) (w h : Z) :
  for_each (visit rand fuel parameters)
    (rev (zrange 0 (Z.of_nat (length (data_points s3))))) (tried_state s3) = Done s' ->
  status s3 = mkImage w h 1 -> 0 < w -> 0 < h ->
  Forall (inside (corpus s3)) (corpus_points s3) ->
  inside (corpus s3) (best_point s3) ->
  forall x y, 0 <= x < w -> 0 <= y < h -> In (mkCoord x y) (data_points s3) ->
    exists st,
      read (status_array s') (image_at (status s') x y) = Done st /\
      resolved (corpus s3) st.
Proof.
  intros E1 Hst Hw Hh Hall Hbp x y Hx Hy Hin.
  apply visit_loop_resolves in E1 as (K' & _ & _ & Seen); [|exact Hall|exact Hbp].
  apply In_nth_error in Hin as [k Hk].
  assert (Hklt : (k < length (data_points s3))%nat)
    by (apply nth_error_Some; congruence).
  destruct (Seen (Z.of_nat k)) as (position & st' & Hpos & Hcell & Hr).
  { rewrite <- in_rev. apply in_zrange. lia. }
  apply read_Done in Hpos as [_ Hpos]. rewrite Nat2Z.id in Hpos.
  assert (Hp : Some position = Some (mkCoord x y)) by (rewrite <- Hpos; exact Hk).
  injection Hp as ->.
  assert (Hs' : status s' = status (tried_state s3))
    by (unfold visit_kept in K'; congruence).
  exists st'. split; [|exact Hr].
  rewrite Hs'. apply read_Done. split; [|exact Hcell].
  assert (Hlt : (Z.to_nat (image_atc (status (tried_state s3)) (mkCoord x y))
                 < length (status_array s'))%nat)
    by (apply nth_error_Some; congruence).
  assert (H0 : 0 <= image_atc (status (tried_state s3)) (mkCoord x y)).
  { unfold tried_state, image_atc, image_at. cbn [status set_tried_array set_tried].
    rewrite Hst. cbn [cx cy width depth]. nia. }
  unfold image_atc in H0, Hlt. cbn [cx cy] in H0, Hlt. lia.
Qed.

(** What a finished run has done to the status map. *)
Lemma run_Done_resolved (fuel : nat) (s s' : Resynth_state)
    (parameters : Parameters) :
  0 < width (corpus s) -> 0 < height (corpus s) ->
  0 < width (data s) -> 0 < height (data s) ->
  0 <= cx (best_point s) < width (corpus s) ->
  0 <= cy (best_point s) < height (corpus s) ->
  run qsort rand fuel s parameters = Done s' ->
  forall x y, 0 <= x < width (data s) -> 0 <= y < height (data s) ->
    exists st,
      read (status_array s') (image_at (status s') x y) = Done st /\
      has_value st = true /\ has_source st = true /\
      0 <= cx (source st) < width (corpus s) /\
      0 <= cy (source st) < height (corpus s).
Proof.
  intros Hcw Hch Hdw Hdh Hbx Hby Hrun x y Hx Hy.
  apply run_Done in Hrun as [n E].
  apply run_counting_Done in E as (s3 & E0 & E1); [|now apply sizes_valid].
  apply polish_loop_scheduled in E0 as (Hc & Hst & Hcp & Hbp & Same).
  assert (G1 : Forall (inside (corpus s3)) (corpus_points s3)).
  { rewrite Hc, Hcp. apply Forall_forall. intros c Hin.
    apply in_grid in Hin. exact Hin. }
  assert (G2 : inside (corpus s3) (best_point s3)).
  { rewrite Hc, Hbp. split; assumption. }
  assert (G3 : In (mkCoord x y) (data_points s3)).
  { apply Same. apply in_grid. cbn [cx cy]. lia. }
  destruct (main_loop_resolves fuel parameters s3 s' _ _ E1 Hst Hdw Hdh G1 G2
              x y Hx Hy G3) as (st & Hread & Hr).
  exists st. split; [exact Hread|]. unfold resolved in Hr. rewrite Hc in Hr. tauto.
Qed.

(** X24.  Whatever the parameters, for a corpus and an output that are
    not empty, and a state whose [best_point] lies inside the corpus on
    entry (as it does in the zeroed state of the first run of [main]):
    when the run finishes, the status of every output pixel has
    [has_value] and [has_source] set and a source inside the corpus. *)
Theorem run_resolves_every_pixel (fuel : nat) (s s' : Resynth_state)
    (parameters : Parameters) :
  0 < width (corpus s) -> 0 < height (corpus s) ->
  0 < width (data s) -> 0 < height (data s) ->
  0 <= cx (best_point s) < width (corpus s) ->
  0 <= cy (best_point s) < height (corpus s) ->
  run qsort rand fuel s parameters = Done s' ->
  forall x y, 0 <= x < width (data s) -> 0 <= y < height (data s) ->
    exists st,
      read (status_array s') (image_at (status s') x y) = Done st /\
      has_value st = true /\ has_source st = true /\
      0 <= cx (source st) < width (corpus s) /\
      0 <= cy (source st) < height (corpus s).
Proof. exact (run_Done_resolved fuel s s' parameters). Qed.

End Run.

(** ** Runs that stop early, never stop, or go wrong *)

Lemma wrap_below_inside (fuel : nat) (tile : bool) (dim v : Z) :
  0 <= v -> wrap_below fuel tile dim v = Done (true, v).
Proof.
  intros Hv. destruct fuel; simpl; destruct (Z.ltb_spec v 0); try lia; reflexivity.
Qed.

Lemma wrap_above_inside (fuel : nat) (tile : bool) (dim v : Z) :
  v < dim -> wrap_above fuel tile dim v = Done (true, v).
Proof.
  intros Hv. destruct fuel; simpl; destruct (Z.geb_spec v dim); try lia; reflexivity.
Qed.

Lemma wrap_or_clip_inside (fuel : nat) (parameters : Parameters) (image : Image)
    (point : Coord) :
  inside image point -> wrap_or_clip fuel parameters image point = Done (true, point).
Proof.
  intros [Hx Hy]. unfold wrap_or_clip.
  rewrite wrap_below_inside by lia. cbn [bind negb].
  rewrite wrap_above_inside by lia. cbn [bind negb].
  rewrite wrap_below_inside by lia. cbn [bind negb].
  rewrite wrap_above_inside by lia. cbn [bind negb].
  now destruct point.
Qed.

Lemma coord_add_origin (c : Coord) : coord_add c (mkCoord 0 0) = c.
Proof. destruct c. unfold coord_add. simpl. now rewrite !Z.add_0_r. Qed.

Lemma rev_zrange_succ (k : nat) :
  rev (zrange 0 (Z.of_nat (S k))) = Z.of_nat k :: rev (zrange 0 (Z.of_nat k)).
Proof.
  unfold zrange. rewrite !Z.sub_0_r, !Nat2Z.id.
  assert (H : forall n lo, count_from lo (S n) = count_from lo n ++ [lo + Z.of_nat n]).
  { induction n as [|n IH]; intros lo.
    - simpl. now rewrite Z.add_0_r.
    - change (count_from lo (S (S n))) with (lo :: count_from (lo + 1) (S n)).
      rewrite IH. simpl. do 3 f_equal. lia. }
  rewrite H, rev_app_distr. reflexivity.
Qed.

(** The first entry of a table that holds the null offset and is ordered
    by distance is the null offset. *)
Lemma sorted_head_origin (l : list Coord) :
  StronglySorted (fun a b => coord_compare a b <= 0) l ->
  In (mkCoord 0 0) l ->
  exists rest, l = mkCoord 0 0 :: rest.
Proof.
  intros HS Hin. destruct HS as [|h t HS Hall]; [destruct Hin|].
  exists t. f_equal. destruct Hin as [->|Hin]; [reflexivity|].
  rewrite Forall_forall in Hall. specialize (Hall _ Hin).
  unfold coord_compare in Hall. simpl in Hall.
  destruct h as [x y]. simpl in Hall. f_equal; nia.
Qed.

Section RunClaims.

Variable qsort : (Coord -> Coord -> Z) -> list Coord -> list Coord.
Variable rand : nat -> nat.

Hypothesis qsort_permutation :
  forall cmp l, Permutation (qsort cmp l) l.
Hypothesis qsort_sorted :
  forall cmp l,
    (forall a b, cmp a b <= 0 \/ cmp b a <= 0) ->
    (forall a b c, cmp a b <= 0 -> cmp b c <= 0 -> cmp a c <= 0) ->
    StronglySorted (fun a b => cmp a b <= 0) (qsort cmp l).

(** C9, as the code has it.  When the corpus or the output has no pixel,
    [run] returns normally, whatever the fuel.  It has printed the sizes on
    [stderr]; it has written no pixel of the output or of the corpus, built
    no offset table, left the tried map alone and drawn no random number.
    By then it has reallocated and zeroed the status map of the output,
    the diff table, whose 512 cells it has not filled, and the three
    neighbor arrays, and it has listed anew the coordinates of the output
    and of the corpus. *)
Theorem run_invalid_sizes (fuel : nat) (s : Resynth_state) (parameters : Parameters) :
  width (corpus s) <= 0 \/ height (corpus s) <= 0 \/
  width (data s) <= 0 \/ height (data s) <= 0 ->
  exists s',
    run qsort rand fuel s parameters = Done s' /\
    data_array s' = data_array s /\ corpus_array s' = corpus_array s /\
    data s' = data s /\ corpus s' = corpus s /\
    sorted_offsets s' = [] /\ tried_array s' = tried_array s /\
    rand_calls s' = rand_calls s /\
    stderr s' =
      stderr s ++
      [("invalid sizes\n"%string, []);
       ("corpus: %i\n"%string,
        [Z.of_nat (length (grid (width (corpus s)) (height (corpus s))))]);
       ("data: %i\n"%string,
        [Z.of_nat (length (grid (width (data s)) (height (data s))))])] /\
    tried s' = tried s /\
    status s' = mkImage (width (data s)) (height (data s)) 1 /\
    status_array s' =
      repeat Status_zero (Z.to_nat (width (data s) * height (data s) * 1)) /\
    diff_table s' = repeat 0 512 /\
    s_neighbors s' = repeat (mkCoord 0 0) (Z.to_nat (neighbors parameters)) /\
    neighbor_values s' = repeat Pixel32_zero (Z.to_nat (neighbors parameters)) /\
    neighbor_statuses s' = repeat None (Z.to_nat (neighbors parameters)) /\
    data_points s' = grid (width (data s)) (height (data s)) /\
    corpus_points s' = grid (width (corpus s)) (height (corpus s)).
Proof.
  intros Hsizes. apply sizes_invalid_setup with (parameters := parameters) in Hsizes.
  exists (report_invalid_sizes (setup_state s parameters)).
  split; [|repeat split].
  unfold run. rewrite run_counting_invalid by assumption. reflexivity.
Qed.

(** With [polish = 0] the polish loop makes no pass. *)
Lemma run_counting_no_polish (fuel : nat) (s s' : Resynth_state)
    (parameters : Parameters) (n : nat) :
  polish parameters = 0 ->
  run_counting qsort rand fuel s parameters = Done (n, s') -> n = O.
Proof.
  intros Hpol H.
  destruct (sizes_invalid (setup_state s parameters)) eqn:Hv.
  - rewrite run_counting_invalid in H by assumption. now injection H.
  - apply run_counting_Done in H as (s3 & H & _); [|assumption].
    rewrite polish_loop_zero in H by assumption. now injection H.
Qed.


(** C1, where the code departs from it.  For [polish] from 1 to 9 and
    images that are not empty, the run does not complete within any number
    of turns of the polish loop up to [INT_MAX - 9]: the guard
    [p < polish + p] holds as long as the sum stays in the range of [int],
    so the loop does not stop after [polish] passes. *)
Theorem run_polish_overruns (fuel : nat) (s : Resynth_state) (parameters : Parameters) :
  0 < width (corpus s) -> 0 < height (corpus s) ->
  0 < width (data s) -> 0 < height (data s) ->
  1 <= polish parameters <= 9 ->
  Z.of_nat fuel <= INT_MAX - 9 ->
  (forall r, run_counting qsort rand fuel s parameters <> Done r) /\
  (forall s', run qsort rand fuel s parameters <> Done s').
Proof.
  intros Hcw Hch Hdw Hdh Hpol Hfuel.
  assert (Hc : forall r, run_counting qsort rand fuel s parameters <> Done r).
  { intros [n s'] H.
    apply run_counting_Done in H as (s3 & H & _); [|now apply sizes_valid].
    revert H. apply polish_loop_not_done; lia. }
  split; [exact Hc|].
  intros s' H. apply run_Done in H as [n H]. now apply (Hc (n, s')).
Qed.

(** The number of passes the polish loop has made when it stops, with the
    sum [polish + p] wrapping around at the end of the range of [int]. *)
Lemma polish_loop_passes (inner : nat) (parameters : Parameters) (data_area : Z) :
  1 <= polish parameters <= INT_MAX ->
  forall fuel p passes s n s',
    0 <= p <= INT_MAX - polish parameters + 1 ->
    polish_loop rand fuel inner parameters data_area p passes s = Done (n, s') ->
    Z.of_nat n = Z.of_nat passes + (INT_MAX - polish parameters + 1 - p).
Proof.
  intros Hpol. induction fuel as [|fuel IH]; intros p passes s n s' Hp H;
    cbn [polish_loop] in H.
  - destruct (Z.eq_dec p (INT_MAX - polish parameters + 1)) as [->|Hne].
    + destruct (polish_guard parameters _); [discriminate|]. injection H as <- _. lia.
    + rewrite polish_guard_true in H by lia. discriminate.
  - destruct (Z.eq_dec p (INT_MAX - polish parameters + 1)) as [->|Hne].
    + assert (G : polish_guard parameters (INT_MAX - polish parameters + 1) = false).
      { unfold polish_guard, int_add, int_wrap, INT_MAX in *. apply Z.ltb_ge.
        replace (polish parameters + (2147483647 - polish parameters + 1) + 2147483648)
          with (0 + 1 * 4294967296) by lia.
        rewrite Z.mod_add by lia. rewrite Z.mod_0_l by lia. lia. }
      rewrite G in H. injection H as <- _. lia.
    + rewrite polish_guard_true in H by lia.
      destruct (polish_pass rand inner parameters data_area s) as [s1| |];
        cbn [bind] in H; try discriminate.
      apply IH in H; lia.
Qed.

(** C3, where the code departs from it.  With [neighbors = 0] (or less),
    [polish = 0] and images that are not empty, the first visit writes the
    null offset in cell 0 of the neighbor array, which has no cell: the run
    goes wrong, whatever the corpus, the number of tries and the random
    numbers. *)
Theorem run_without_neighbors_faults (fuel : nat) (s : Resynth_state)
    (parameters : Parameters) :
  0 < width (corpus s) -> 0 < height (corpus s) ->
  0 < width (data s) -> 0 < height (data s) ->
  neighbors parameters <= 0 -> polish parameters = 0 ->
  run qsort rand fuel s parameters = Fault.
Proof.
  intros Hcw Hch Hdw Hdh Hn Hpol.
  unfold run. rewrite run_counting_valid by now apply sizes_valid.
  rewrite polish_loop_zero by assumption. cbn [bind fst snd].
  set (s2 := scheduled_state qsort s parameters).
  assert (Hlen : exists k, length (data_points s2) = S k).
  { change (data_points s2) with (grid (width (data s)) (height (data s))).
    rewrite length_grid. exists (Z.to_nat (height (data s)) * Z.to_nat (width (data s)) - 1)%nat.
    nia. }
  destruct Hlen as [k Hk]. rewrite Hk, rev_zrange_succ. cbn [for_each].
  assert (Hvisit : visit rand fuel parameters (tried_state s2) (Z.of_nat k) = Fault);
    [|now rewrite Hvisit].
  unfold visit.
  assert (Hg : gather fuel parameters (tried_state s2) (Z.of_nat k) = Fault);
    [|now rewrite Hg].
  unfold gather.
  change (data_points (tried_state s2)) with (grid (width (data s)) (height (data s))).
  change (status (tried_state s2)) with (mkImage (width (data s)) (height (data s)) 1).
  change (status_array (tried_state s2))
    with (MEMORY Status_zero (width (data s) * height (data s) * 1)).
  change (data_points s2) with (grid (width (data s)) (height (data s))) in Hk.
  destruct (nth_error (grid (width (data s)) (height (data s))) k) as [position|] eqn:Hp.
  2:{ apply nth_error_None in Hp. lia. }
  assert (Hin : inside (mkImage (width (data s)) (height (data s)) 1) position).
  { apply nth_error_In in Hp. apply in_grid in Hp. exact Hp. }
  rewrite (proj2 (read_Done _ (Z.of_nat k) position))
    by (rewrite Nat2Z.id; split; [lia|exact Hp]).
  cbn [bind].
  pose proof (grid_index _ _ _ Hin) as Hidx.
  assert (Hcell : nth_error (MEMORY Status_zero (width (data s) * height (data s) * 1))
                    (Z.to_nat (image_atc (mkImage (width (data s)) (height (data s)) 1)
                                         position)) = Some Status_zero).
  { unfold MEMORY. apply nth_error_repeat. lia. }
  assert (Hlen' : Z.of_nat (length (MEMORY Status_zero
                                      (width (data s) * height (data s) * 1))) =
                  width (data s) * height (data s) * 1).
  { unfold MEMORY. rewrite repeat_length. lia. }
  rewrite (proj2 (modify_Done _ _ _ _))
    by (exists Status_zero; split; [lia|split; [exact Hcell|reflexivity]]).
  cbn [bind]. cbv zeta.
  set (s3 := set_n_neighbors 0 (set_status_array _ (tried_state s2))).
  assert (Hoff : exists rest, sorted_offsets s3 = mkCoord 0 0 :: rest).
  { change (sorted_offsets s3)
      with (qsort coord_compare
              (offset_grid (Z.min (width (corpus s)) (width (data s)))
                           (Z.min (height (corpus s)) (height (data s))))).
    apply sorted_head_origin.
    - apply qsort_sorted; [apply coord_compare_total|apply coord_compare_trans].
    - apply (Permutation_in _ (Permutation_sym (qsort_permutation _ _))).
      apply in_offset_grid. simpl. lia. }
  destruct Hoff as [rest ->]. cbn [gather_loop].
  rewrite coord_add_origin.
  change (data s3) with (data s).
  rewrite wrap_or_clip_inside by (destruct Hin; split; assumption).
  cbn [bind].
  change (status s3) with (mkImage (width (data s)) (height (data s)) 1).
  change (status_array s3)
    with (replace_nth
            (Z.to_nat (image_atc (mkImage (width (data s)) (height (data s)) 1) position))
            (mkStatus true (has_source Status_zero) (source Status_zero))
            (MEMORY Status_zero (width (data s) * height (data s) * 1))).
  rewrite (proj2 (read_Done _ _ (mkStatus true (has_source Status_zero)
                                          (source Status_zero)))).
  2:{ rewrite length_replace_nth. split; [lia|].
      apply nth_error_replace_nth_same. lia. }
  cbn [bind has_value].
  change (s_neighbors s3) with (MEMORY (mkCoord 0 0) (neighbors parameters)).
  change (n_neighbors s3) with 0.
  rewrite write_Fault; [reflexivity|].
  unfold MEMORY. rewrite repeat_length. lia.
Qed.

End RunClaims.

(** ** A visit that scores no candidate *)

Lemma phase1_loop_no_candidate (i : Z) (js : list Z) (s : Resynth_state) :
  (forall j, In j js -> no_candidate s j) ->
  phase1_loop i js s = Done s.
Proof.
  induction js as [|j js IH]; intros Hno; cbn [phase1_loop]; [reflexivity|].
  destruct (best s =? 0); [reflexivity|].
  destruct (Hno j (or_introl eq_refl)) as (a & st & Hptr & Hst & Hcase).
  rewrite Hptr. cbn [bind]. rewrite Hst. cbn [bind].
  assert (Hrest : phase1_loop i js s = Done s)
    by (apply IH; intros; apply Hno; now right).
  destruct Hcase as [Hsrc|(nb & Hnb & Hout)].
  - now rewrite Hsrc.
  - destruct (has_source st); [|assumption].
    rewrite Hnb. cbn [bind]. cbv zeta. now rewrite Hout.
Qed.

Lemma commit_steps_data (position : Coord) (js : list Z) :
  NoDup js ->
  forall s s',
    for_each (commit_step position) js s = Done s' ->
    (forall j, In j js ->
       exists v,
         read (corpus_array s) (image_atc (corpus s) (best_point s) + j) = Done v /\
         read (data_array s') (image_atc (data s) position + j) = Done v) /\
    (forall k, (forall j, In j js -> Z.of_nat k <> image_atc (data s) position + j) ->
       nth_error (data_array s') k = nth_error (data_array s) k) /\
    length (data_array s') = length (data_array s).
Proof.
  induction 1 as [|j js Hj Hnd IH]; intros s s' H; cbn [for_each] in H.
  - inv_done. split; [intros j []|]. split; reflexivity.
  - destruct (commit_step position s j) as [s1| |] eqn:Hstep; cbn [bind] in H;
      try discriminate.
    pose proof (commit_step_kept _ _ _ _ Hstep) as K. unfold commit_kept in K.
    unfold commit_step in Hstep.
    destruct (read (corpus_array s) (image_atc (corpus s) (best_point s) + j))
      as [v| |] eqn:Hv; cbn [bind] in Hstep; try discriminate.
    destruct (write (data_array s) (image_atc (data s) position + j) v)
      as [d| |] eqn:Hw; cbn [bind] in Hstep; try discriminate.
    injection Hstep as <-. apply write_Done in Hw as [Hidx ->].
    destruct (IH _ _ H) as (Hset & Hkeep & Hlen). cbn in Hset, Hkeep, Hlen.
    rewrite length_replace_nth in Hlen.
    split; [|split].
    + intros j' [<-|Hin].
      * exists v. split; [exact Hv|]. apply read_Done. split; [lia|].
        rewrite Hkeep.
        -- apply nth_error_replace_nth_same. lia.
        -- intros j' Hin Heq. rewrite Z2Nat.id in Heq by lia.
           assert (j = j') by lia. subst j'. contradiction.
      * exact (Hset j' Hin).
    + intros k Hk. rewrite Hkeep by (intros j' Hin; apply Hk; now right).
      apply nth_error_replace_nth_other. intros ->.
      apply (Hk j (or_introl eq_refl)). rewrite Z2Nat.id; lia.
    + exact Hlen.
Qed.

Section NoCandidate.

Variable rand : nat -> nat.

Lemma search_no_candidate (parameters : Parameters) (i : Z) (sg : Resynth_state) :
  tries parameters <= 0 ->
  (forall j, 0 <= j < n_neighbors sg -> no_candidate sg j) ->
  search rand parameters i sg = Done (set_best INT_MAX sg).
Proof.
  intros Htries Hno. unfold search. cbv zeta.
  rewrite phase1_loop_no_candidate.
  - cbn [bind]. replace (Z.to_nat (tries parameters)) with O by lia. reflexivity.
  - intros j Hj. apply in_zrange in Hj. exact (Hno j Hj).
Qed.

(** X25.  When the visit of [data_points[i]] has gathered only
    neighbors that give no candidate and there are no random tries, no
    candidate is scored: [best] is still [INT_MAX] at the end,
    [best_point] is what it was when the visit began, and the visit
    commits that point, which it has not compared with the bounds of the
    corpus, as the source of the pixel, and the corpus cells it designates
    as its color. *)
Theorem visit_without_candidate (fuel : nat) (parameters : Parameters)
    (s sg s' : Resynth_state) (i : Z) (position : Coord) :
  gather fuel parameters s i = Done (position, sg) ->
  tries parameters <= 0 ->
  (forall j, 0 <= j < n_neighbors sg -> no_candidate sg j) ->
  visit rand fuel parameters s i = Done s' ->
  search rand parameters i sg = Done (set_best INT_MAX sg) /\
  best s' = INT_MAX /\
  best_point s' = best_point s /\
  read (status_array s') (image_atc (status s) position) =
    Done (mkStatus true true (best_point s)) /\
  forall j, 0 <= j < input_bytes s ->
    exists v,
      read (corpus_array s) (image_atc (corpus s) (best_point s) + j) = Done v /\
      read (data_array s') (image_atc (data s) position + j) = Done v.
Proof.
  intros G Htries Hno V.
  pose proof (search_no_candidate parameters i sg Htries Hno) as S.
  split; [exact S|].
  unfold visit in V. rewrite G in V. cbn [bind] in V. rewrite S in V. cbn [bind] in V.
  unfold gather in G.
  destruct (read (data_points s) i) as [p| |]; cbn [bind] in G; try discriminate.
  destruct (modify (status_array s) (image_atc (status s) p) _) as [a| |] eqn:M;
    cbn [bind] in G; try discriminate.
  cbv zeta in G.
  destruct (gather_loop fuel parameters p _ _) as [sg'| |] eqn:GL;
    cbn [bind] in G; try discriminate.
  injection G as -> ->.
  apply gather_loop_kept in GL. unfold gather_kept in GL. cbn in GL.
  apply modify_Done in M as (st & Hi & Hst & ->).
  assert (Hbp : best_point sg = best_point s) by congruence.
  assert (Hstat : status sg = status s) by congruence.
  assert (Hsa : status_array sg =
                replace_nth (Z.to_nat (image_atc (status s) position))
                  (mkStatus true (has_source st) (source st)) (status_array s))
    by congruence.
  assert (Hc : corpus sg = corpus s) by congruence.
  assert (Hca : corpus_array sg = corpus_array s) by congruence.
  assert (Hd : data sg = data s) by congruence.
  assert (Hib : input_bytes sg = input_bytes s) by congruence.
  clear GL.
  pose proof (commit_status position _ _ V)
    as (st' & Hi' & Hst' & Harr & _ & B & Hbest & _).
  cbn in Hi', Hst', Harr, B, Hbest.
  rewrite Hstat, Hsa in Hst'. rewrite Hstat, Hsa, Hbp in Harr.
  rewrite nth_error_replace_nth_same in Hst' by lia.
  injection Hst' as <-. cbn [has_value] in Harr. rewrite replace_nth_twice in Harr.
  split; [exact Hbest|]. split; [congruence|]. split.
  - apply read_Done. rewrite Harr, length_replace_nth. split; [lia|].
    apply nth_error_replace_nth_same. lia.
  - intros j Hj. unfold commit in V.
    destruct (for_each (commit_step position) _ (set_best INT_MAX sg))
      as [s4| |] eqn:C; cbn [bind] in V; try discriminate.
    apply commit_steps_data in C as (Hset & _); [|apply NoDup_zrange].
    cbn in Hset. rewrite Hca, Hc, Hbp, Hd in Hset.
    destruct (Hset j) as (v & Hv & Hw).
    { apply in_zrange. lia. }
    exists v. split; [exact Hv|].
    destruct (modify (status_array s4) _ _) as [a1| |]; cbn [bind] in V;
      try discriminate.
    destruct (modify a1 _ _) as [a2| |]; cbn [bind] in V; try discriminate.
    injection V as <-. exact Hw.
Qed.

End NoCandidate.

(** ** The main loop does not go wrong *)






Section SearchTotal.

Variable rand : nat -> nat.



End SearchTotal.



Lemma pixel_index (image : Image) (p : Coord) (k len : Z) :
  inside image p -> 0 <= k < depth image ->
  len = width image * height image * depth image ->
  0 <= image_atc image p + k < len.
Proof.
  intros [Hx Hy] Hk ->. unfold image_atc, image_at.
  assert (H0 : 0 <= cy p * width image + cx p) by nia.
  assert (H1 : cy p * width image + cx p + 1 <= width image * height image) by nia.
  set (c := cy p * width image + cx p) in *.
  set (a := width image * height image) in *.
  assert (H2 : (c + 1) * depth image <= a * depth image) by nia.
  nia.
Qed.


Section GatherTotal.

Variable parameters : Parameters.
Variable fuel : nat.



End GatherTotal.

Section VisitTotal.

Variable rand : nat -> nat.
Variable parameters : Parameters.
Variable fuel : nat.


Lemma search_kept_search (i : Z) (s s' : Resynth_state) :
  search rand parameters i s = Done s' ->
  search_kept s' = search_kept s /\
  (Forall (inside (corpus s)) (corpus_points s) -> inside (corpus s) (best_point s) ->
   inside (corpus s) (best_point s')).
Proof.
  unfold search. cbv zeta. intros H.
  destruct (phase1_loop i _ (set_best INT_MAX s)) as [s1| |] eqn:H1; cbn [bind] in H;
    try discriminate.
  apply phase1_loop_kept in H1 as (K1 & _ & B1).
  apply phase2_loop_kept in H as (K2 & _ & B2).
  split; [rewrite K2, K1; reflexivity|].
  unfold search_kept in K1.
  assert (Hc : corpus s1 = corpus (set_best INT_MAX s)) by congruence.
  assert (Hp : corpus_points s1 = corpus_points (set_best INT_MAX s)) by congruence.
  change (corpus (set_best INT_MAX s)) with (corpus s) in *.
  change (corpus_points (set_best INT_MAX s)) with (corpus_points s) in *.
  change (best_point (set_best INT_MAX s)) with (best_point s) in *.
  rewrite Hc, Hp in B2. auto.
Qed.




End VisitTotal.

Lemma diff_entry_nonneg (a : Q) (i : Z) : 0 <= diff_entry a i.
Proof.
  unfold diff_entry. destruct (Qlt_le_dec 0 a).
  - pose proof (diff_value_nonneg a i) as Hnn. unfold int_of_double.
    destruct (Rle_dec 0 (diff_value a i)) as [_|N]; [|tauto].
    pose proof (base_Int_part (diff_value a i)) as [Hlo Hhi].
    destruct (Z_lt_le_dec (Int_part (diff_value a i)) 0) as [Hneg|]; [|assumption].
    exfalso. assert (Int_part (diff_value a i) <= -1) as Hm by lia.
    apply IZR_le in Hm. lra.
  - destruct (i =? 0); lia.
Qed.


Section RunTotal.

Variable qsort : (Coord -> Coord -> Z) -> list Coord -> list Coord.
Variable rand : nat -> nat.

Hypothesis qsort_permutation :
  forall cmp l, Permutation (qsort cmp l) l.




End RunTotal.
(** ** The name of the output file *)

Lemma ascii_eqb_NUL (c : ascii) : c <> NUL -> Ascii.eqb c NUL = false.
Proof. intros H. now apply Ascii.eqb_neq. Qed.

Lemma read_middle {A : Type} (pre post : list A) (x : A) :
  read (pre ++ x :: post) (Z.of_nat (length pre)) = Done x.
Proof.
  apply read_Done. split.
  - rewrite length_app. simpl. lia.
  - rewrite Nat2Z.id, nth_error_app2 by lia. now rewrite Nat.sub_diag.
Qed.

Lemma replace_nth_middle {A : Type} (pre post : list A) (x a : A) :
  replace_nth (length pre) a (pre ++ x :: post) = pre ++ a :: post.
Proof. induction pre as [|p pre IH]; simpl; [reflexivity|now rewrite IH]. Qed.

Lemma write_middle {A : Type} (pre post : list A) (x a : A) :
  write (pre ++ x :: post) (Z.of_nat (length pre)) a = Done (pre ++ a :: post).
Proof.
  rewrite write_in_range.
  - now rewrite Nat2Z.id, replace_nth_middle.
  - rewrite length_app. simpl. lia.
Qed.

Lemma app_same_length {A : Type} (a b x y : list A) :
  length a = length b -> a ++ x = b ++ y -> a = b.
Proof.
  revert b. induction a as [|h a IH]; intros [|k b] Hl He; simpl in *;
    try discriminate; [reflexivity|].
  injection He as -> He. f_equal. apply IH; [lia|assumption].
Qed.

Lemma In_firstn {A : Type} (a : A) (l : list A) :
  forall n, In a (firstn n l) -> In a l.
Proof.
  induction l as [|h l IH]; intros [|n] H; simpl in *; try contradiction.
  destruct H as [H|H]; [now left|right; eauto].
Qed.

(** The last occurrence of a character. *)
Lemma last_occurrence (c : ascii) (l : list ascii) :
  In c l -> exists stem suffix, l = stem ++ c :: suffix /\ ~ In c suffix.
Proof.
  induction l as [|a l IH]; intros Hin; [contradiction|].
  destruct (in_dec ascii_dec c l) as [Hl|Hl].
  - destruct (IH Hl) as (stem & suffix & -> & Hs).
    exists (a :: stem), suffix. now split.
  - destruct Hin as [->|Hin]; [|contradiction].
    exists [], l. now split.
Qed.

Lemma strlen_string (name rest : list ascii) :
  ~ In NUL name -> strlen (name ++ NUL :: rest) = Done (Z.of_nat (length name)).
Proof.
  induction name as [|c name IH]; intros Hn.
  - reflexivity.
  - cbn [strlen app]. rewrite ascii_eqb_NUL by (intros ->; apply Hn; now left).
    rewrite IH by (intros H; apply Hn; now right).
    cbn [bind length]. f_equal. lia.
Qed.

Lemma strlen_unterminated (name : list ascii) :
  ~ In NUL name -> strlen name = Fault.
Proof.
  induction name as [|c name IH]; intros Hn; [reflexivity|].
  cbn [strlen]. rewrite ascii_eqb_NUL by (intros ->; apply Hn; now left).
  now rewrite IH by (intros H; apply Hn; now right).
Qed.

Lemma strncpy_chunk (chunk : list ascii) :
  forall pre copied z d more,
    length pre = length copied -> ~ In NUL chunk -> length z = length chunk ->
    for_each (strncpy_step (copied ++ chunk ++ more))
             (count_from (Z.of_nat (length pre)) (length chunk))
             (pre ++ z ++ d, false) =
    Done (pre ++ chunk ++ d, false).
Proof.
  induction chunk as [|c chunk IH]; intros pre copied z d more Hl Hn Hz.
  - destruct z; [reflexivity|discriminate].
  - destruct z as [|z0 z]; [discriminate|].
    cbn [length count_from for_each strncpy_step].
    rewrite Hl at 1. cbn [app]. rewrite read_middle. cbn [bind].
    rewrite write_middle. cbn [bind].
    rewrite ascii_eqb_NUL by (intros ->; apply Hn; now left).
    specialize (IH (pre ++ [c]) (copied ++ [c]) z d more).
    rewrite !length_app in IH. simpl length in IH.
    replace (Z.of_nat (length pre + 1)) with (Z.of_nat (length pre) + 1) in IH by lia.
    rewrite <- !app_assoc in IH. simpl in IH. apply IH.
    + lia.
    + intros H. apply Hn. now right.
    + simpl in Hz. lia.
Qed.

(** [strncpy] of the first [n] characters of a string into a zeroed
    block. *)
Lemma strncpy_zeroed (name rest : list ascii) (n size : nat) :
  ~ In NUL name -> (n <= length name)%nat -> (n <= size)%nat ->
  strncpy (repeat NUL size) (name ++ NUL :: rest) (Z.of_nat n) =
  Done (firstn n name ++ repeat NUL (size - n)).
Proof.
  intros Hn Hle Hsize. unfold strncpy, zrange.
  rewrite Z.sub_0_r, Nat2Z.id.
  pose proof (strncpy_chunk (firstn n name) [] [] (repeat NUL n) (repeat NUL (size - n))
                (skipn n name ++ NUL :: rest)) as H.
  rewrite length_firstn, Nat.min_l in H by assumption.
  simpl app in H. rewrite app_assoc, firstn_skipn in H.
  replace (repeat NUL n ++ repeat NUL (size - n)) with (repeat NUL size) in H
    by (rewrite <- repeat_app; f_equal; lia).
  simpl length in H. change (Z.of_nat 0) with 0 in H. rewrite H.
  - reflexivity.
  - reflexivity.
  - intros Hin. apply Hn. eapply In_firstn; eauto.
  - apply repeat_length.
Qed.

Lemma strrchr_from_absent (c : ascii) (l : list ascii) :
  c <> NUL -> ~ In NUL l -> ~ In c l ->
  forall rest i last, strrchr_from (l ++ NUL :: rest) c i last = Done last.
Proof.
  intros Hc. induction l as [|a l IH]; intros Hn Hl rest i last.
  - cbn [app strrchr_from]. rewrite (proj2 (Ascii.eqb_neq NUL c)) by congruence.
    now rewrite Ascii.eqb_refl.
  - cbn [app strrchr_from].
    rewrite (proj2 (Ascii.eqb_neq a c)) by (intros ->; apply Hl; now left).
    rewrite ascii_eqb_NUL by (intros ->; apply Hn; now left).
    apply IH; intros H; [apply Hn|apply Hl]; now right.
Qed.

Lemma strrchr_from_last (c : ascii) (stem suffix : list ascii) :
  c <> NUL -> ~ In NUL (stem ++ c :: suffix) -> ~ In c suffix ->
  forall rest i last,
    strrchr_from ((stem ++ c :: suffix) ++ NUL :: rest) c i last =
    Done (Some (i + Z.of_nat (length stem))).
Proof.
  intros Hc. induction stem as [|a stem IH]; intros Hn Hs rest i last.
  - cbn [app strrchr_from length]. rewrite Ascii.eqb_refl, ascii_eqb_NUL by assumption.
    rewrite strrchr_from_absent; [f_equal; f_equal; simpl; lia|assumption| |assumption].
    intros H. apply Hn. now right.
  - cbn [app strrchr_from].
    rewrite ascii_eqb_NUL by (intros ->; apply Hn; now left).
    rewrite IH; [f_equal; f_equal; simpl length; lia| |assumption].
    intros H. apply Hn. now right.
Qed.

Lemma strcpy_string (ext : list ascii) :
  ~ In NUL ext ->
  forall pre mid post rest,
    length mid = S (length ext) ->
    strcpy (pre ++ mid ++ post) (Z.of_nat (length pre)) (ext ++ NUL :: rest) =
    Done (pre ++ ext ++ NUL :: post).
Proof.
  induction ext as [|a ext IH]; intros Hn pre mid post rest Hm.
  - destruct mid as [|m [|? ?]]; try discriminate.
    cbn [app strcpy]. rewrite write_middle. cbn [bind].
    now rewrite Ascii.eqb_refl.
  - destruct mid as [|m mid]; [discriminate|].
    cbn [app strcpy]. rewrite write_middle. cbn [bind].
    rewrite ascii_eqb_NUL by (intros ->; apply Hn; now left).
    specialize (IH (fun H => Hn (or_intror H)) (pre ++ [a]) mid post rest).
    rewrite length_app in IH. simpl length in IH.
    replace (Z.of_nat (length pre + 1)) with (Z.of_nat (length pre) + 1) in IH by lia.
    rewrite <- !app_assoc in IH. simpl in IH. apply IH.
    simpl in Hm. lia.
Qed.

Lemma strcpy_into_block (pre tail ext rest : list ascii) (fill : nat) :
  ~ In NUL ext -> (length ext < length tail + fill)%nat ->
  strcpy ((pre ++ tail) ++ repeat NUL fill) (Z.of_nat (length pre)) (ext ++ NUL :: rest) =
  Done (pre ++ ext ++ NUL :: skipn (S (length ext)) (tail ++ repeat NUL fill)).
Proof.
  intros He Hl. rewrite <- app_assoc.
  set (block := tail ++ repeat NUL fill).
  rewrite <- (firstn_skipn (S (length ext)) block) at 1.
  apply strcpy_string; [assumption|].
  rewrite length_firstn. unfold block. rewrite length_app, repeat_length. lia.
Qed.

Lemma strcpy_overrun (ext : list ascii) :
  ~ In NUL ext ->
  forall dst pos rest,
    0 <= pos -> Z.of_nat (length dst) <= pos + Z.of_nat (length ext) ->
    strcpy dst pos (ext ++ NUL :: rest) = Fault.
Proof.
  induction ext as [|a ext IH]; intros Hn dst pos rest Hp Hl.
  - cbn [app strcpy]. rewrite write_Fault; [reflexivity|simpl in Hl; lia].
  - cbn [app strcpy].
    destruct (write dst pos a) as [d| |] eqn:E; cbn [bind]; try reflexivity.
    + apply write_Done in E as [_ ->].
      rewrite ascii_eqb_NUL by (intros ->; apply Hn; now left).
      apply IH; [intros H; apply Hn; now right|lia|].
      rewrite length_replace_nth. simpl length in Hl. lia.
    + unfold write in E. destruct (in_range dst pos); discriminate.
Qed.

Lemma c_string_app (l rest : list ascii) :
  ~ In NUL l -> c_string (l ++ NUL :: rest) = l.
Proof.
  induction l as [|a l IH]; intros Hn.
  - cbn [app c_string]. now rewrite Ascii.eqb_refl.
  - cbn [app c_string]. rewrite ascii_eqb_NUL by (intros ->; apply Hn; now left).
    f_equal. apply IH. intros H. apply Hn. now right.
Qed.

Lemma dot_not_NUL : "."%char <> NUL.
Proof. discriminate. Qed.

(** The steps of [manipulate_filename] up to the choice of the place
    where the extension goes. *)
Lemma manipulate_filename_steps (name ext rest : list ascii) :
  ~ In NUL name ->
  let kept := firstn 256 name in
  exists pos,
    manipulate_filename (name ++ NUL :: rest) ext =
    strcpy (kept ++ repeat NUL (512 - length kept)) (Z.of_nat pos) ext /\
    ((~ In "."%char kept /\ pos = length kept) \/
     (exists stem suffix,
        kept = stem ++ "."%char :: suffix /\ ~ In "."%char suffix /\ pos = length stem)).
Proof.
  intros Hn kept.
  assert (Hk : ~ In NUL kept) by (intros H; apply Hn; eapply In_firstn; eauto).
  assert (Hlen : (length kept <= 256)%nat) by (unfold kept; rewrite length_firstn; lia).
  assert (Hcopy :
    strncpy (repeat NUL (Z.to_nat (2 * MAX_LENGTH))) (name ++ NUL :: rest)
            (if Z.of_nat (length name) >? MAX_LENGTH then MAX_LENGTH
             else Z.of_nat (length name)) =
    Done (kept ++ repeat NUL (512 - length kept))).
  { change (Z.to_nat (2 * MAX_LENGTH)) with 512%nat. unfold MAX_LENGTH, kept.
    destruct (Z.gtb_spec (Z.of_nat (length name)) 256) as [Hgt|Hle].
    - change 256 with (Z.of_nat 256). rewrite strncpy_zeroed by (try assumption; lia).
      do 3 f_equal. rewrite length_firstn. lia.
    - rewrite strncpy_zeroed by (try assumption; lia).
      rewrite (firstn_all2 (n := 256)) by lia.
      now rewrite firstn_all. }
  assert (Hl :
    (if Z.of_nat (length name) >? MAX_LENGTH then MAX_LENGTH else Z.of_nat (length name)) =
    Z.of_nat (length kept)).
  { unfold MAX_LENGTH, kept. rewrite length_firstn.
    destruct (Z.gtb_spec (Z.of_nat (length name)) 256); lia. }
  assert (Hblock : exists fill,
    kept ++ repeat NUL (512 - length kept) = kept ++ NUL :: fill).
  { destruct (512 - length kept)%nat as [|k] eqn:E; [lia|]. exists (repeat NUL k).
    reflexivity. }
  destruct Hblock as [fill Hblock].
  unfold manipulate_filename. rewrite strlen_string by assumption. cbn [bind].
  rewrite Hcopy. cbn [bind]. rewrite Hl. unfold strrchr.
  destruct (in_dec ascii_dec "."%char kept) as [Hin|Hout].
  - destruct (last_occurrence _ _ Hin) as (stem & suffix & Hs & Hsuf).
    exists (length stem). split.
    + rewrite Hblock at 1. rewrite Hs at 1.
      rewrite strrchr_from_last;
        [cbn [bind]; reflexivity|exact dot_not_NUL|now rewrite <- Hs|assumption].
    + right. now exists stem, suffix.
  - exists (length kept). split.
    + rewrite Hblock at 1.
      rewrite strrchr_from_absent by (auto using dot_not_NUL). reflexivity.
    + now left.
Qed.

(** X1.  For a file name and an extension that fit, the output name is
    the file name, cut to its first 256 characters and then at its last
    dot if it has one, followed by the extension; the block returned has
    512 cells.  The dot is the last one of the whole path. *)
Theorem manipulate_filename_replaces_extension (name ext rest rest' : list ascii) :
  ~ In NUL name -> ~ In NUL ext -> (length ext <= 255)%nat ->
  exists out,
    manipulate_filename (name ++ NUL :: rest) (ext ++ NUL :: rest') = Done out /\
    length out = 512%nat /\
    (~ In "."%char (firstn 256 name) -> c_string out = firstn 256 name ++ ext) /\
    (forall stem suffix,
       firstn 256 name = stem ++ "."%char :: suffix -> ~ In "."%char suffix ->
       c_string out = stem ++ ext).
Proof.
  intros Hn He Hlen.
  destruct (manipulate_filename_steps name (ext ++ NUL :: rest') rest Hn)
    as (pos & Hrun & Hpos).
  set (kept := firstn 256 name) in *.
  assert (Hk : ~ In NUL kept) by (intros H; apply Hn; eapply In_firstn; eauto).
  assert (Hkl : (length kept <= 256)%nat) by (unfold kept; rewrite length_firstn; lia).
  assert (Hplace : forall pre tail,
    kept = pre ++ tail ->
    strcpy (kept ++ repeat NUL (512 - length kept)) (Z.of_nat (length pre))
           (ext ++ NUL :: rest') =
    Done (pre ++ ext ++ NUL ::
            skipn (S (length ext)) (tail ++ repeat NUL (512 - length kept)))).
  { intros pre tail Hs. rewrite Hs at 1.
    apply strcpy_into_block; [assumption|].
    rewrite Hs, length_app in Hkl. rewrite Hs, length_app. lia. }
  assert (Hsize : forall pre tail,
    kept = pre ++ tail ->
    length (pre ++ ext ++ NUL ::
              skipn (S (length ext)) (tail ++ repeat NUL (512 - length kept))) = 512%nat).
  { intros pre tail Hs. rewrite !length_app. cbn [length].
    rewrite length_skipn, length_app, repeat_length.
    rewrite Hs, length_app in Hkl. rewrite Hs, length_app. lia. }
  assert (Hstring : forall pre tail,
    ~ In NUL pre ->
    c_string (pre ++ ext ++ NUL ::
                skipn (S (length ext)) (tail ++ repeat NUL (512 - length kept))) =
    pre ++ ext).
  { intros pre tail Hp. rewrite app_assoc. apply c_string_app.
    intros H. apply in_app_or in H as [H|H]; auto. }
  destruct Hpos as [[Hout ->]|(stem & suffix & Hs & Hsuf & ->)].
  - exists (kept ++ ext ++ NUL ::
              skipn (S (length ext)) ([] ++ repeat NUL (512 - length kept))).
    split; [|split; [|split]].
    + rewrite Hrun. apply Hplace. now rewrite app_nil_r.
    + apply Hsize. now rewrite app_nil_r.
    + intros _. now apply Hstring.
    + intros stem suffix Hs _. exfalso. apply Hout. rewrite Hs.
      apply in_or_app. right. now left.
  - exists (stem ++ ext ++ NUL ::
              skipn (S (length ext))
                    (("."%char :: suffix) ++ repeat NUL (512 - length kept))).
    assert (Hst : ~ In NUL stem).
    { intros H. apply Hk. rewrite Hs. apply in_or_app. now left. }
    split; [|split; [|split]].
    + rewrite Hrun. now apply Hplace.
    + now apply Hsize.
    + intros Hout. exfalso. apply Hout. rewrite Hs. apply in_or_app. right. now left.
    + intros stem' suffix' Hs' Hsuf'.
      assert (Heq : stem' = stem).
      { assert (Hll : length stem' = length stem).
        { pose proof (strrchr_from_last "."%char stem suffix dot_not_NUL) as H1.
          pose proof (strrchr_from_last "."%char stem' suffix' dot_not_NUL) as H2.
          rewrite <- Hs in H1. rewrite <- Hs' in H2.
          specialize (H1 Hk Hsuf [] 0 None). specialize (H2 Hk Hsuf' [] 0 None).
          rewrite H1 in H2. injection H2 as H2. lia. }
        rewrite Hs in Hs'. symmetry in Hs'. eapply app_same_length; eauto. }
      subst stem'. now apply Hstring.
Qed.

(** X2.  [main] never names its output after its input: for a file name
    of at most 256 characters, the name made with [".resynth.png"] differs
    from it. *)
Theorem manipulate_filename_not_the_input (name rest : list ascii) :
  ~ In NUL name -> (length name <= 256)%nat ->
  exists out,
    manipulate_filename (name ++ NUL :: rest) resynth_extension = Done out /\
    c_string out <> name.
Proof.
  intros Hn Hlen.
  set (ext := list_ascii_of_string ".resynth.png").
  assert (He : ~ In NUL ext).
  { unfold ext. simpl. intros H.
    repeat (destruct H as [H|H]; [discriminate H|]). exact H. }
  destruct (manipulate_filename_steps name resynth_extension rest Hn)
    as (pos & Hrun & Hpos).
  rewrite (firstn_all2 (n := 256)) in * by lia.
  assert (Hplace : forall pre tail,
    name = pre ++ tail -> ~ In NUL pre ->
    exists out,
      strcpy (name ++ repeat NUL (512 - length name)) (Z.of_nat (length pre))
             resynth_extension = Done out /\
      c_string out = pre ++ ext).
  { intros pre tail Hs Hp. eexists. split.
    - rewrite Hs at 1. apply strcpy_into_block; [assumption|].
      assert (Hx : length ext = 12%nat) by reflexivity.
      rewrite Hs, length_app in Hlen. rewrite Hs, length_app.
      unfold ext in Hx. lia.
    - rewrite app_assoc. apply c_string_app.
      intros H. apply in_app_or in H as [H|H]; auto. }
  destruct Hpos as [[Hout ->]|(stem & suffix & Hs & Hsuf & ->)].
  - destruct (Hplace name []) as (out & Hcopy & Hstr);
      [now rewrite app_nil_r|assumption|].
    exists out. split; [now rewrite Hrun|].
    rewrite Hstr. intros H.
    apply (f_equal (@length ascii)) in H. rewrite length_app in H. simpl in H. lia.
  - assert (Hst : ~ In NUL stem).
    { intros H. apply Hn. rewrite Hs. apply in_or_app. now left. }
    destruct (Hplace stem ("."%char :: suffix) Hs Hst) as (out & Hcopy & Hstr).
    exists out. split; [now rewrite Hrun|].
    rewrite Hstr. rewrite Hs at 1. intros H. apply app_inv_head in H.
    apply Hsuf. unfold ext in H. simpl in H. injection H as <-.
    simpl. do 7 right. now left.
Qed.

(** X3.  The 512 cells are all that [manipulate_filename] allocates: when
    the place where the extension goes and the length of the extension
    add up to 512 or more, [strcpy] writes past the block. *)
Theorem manipulate_filename_overruns (name ext rest rest' : list ascii) :
  ~ In NUL name -> ~ In NUL ext ->
  (~ In "."%char (firstn 256 name) ->
   (512 <= length (firstn 256 name) + length ext)%nat ->
   manipulate_filename (name ++ NUL :: rest) (ext ++ NUL :: rest') = Fault) /\
  (forall stem suffix,
     firstn 256 name = stem ++ "."%char :: suffix -> ~ In "."%char suffix ->
     (512 <= length stem + length ext)%nat ->
     manipulate_filename (name ++ NUL :: rest) (ext ++ NUL :: rest') = Fault).
Proof.
  intros Hn He.
  destruct (manipulate_filename_steps name (ext ++ NUL :: rest') rest Hn)
    as (pos & Hrun & Hpos).
  set (kept := firstn 256 name) in *.
  assert (Hk : ~ In NUL kept) by (intros H; apply Hn; eapply In_firstn; eauto).
  assert (Hkl : (length kept <= 256)%nat) by (unfold kept; rewrite length_firstn; lia).
  assert (Hfull : length (kept ++ repeat NUL (512 - length kept)) = 512%nat)
    by (rewrite length_app, repeat_length; lia).
  split.
  - intros Hout Hl.
    destruct Hpos as [[_ ->]|(stem & suffix & Hs & _)].
    + rewrite Hrun. apply strcpy_overrun; [assumption|lia|rewrite Hfull; lia].
    + exfalso. apply Hout. rewrite Hs. apply in_or_app. right. now left.
  - intros stem suffix Hs Hsuf Hl.
    destruct Hpos as [[Hout _]|(stem' & suffix' & Hs' & Hsuf' & ->)].
    + exfalso. apply Hout. rewrite Hs. apply in_or_app. right. now left.
    + assert (Hll : length stem' = length stem).
      { pose proof (strrchr_from_last "."%char stem suffix dot_not_NUL) as H1.
        pose proof (strrchr_from_last "."%char stem' suffix' dot_not_NUL) as H2.
        rewrite <- Hs in H1. rewrite <- Hs' in H2.
        specialize (H1 Hk Hsuf [] 0 None). specialize (H2 Hk Hsuf' [] 0 None).
        rewrite H1 in H2. injection H2 as H2. lia. }
      rewrite Hrun. apply strcpy_overrun; [assumption|lia|rewrite Hfull; lia].
Qed.
(** ** The options of [main] *)

Lemma CLAMP_range (x l u : Z) : l <= u -> l <= CLAMP x l u <= u.
Proof.
  intros H. unfold CLAMP, MIN, MAX.
  destruct (Z.gtb_spec x l); destruct (Z.ltb_spec x u); destruct (Z.ltb_spec l u); lia.
Qed.

Lemma CLAMP_inside (x l u : Z) : l <= x <= u -> CLAMP x l u = x.
Proof.
  intros H. unfold CLAMP, MIN, MAX.
  destruct (Z.gtb_spec x l); destruct (Z.ltb_spec x u); destruct (Z.ltb_spec l u); lia.
Qed.

Lemma CLAMP_double_range (x l u : Q) : (l <= u)%Q -> (l <= CLAMP_double x l u <= u)%Q.
Proof.
  intros H. unfold CLAMP_double, MIN_double, MAX_double.
  destruct (Qlt_le_dec l x) as [H1|H1].
  - destruct (Qlt_le_dec x u) as [H2|H2].
    + split; apply Qlt_le_weak; assumption.
    + split; [assumption|apply Qle_refl].
  - destruct (Qlt_le_dec l u) as [H2|H2].
    + split; [apply Qle_refl|assumption].
    + split; [assumption|apply Qle_refl].
Qed.

Lemma CLAMP_double_inside (x l u : Q) : (l <= x <= u)%Q -> (CLAMP_double x l u == x)%Q.
Proof.
  intros [H1 H2]. unfold CLAMP_double, MIN_double, MAX_double.
  destruct (Qlt_le_dec l x) as [H3|H3].
  - destruct (Qlt_le_dec x u) as [H4|H4]; [reflexivity|now apply Qle_antisym].
  - assert (E : (l == x)%Q) by now apply Qle_antisym.
    destruct (Qlt_le_dec l u) as [H4|H4]; [assumption|].
    apply Qle_antisym; [apply (Qle_trans _ l); assumption|assumption].
Qed.

Lemma disc00_last : read disc00 (LEN_disc00 - 1) = Done 1093.
Proof. reflexivity. Qed.

(** X4.  Whatever the flags have stored, the parameters that [main] hands
    to [run] are in the ranges its help text gives: [polish] in [0,9],
    [magic] in [0,255], [autism] in [0,1], [neighbors] in [0,1093] and
    [tries] in [0,65536].  A value that is in its range is left as it is,
    and the tiling flags are not touched. *)
Theorem clamp_parameters_ranges (p : Parameters) :
  exists p',
    clamp_parameters p = Done p' /\
    0 <= polish p' <= 9 /\ 0 <= magic p' <= 255 /\
    (0 <= autism p' <= 1)%Q /\
    0 <= neighbors p' <= 1093 /\ 0 <= tries p' <= 65536 /\
    h_tile p' = h_tile p /\ v_tile p' = v_tile p /\
    (0 <= polish p <= 9 -> polish p' = polish p) /\
    (0 <= magic p <= 255 -> magic p' = magic p) /\
    ((0 <= autism p <= 1)%Q -> (autism p' == autism p)%Q) /\
    (0 <= neighbors p <= 1093 -> neighbors p' = neighbors p) /\
    (0 <= tries p <= 65536 -> tries p' = tries p).
Proof.
  unfold clamp_parameters. rewrite disc00_last. cbn [bind].
  eexists. split; [reflexivity|]. cbn.
  split; [apply CLAMP_range; lia|].
  split; [apply CLAMP_range; lia|].
  split; [apply CLAMP_double_range; discriminate|].
  split; [apply CLAMP_range; lia|].
  split; [apply CLAMP_range; lia|].
  split; [reflexivity|]. split; [reflexivity|].
  split; [apply CLAMP_inside|].
  split; [apply CLAMP_inside|].
  split; [apply CLAMP_double_inside|].
  split; apply CLAMP_inside.
Qed.

(** The table [disc00] holds the sizes of the discs of lattice points, by
    growing radius: its entries are the numbers of points within the
    squared distances 0, 1, 2, 4, 5, 8, ... that some point has. *)
Lemma disc00_discs : disc00 = map disc_count (disc_radii 349).
Proof. vm_compute. reflexivity. Qed.

Lemma length_disc_radii : length (disc_radii 349) = 128%nat.
Proof. vm_compute. reflexivity. Qed.

(** X5.  The flag [circle-radius] never reads outside [disc00], whatever
    its argument, and the number of neighbors it sets is the number of
    lattice points of a disc: the points within the squared distance that
    the table of squared distances gives for the clamped argument. *)
Theorem circle_radius_counts_disc (arg : Z) (p : Parameters) :
  let radius := CLAMP arg 1 128 in
  exists p',
    set_flag flag_circle_radius arg p = Done p' /\
    1 <= radius <= 128 /\
    neighbors p' = disc_count (nth (Z.to_nat (radius - 1)) (disc_radii 349) 0) /\
    1 <= neighbors p' <= 1093.
Proof.
  intros radius.
  assert (Hr : 1 <= radius <= 128) by (apply CLAMP_range; lia).
  assert (Hread : read disc00 (radius - 1) =
                  Done (nth (Z.to_nat (radius - 1)) disc00 0)).
  { apply read_nth. change (Z.of_nat (length disc00)) with 128. lia. }
  assert (Hin : In (nth (Z.to_nat (radius - 1)) disc00 0) disc00).
  { apply nth_In. change (length disc00) with 128%nat. lia. }
  unfold set_flag. change LEN_disc00 with 128. fold radius.
  rewrite Hread. cbn [bind]. eexists. split; [reflexivity|].
  split; [assumption|]. cbn [neighbors set_neighbors]. split.
  - rewrite disc00_discs at 1.
    rewrite (nth_indep _ 0 (disc_count 0))
      by (rewrite length_map, length_disc_radii; lia).
    now rewrite map_nth.
  - revert Hin. generalize (nth (Z.to_nat (radius - 1)) disc00 0). intros z Hin.
    assert (Hall : Forall (fun z => 1 <= z <= 1093) disc00).
    { apply Forall_forall. intros x Hx.
      assert (Hc : forallb (fun z => (1 <=? z) && (z <=? 1093)) disc00 = true)
        by (vm_compute; reflexivity).
      rewrite forallb_forall in Hc. specialize (Hc x Hx). lia. }
    rewrite Forall_forall in Hall. now apply Hall.
Qed.

(** ** The first offsets of the table make a disc *)







Section OffsetDisc.

Variable qsort : (Coord -> Coord -> Z) -> list Coord -> list Coord.

Hypothesis qsort_permutation :
  forall cmp l, Permutation (qsort cmp l) l.

Hypothesis qsort_sorted :
  forall cmp l,
    (forall a b, cmp a b <= 0 \/ cmp b a <= 0) ->
    (forall a b c, cmp a b <= 0 -> cmp b c <= 0 -> cmp a c <= 0) ->
    StronglySorted (fun a b => cmp a b <= 0) (qsort cmp l).


End OffsetDisc.
(** ** The shape of the diff table *)

Lemma ln_monotone (x y : R) : (0 < x)%R -> (x <= y)%R -> (ln x <= ln y)%R.
Proof.
  intros Hx [Hlt| ->]; [|lra]. left. now apply ln_increasing.
Qed.

Lemma neglog_cauchy_monotone (x y : R) :
  (0 <= x)%R -> (x <= y)%R -> (neglog_cauchy x <= neglog_cauchy y)%R.
Proof.
  intros Hx Hxy. unfold neglog_cauchy.
  pose proof (square_le x y Hx Hxy). apply ln_monotone; nra.
Qed.

Lemma neglog_cauchy_even (x : R) : neglog_cauchy (- x) = neglog_cauchy x.
Proof. unfold neglog_cauchy. f_equal. ring. Qed.

Lemma neglog_cauchy_pos (x : R) : (0 < x)%R -> (0 < neglog_cauchy x)%R.
Proof.
  intros Hx. unfold neglog_cauchy. rewrite <- ln_1. apply ln_increasing; nra.
Qed.

Lemma Q2R_pos (a : Q) : (0 < a)%Q -> (0 < Q2R a)%R.
Proof. intros Ha. apply Qlt_Rlt in Ha. now rewrite RMicromega.Q2R_0 in Ha. Qed.

Lemma diff_value_even (a : Q) (d : Z) : diff_value a (- d) = diff_value a d.
Proof.
  unfold diff_value. rewrite opp_IZR.
  replace (- IZR d / 256 / Q2R a)%R with (- (IZR d / 256 / Q2R a))%R
    by (unfold Rdiv; ring).
  now rewrite neglog_cauchy_even.
Qed.

Lemma diff_value_monotone (a : Q) (d e : Z) :
  (0 < a)%Q -> 0 <= d <= e -> (diff_value a d <= diff_value a e)%R.
Proof.
  intros Ha [Hd Hde]. apply Q2R_pos in Ha.
  assert (Hinv : (0 < / Q2R a)%R) by now apply Rinv_0_lt_compat.
  assert (Hden : (0 < neglog_cauchy (1 / Q2R a))%R).
  { apply neglog_cauchy_pos. unfold Rdiv. lra. }
  apply IZR_le in Hd, Hde. unfold diff_value.
  apply Rmult_le_compat_r; [lra|].
  apply Rmult_le_compat_r; [left; now apply Rinv_0_lt_compat|].
  apply neglog_cauchy_monotone.
  - unfold Rdiv. apply Rmult_le_pos; [lra|lra].
  - unfold Rdiv. apply Rmult_le_compat_r; [lra|lra].
Qed.

Lemma diff_value_top (a : Q) : (0 < a)%Q -> diff_value a 256 = 65536%R.
Proof.
  intros Ha. apply Q2R_pos in Ha.
  assert (Hden : (0 < neglog_cauchy (1 / Q2R a))%R).
  { apply neglog_cauchy_pos. unfold Rdiv.
    pose proof (Rinv_0_lt_compat _ Ha). lra. }
  unfold diff_value.
  replace (256 / 256 / Q2R a)%R with (1 / Q2R a)%R by (unfold Rdiv; field; lra).
  field. lra.
Qed.

Lemma int_of_double_monotone (x y : R) :
  (0 <= x)%R -> (x <= y)%R -> int_of_double x <= int_of_double y.
Proof.
  intros Hx Hxy. unfold int_of_double.
  destruct (Rle_dec 0 x) as [_|N]; [|tauto].
  destruct (Rle_dec 0 y) as [_|N]; [|exfalso; apply N; lra].
  pose proof (base_Int_part x) as [Hx1 _]. pose proof (base_Int_part y) as [_ Hy2].
  assert (H : (IZR (Int_part x) < IZR (Int_part y + 1))%R) by (rewrite plus_IZR; lra).
  apply lt_IZR in H. lia.
Qed.

Lemma int_of_double_IZR (z : Z) : 0 <= z -> int_of_double (IZR z) = z.
Proof.
  intros Hz. unfold int_of_double. apply IZR_le in Hz.
  destruct (Rle_dec 0 (IZR z)) as [_|N]; [|tauto].
  apply Int_part_between. lra.
Qed.

Lemma diff_entry_even (a : Q) (d : Z) : diff_entry a (- d) = diff_entry a d.
Proof.
  unfold diff_entry. destruct (Qlt_le_dec 0 a).
  - now rewrite diff_value_even.
  - destruct (Z.eqb_spec d 0) as [->|Hd]; [reflexivity|].
    now rewrite (proj2 (Z.eqb_neq (- d) 0)) by lia.
Qed.

Lemma diff_entry_monotone (a : Q) (d e : Z) :
  0 <= d <= e -> diff_entry a d <= diff_entry a e.
Proof.
  intros Hde. unfold diff_entry. destruct (Qlt_le_dec 0 a) as [Ha|Ha].
  - apply int_of_double_monotone; [apply diff_value_nonneg|].
    now apply diff_value_monotone.
  - destruct (Z.eqb_spec d 0); destruct (Z.eqb_spec e 0); lia.
Qed.

Lemma diff_entry_top (a : Q) : diff_entry a (-256) = 65536.
Proof.
  change (-256) with (- (256)). rewrite diff_entry_even.
  unfold diff_entry. destruct (Qlt_le_dec 0 a) as [Ha|Ha]; [|reflexivity].
  rewrite diff_value_top by assumption. now apply int_of_double_IZR.
Qed.

Lemma diff_entry_bounds (a : Q) (d : Z) : -256 <= d < 256 -> 0 <= diff_entry a d <= 65536.
Proof.
  intros Hd. split; [apply diff_entry_nonneg|].
  rewrite <- (diff_entry_top a). change (-256) with (- (256)). rewrite diff_entry_even.
  destruct (Z_lt_le_dec d 0) as [Hneg|Hpos].
  - rewrite <- (diff_entry_even a d). apply diff_entry_monotone. lia.
  - apply diff_entry_monotone. lia.
Qed.

Lemma make_diff_table_bounds (a : Q) :
  Forall (fun t => 0 <= t <= 65536) (make_diff_table a).
Proof.
  unfold make_diff_table. apply Forall_forall. intros t Ht.
  apply in_map_iff in Ht as (d & <- & Hd). apply in_zrange in Hd.
  now apply diff_entry_bounds.
Qed.

(** X7.  Whatever [autism] is, every cell of the diff table lies between 0
    and 65536, and the first cell, that of the difference -256, which
    [try_point] charges for each byte of a neighbor outside the corpus,
    holds the largest value, 65536. *)
Theorem diff_table_bounds (a : Q) :
  read (make_diff_table a) 0 = Done 65536 /\
  forall i, 0 <= i < 512 ->
    exists t, read (make_diff_table a) i = Done t /\ 0 <= t <= 65536.
Proof.
  split.
  - change 0 with (256 + -256). rewrite read_diff_table by lia.
    now rewrite diff_entry_top.
  - intros i Hi. exists (diff_entry a (i - 256)). split.
    + replace i with (256 + (i - 256)) at 1 by lia. apply read_diff_table. lia.
    + apply diff_entry_bounds. lia.
Qed.

(** X8.  The cost of a difference depends on its magnitude only, and does
    not decrease when the magnitude grows: the cells of [d] and [-d] hold
    the same value, and the cell of [d] holds at most that of [e] when
    [0 <= d <= e]. *)
Theorem diff_table_even_and_monotone (a : Q) (d e : Z) :
  0 <= d <= e -> e <= 255 ->
  exists td te,
    read (make_diff_table a) (256 + d) = Done td /\
    read (make_diff_table a) (256 - d) = Done td /\
    read (make_diff_table a) (256 + e) = Done te /\
    read (make_diff_table a) (256 - e) = Done te /\
    td <= te.
Proof.
  intros Hde He. exists (diff_entry a d), (diff_entry a e).
  split; [apply read_diff_table; lia|].
  split; [replace (256 - d) with (256 + - d) by lia;
          rewrite read_diff_table by lia; now rewrite diff_entry_even|].
  split; [apply read_diff_table; lia|].
  split; [replace (256 - e) with (256 + - e) by lia;
          rewrite read_diff_table by lia; now rewrite diff_entry_even|].
  now apply diff_entry_monotone.
Qed.
(** ** Bounds on the score of a candidate *)

Lemma channel_steps_bound (s : Resynth_state) (V : Pixel32) (corpus_pixel M : Z) :
  Forall (fun t => 0 <= t <= M) (diff_table s) ->
  forall chs sum sum',
    for_each (channel_step s V corpus_pixel) chs sum = Done sum' ->
    sum <= sum' <= sum + Z.of_nat (length chs) * M.
Proof.
  intros Htab. induction chs as [|ch chs IH]; intros sum sum' H; cbn [for_each] in H.
  - inv_done. simpl. lia.
  - inv_done. unfold channel_step in E. inv_done.
    apply read_In in E2. rewrite Forall_forall in Htab. specialize (Htab _ E2).
    apply IH in H. cbn [length]. nia.
Qed.

Lemma try_point_loop_bound (s : Resynth_state) (C : Coord) (M : Z) :
  0 <= M -> Forall (fun t => 0 <= t <= M) (diff_table s) -> 0 <= input_bytes s ->
  forall idx sum sum',
    try_point_loop s C idx sum = Done (Some sum') ->
    sum <= sum' <= sum + Z.of_nat (length idx) * (input_bytes s * M) /\
    (idx <> [] -> sum' < best s).
Proof.
  intros HM Htab Hib. induction idx as [|i idx IH]; intros sum sum' H;
    cbn [try_point_loop] in H.
  - inv_done. simpl. split; [lia|congruence].
  - inv_done.
    assert (Hstep : sum <= a0 <= sum + input_bytes s * M).
    { destruct (outside_corpus s (coord_add C a)).
      - inv_done. apply read_In in E1. rewrite Forall_forall in Htab.
        specialize (Htab _ E1). nia.
      - destruct (negb (i =? 0)).
        + inv_done. apply (channel_steps_bound s _ _ M Htab) in E0.
          rewrite length_zrange, Z.sub_0_r, Z2Nat.id in E0 by assumption. lia.
        + inv_done. nia. }
    destruct (Z.geb_spec a0 (best s)) as [Hge|Hlt]; [discriminate|].
    apply IH in H as [Hb Hlast]. cbn [length]. split; [nia|]. intros _.
    destruct idx as [|j idx]; [|apply Hlast; discriminate].
    cbn [length] in Hb. lia.
Qed.

(** X9.  A candidate is recorded only with a score that is lower than the
    best so far (when a neighbor has been gathered), and the score lies
    between 0 and 65536 for each input byte of each neighbor: with at most
    1093 neighbors of at most 3 bytes it stays below [INT_MAX], so the sum
    of [try_point] does not overflow. *)
Theorem try_point_score_bounded (s s' : Resynth_state) (C : Coord) :
  Forall (fun t => 0 <= t <= 65536) (diff_table s) ->
  0 <= input_bytes s -> 0 <= n_neighbors s ->
  try_point s C = Done s' ->
  s' = s \/
  (s' = set_best_point C (set_best (best s') s) /\
   0 <= best s' <= n_neighbors s * (input_bytes s * 65536) /\
   (0 < n_neighbors s -> best s' < best s) /\
   (n_neighbors s <= 1093 -> input_bytes s <= 3 -> best s' < INT_MAX)).
Proof.
  intros Htab Hib Hn H. unfold try_point in H. inv_done.
  destruct a as [sum|]; inv_done; [right|now left].
  apply (try_point_loop_bound s C 65536 ltac:(lia) Htab Hib) in E as [Hb Hlt].
  rewrite length_zrange, Z.sub_0_r, Z2Nat.id in Hb by assumption.
  cbn [best set_best set_best_point].
  split; [reflexivity|]. split; [lia|]. split.
  - intros Hpos. apply Hlt. unfold zrange. rewrite Z.sub_0_r.
    destruct (Z.to_nat (n_neighbors s)) eqn:En; [lia|discriminate].
  - intros Hn' Hib'. unfold INT_MAX. nia.
Qed.

(** ** The value of the first neighbor *)

(** Two states that [try_point] cannot tell apart: they differ at most in
    the output pixels, in the value recorded for the neighbor 0, and in
    fields that scoring does not read. *)
Lemma try_point_loop_agree (s1 s2 : Resynth_state) (C : Coord) :
  s_neighbors s1 = s_neighbors s2 -> corpus s1 = corpus s2 ->
  corpus_array s1 = corpus_array s2 -> diff_table s1 = diff_table s2 ->
  input_bytes s1 = input_bytes s2 -> best s1 = best s2 ->
  length (neighbor_values s1) = length (neighbor_values s2) ->
  (forall i, (1 <= i)%nat ->
     nth_error (neighbor_values s1) i = nth_error (neighbor_values s2) i) ->
  forall idx sum,
    (forall i, In i idx -> 0 <= i) ->
    try_point_loop s1 C idx sum = try_point_loop s2 C idx sum.
Proof.
  intros Hnb Hc Hca Hdt Hib Hbest Hlen Hval.
  induction idx as [|i idx IH]; intros sum Hidx; [reflexivity|].
  cbn [try_point_loop]. rewrite <- Hnb.
  destruct (read (s_neighbors s1) i) as [nb| |]; cbn [bind]; try reflexivity.
  assert (Hout : outside_corpus s2 (coord_add C nb) = outside_corpus s1 (coord_add C nb))
    by (unfold outside_corpus; now rewrite Hc).
  rewrite Hout, <- Hdt, <- Hib, <- Hbest, <- Hc.
  assert (Hcontrib :
    (if negb (i =? 0)
     then data_pixel <- read (neighbor_values s2) i;;
          for_each (channel_step s2 data_pixel (image_atc (corpus s1) (coord_add C nb)))
                   (zrange 0 (input_bytes s1)) sum
     else Done sum) =
    (if negb (i =? 0)
     then data_pixel <- read (neighbor_values s1) i;;
          for_each (channel_step s1 data_pixel (image_atc (corpus s1) (coord_add C nb)))
                   (zrange 0 (input_bytes s1)) sum
     else Done sum)).
  { destruct (Z.eqb_spec i 0) as [E|E]; [reflexivity|]. cbn [negb].
    assert (Hi : 0 <= i) by (apply Hidx; now left).
    assert (Hr : read (neighbor_values s2) i = read (neighbor_values s1) i).
    { unfold read, in_range. rewrite Hlen, Hval by lia. reflexivity. }
    rewrite Hr. destruct (read (neighbor_values s1) i) as [px| |]; cbn [bind];
      try reflexivity.
    assert (Hstep : forall sm j, channel_step s2 px (image_atc (corpus s1) (coord_add C nb)) sm j =
                                 channel_step s1 px (image_atc (corpus s1) (coord_add C nb)) sm j).
    { intros sm j. unfold channel_step. now rewrite Hca, Hdt. }
    generalize (zrange 0 (input_bytes s1)). intros chs. revert sum.
    induction chs as [|ch chs IHc]; intros sum; [reflexivity|].
    cbn [for_each]. rewrite Hstep.
    destruct (channel_step s1 px (image_atc (corpus s1) (coord_add C nb)) sum ch);
      cbn [bind]; auto. }
  rewrite Hcontrib.
  destruct (if outside_corpus s1 (coord_add C nb)
            then t <- read (diff_table s1) 0;; Done (sum + t * input_bytes s1)
            else if negb (i =? 0)
                 then data_pixel <- read (neighbor_values s1) i;;
                      for_each (channel_step s1 data_pixel
                                  (image_atc (corpus s1) (coord_add C nb)))
                               (zrange 0 (input_bytes s1)) sum
                 else Done sum) as [sum'| |]; cbn [bind]; try reflexivity.
  destruct (sum' >=? best s1); [reflexivity|].
  apply IH. intros j Hj. apply Hidx. now right.
Qed.

(** X10.  The value recorded for the neighbor 0 takes no part in the
    score: with any other value in its cell, [try_point] gives the same
    outcome, the same best score and the same best point. *)
Theorem try_point_first_value_unused (s : Resynth_state) (C : Coord) (V : Pixel32)
    (values : list Pixel32) :
  write (neighbor_values s) 0 V = Done values ->
  try_point (set_neighbor_values values s) C =
  match try_point s C with
  | Done s' => Done (set_neighbor_values values s')
  | Fault => Fault
  | OutOfFuel => OutOfFuel
  end.
Proof.
  intros Hw. apply write_Done in Hw as [Hr ->].
  unfold try_point. cbn [n_neighbors set_neighbor_values].
  rewrite (try_point_loop_agree (set_neighbor_values _ s) s C); try reflexivity.
  - destruct (try_point_loop s C (zrange 0 (n_neighbors s)) 0) as [[sum|]| |];
      reflexivity.
  - cbn [neighbor_values set_neighbor_values]. apply length_replace_nth.
  - intros i Hi. cbn [neighbor_values set_neighbor_values].
    apply nth_error_replace_nth_other. change (Z.to_nat 0) with O. lia.
  - intros i Hi. apply in_zrange in Hi. lia.
Qed.
(** ** The boundary resolver, again *)

Lemma wrap_below_Done (tile : bool) (dim : Z) :
  forall fuel v r, wrap_below fuel tile dim v = Done (true, r) -> 0 <= r.
Proof.
  induction fuel as [|fuel IH]; intros v r H; cbn [wrap_below] in H;
    destruct (Z.ltb_spec v 0); destruct tile; try discriminate;
    try (injection H as <-; lia).
  eapply IH; eauto.
Qed.

Lemma wrap_above_Done (tile : bool) (dim : Z) :
  forall fuel v r, wrap_above fuel tile dim v = Done (true, r) ->
    r < dim /\ (0 <= v -> 0 <= r).
Proof.
  induction fuel as [|fuel IH]; intros v r H; cbn [wrap_above] in H;
    destruct (Z.geb_spec v dim); destruct tile; try discriminate;
    try (injection H as <-; lia).
  apply IH in H. lia.
Qed.

Lemma wrap_below_empty (fuel : nat) (v : Z) :
  v < 0 -> wrap_below fuel true 0 v = OutOfFuel.
Proof.
  intros Hv. induction fuel as [|fuel IH]; cbn [wrap_below];
    rewrite (proj2 (Z.ltb_lt v 0)) by assumption; [reflexivity|].
  now rewrite Z.add_0_r.
Qed.

Lemma wrap_above_empty (fuel : nat) (v : Z) :
  0 <= v -> wrap_above fuel true 0 v = OutOfFuel.
Proof.
  intros Hv. induction fuel as [|fuel IH]; cbn [wrap_above];
    rewrite (proj2 (Z.geb_le v 0)) by assumption; [reflexivity|].
  now rewrite Z.sub_0_r.
Qed.

(** A point that [wrap_or_clip] accepts lies inside the image. *)
Lemma wrap_or_clip_accepted (fuel : nat) (parameters : Parameters)
    (image : Image) (point point' : Coord) :
  wrap_or_clip fuel parameters image point = Done (true, point') ->
  inside image point'.
Proof.
  intros H. unfold wrap_or_clip in H.
  destruct (wrap_below fuel (h_tile parameters) (width image) (cx point))
    as [[ok1 x1]| |] eqn:E1; cbn [bind] in H; try discriminate.
  destruct ok1; cbn [negb] in H; [|discriminate].
  destruct (wrap_above fuel (h_tile parameters) (width image) x1)
    as [[ok2 x2]| |] eqn:E2; cbn [bind] in H; try discriminate.
  destruct ok2; cbn [negb] in H; [|discriminate].
  destruct (wrap_below fuel (v_tile parameters) (height image) (cy point))
    as [[ok3 y3]| |] eqn:E3; cbn [bind] in H; try discriminate.
  destruct ok3; cbn [negb] in H; [|discriminate].
  destruct (wrap_above fuel (v_tile parameters) (height image) y3)
    as [[ok4 y4]| |] eqn:E4; cbn [bind] in H; try discriminate.
  destruct ok4; cbn [negb] in H; [|discriminate].
  injection H as <-.
  apply wrap_below_Done in E1, E3. apply wrap_above_Done in E2, E4.
  unfold inside. cbn [cx cy]. lia.
Qed.

(** X11.  A point that [wrap_or_clip] accepts lies inside the image, and
    [wrap_or_clip] leaves it as it is: resolving twice is resolving
    once.  Nothing is asked of the image or of the fuel. *)
Theorem wrap_or_clip_fixed_point (fuel : nat) (parameters : Parameters)
    (image : Image) (point point' : Coord) :
  wrap_or_clip fuel parameters image point = Done (true, point') ->
  (0 <= cx point' < width image /\ 0 <= cy point' < height image) /\
  forall fuel', wrap_or_clip fuel' parameters image point' = Done (true, point').
Proof.
  intros H. apply wrap_or_clip_accepted in H.
  split; [exact H|]. intros fuel'. now apply wrap_or_clip_inside.
Qed.

(** X12.  On an axis that tiles, an image of size 0 keeps the loops of
    [wrap_or_clip] going for ever: the call returns for no point and no
    amount of fuel.  ([run] calls it on the output image, after the test of
    the sizes.) *)
Theorem wrap_or_clip_empty_axis (fuel : nat) (parameters : Parameters)
    (image : Image) (point : Coord) :
  (h_tile parameters = true -> width image = 0 ->
   wrap_or_clip fuel parameters image point = OutOfFuel) /\
  (v_tile parameters = true -> height image = 0 ->
   0 <= cx point < width image ->
   wrap_or_clip fuel parameters image point = OutOfFuel).
Proof.
  split.
  - intros Ht Hw. unfold wrap_or_clip. rewrite Ht, Hw.
    destruct (Z_lt_le_dec (cx point) 0) as [Hneg|Hpos].
    + now rewrite wrap_below_empty.
    + rewrite wrap_below_inside by assumption. cbn [bind negb].
      now rewrite wrap_above_empty.
  - intros Ht Hh Hx. unfold wrap_or_clip.
    rewrite wrap_below_inside by lia. cbn [bind negb].
    rewrite wrap_above_inside by lia. cbn [bind negb].
    rewrite Ht, Hh.
    destruct (Z_lt_le_dec (cy point) 0) as [Hneg|Hpos].
    + now rewrite wrap_below_empty.
    + rewrite wrap_below_inside by assumption. cbn [bind negb].
      now rewrite wrap_above_empty.
Qed.

(** ** The first offset and the first neighbor *)


Section FirstOffset.

Variable qsort : (Coord -> Coord -> Z) -> list Coord -> list Coord.

Hypothesis qsort_permutation :
  forall cmp l, Permutation (qsort cmp l) l.

Hypothesis qsort_sorted :
  forall cmp l,
    (forall a b, cmp a b <= 0 \/ cmp b a <= 0) ->
    (forall a b c, cmp a b <= 0 -> cmp b c <= 0 -> cmp a c <= 0) ->
    StronglySorted (fun a b => cmp a b <= 0) (qsort cmp l).

Lemma offsets_head (s : Resynth_state) :
  0 < Z.min (width (corpus s)) (width (data s)) ->
  0 < Z.min (height (corpus s)) (height (data s)) ->
  exists rest,
    sorted_offsets (make_offset_list qsort s) = mkCoord 0 0 :: rest /\
    ~ In (mkCoord 0 0) rest.
Proof.
  intros HW HH.
  set (W := Z.min (width (corpus s)) (width (data s))) in *.
  set (H := Z.min (height (corpus s)) (height (data s))) in *.
  assert (Htable : sorted_offsets (make_offset_list qsort s) =
                   qsort coord_compare (offset_grid W H)) by reflexivity.
  assert (Hperm : Permutation (qsort coord_compare (offset_grid W H)) (offset_grid W H))
    by apply qsort_permutation.
  destruct (sorted_head_origin (qsort coord_compare (offset_grid W H))) as [rest Hrest].
  - apply qsort_sorted; [apply coord_compare_total|apply coord_compare_trans].
  - eapply Permutation_in; [symmetry; exact Hperm|].
    apply in_offset_grid. cbn [cx cy]. lia.
  - exists rest. rewrite Htable. split; [assumption|].
    assert (Hnd : NoDup (mkCoord 0 0 :: rest)).
    { rewrite <- Hrest. eapply Permutation_NoDup; [symmetry; exact Hperm|].
      apply NoDup_offset_grid. }
    now inversion Hnd.
Qed.


End FirstOffset.

(** Once a neighbor has been gathered, the gathering loop leaves the
    first cells of the neighbor arrays alone. *)
Lemma copy_values_first (point : Coord) (ks : list Z) :
  forall s s',
    for_each (copy_value_step point) ks s = Done s' ->
    gather_kept s' = gather_kept s /\ s_neighbors s' = s_neighbors s /\
    neighbor_statuses s' = neighbor_statuses s /\ n_neighbors s' = n_neighbors s.
Proof.
  induction ks as [|k ks IH]; intros s s' H; cbn [for_each] in H.
  - inv_done. auto.
  - inv_done. apply copy_value_step_kept in E as (K & N & S & C & _).
    apply IH in H as (K' & N' & S' & C'). repeat split; congruence.
Qed.

Lemma gather_loop_first (fuel : nat) (parameters : Parameters) (position : Coord)
    (offsets : list Coord) :
  forall s s',
    gather_loop fuel parameters position offsets s = Done s' ->
    1 <= n_neighbors s ->
    1 <= n_neighbors s' /\
    nth_error (s_neighbors s') 0 = nth_error (s_neighbors s) 0 /\
    nth_error (neighbor_statuses s') 0 = nth_error (neighbor_statuses s) 0.
Proof.
  induction offsets as [|offset rest IH]; intros s s' H Hn; cbn [gather_loop] in H.
  - inv_done. auto.
  - inv_done. destruct a as [ok point]. destruct ok; [|now apply IH].
    inv_done. destruct (has_value a); [|now apply IH].
    inv_done. cbn [n_neighbors set_s_neighbors set_neighbor_statuses status] in *.
    apply write_Done in E1 as [R1 ->]. apply write_Done in E2 as [R2 ->].
    apply copy_values_first in E3 as (K & N & S & C).
    cbn [s_neighbors neighbor_statuses n_neighbors set_s_neighbors
         set_neighbor_statuses] in N, S, C.
    assert (Hfirst :
      nth_error (s_neighbors a2) 0 = nth_error (s_neighbors s) 0 /\
      nth_error (neighbor_statuses a2) 0 = nth_error (neighbor_statuses s) 0).
    { rewrite N, S. split; apply nth_error_replace_nth_other; lia. }
    destruct (n_neighbors (set_n_neighbors (n_neighbors a2 + 1) a2) >=? neighbors parameters).
    + inv_done. cbn [n_neighbors s_neighbors neighbor_statuses set_n_neighbors].
      split; [lia|exact Hfirst].
    + apply IH in H; cbn [n_neighbors s_neighbors neighbor_statuses set_n_neighbors] in *;
        [|lia].
      destruct H as (H1 & H2 & H3). destruct Hfirst as [F1 F2].
      split; [assumption|]. split; congruence.
Qed.

(** X14.  When the offset table starts with (0,0), the first neighbor that
    a visit gathers is the pixel visited: the offset in the first cell is
    (0,0), the status pointer beside it designates the status of the
    position, which has its value flag set, and at least one neighbor is
    counted.  (That neighbor is the one [try_point] does not compare.) *)
Theorem gather_first_neighbor_is_self (fuel : nat) (parameters : Parameters)
    (s sg : Resynth_state) (i : Z) (position : Coord) (rest : list Coord) :
  sorted_offsets s = mkCoord 0 0 :: rest ->
  read (data_points s) i = Done position ->
  0 <= cx position < width (data s) -> 0 <= cy position < height (data s) ->
  gather fuel parameters s i = Done (position, sg) ->
  1 <= n_neighbors sg /\
  read (s_neighbors sg) 0 = Done (mkCoord 0 0) /\
  read (neighbor_statuses sg) 0 = Done (Some (image_atc (status s) position)) /\
  exists st, read (status_array sg) (image_atc (status s) position) = Done st /\
             has_value st = true.
Proof.
  intros Hoff Hpos Hx Hy H. unfold gather in H. rewrite Hpos in H. cbn [bind] in H.
  destruct (modify (status_array s) (image_atc (status s) position)
              (fun st => mkStatus true (has_source st) (source st)))
    as [a| |] eqn:Em; cbn [bind] in H; try discriminate.
  apply modify_Done in Em as (st0 & Hi & Hst0 & ->).
  destruct (gather_loop fuel parameters position
              (sorted_offsets (set_n_neighbors 0 (set_status_array _ s)))
              (set_n_neighbors 0 (set_status_array _ s))) as [sg'| |] eqn:Eg;
    cbn [bind] in H; try discriminate.
  injection H as <-.
  pose proof (gather_loop_kept _ _ _ _ _ _ Eg) as Hkept.
  cbn [sorted_offsets set_n_neighbors set_status_array] in Eg. rewrite Hoff in Eg.
  cbn [gather_loop] in Eg. rewrite coord_add_origin in Eg.
  rewrite wrap_or_clip_inside in Eg by (split; assumption). cbn [bind] in Eg.
  cbn [status status_array set_n_neighbors set_status_array] in Eg.
  assert (Hread :
    read (replace_nth (Z.to_nat (image_atc (status s) position))
            (mkStatus true (has_source st0) (source st0)) (status_array s))
         (image_atc (status s) position) =
    Done (mkStatus true (has_source st0) (source st0))).
  { apply read_Done. rewrite length_replace_nth. split; [assumption|].
    apply nth_error_replace_nth_same. lia. }
  rewrite Hread in Eg. cbn [bind has_value] in Eg.
  cbn [s_neighbors n_neighbors set_n_neighbors set_status_array] in Eg.
  destruct (write (s_neighbors s) 0 (mkCoord 0 0)) as [nb| |] eqn:E1;
    cbn [bind] in Eg; try discriminate.
  cbn [neighbor_statuses n_neighbors set_s_neighbors set_n_neighbors
       set_status_array status] in Eg.
  destruct (write (neighbor_statuses s) 0 (Some (image_atc (status s) position)))
    as [ns| |] eqn:E2; cbn [bind] in Eg; try discriminate.
  match type of Eg with
  | bind (for_each ?f ?l ?s0) _ = _ =>
      destruct (for_each f l s0) as [sc| |] eqn:E3; cbn [bind] in Eg; try discriminate
  end.
  apply copy_values_first in E3 as (K & N & S & C).
  cbn [s_neighbors neighbor_statuses n_neighbors set_neighbor_statuses set_s_neighbors
       set_n_neighbors set_status_array] in N, S, C.
  apply write_Done in E1 as [R1 ->]. apply write_Done in E2 as [R2 ->].
  assert (Hcells :
    nth_error (s_neighbors (set_n_neighbors (n_neighbors sc + 1) sc)) 0 =
      Some (mkCoord 0 0) /\
    nth_error (neighbor_statuses (set_n_neighbors (n_neighbors sc + 1) sc)) 0 =
      Some (Some (image_atc (status s) position))).
  { cbn [s_neighbors neighbor_statuses set_n_neighbors]. rewrite N, S.
    split; apply nth_error_replace_nth_same; lia. }
  assert (Hstatus : status_array sg' =
    replace_nth (Z.to_nat (image_atc (status s) position))
      (mkStatus true (has_source st0) (source st0)) (status_array s)).
  { unfold gather_kept in Hkept.
    cbn [status_array set_n_neighbors set_status_array] in Hkept. congruence. }
  assert (Hresult :
    1 <= n_neighbors sg' /\
    nth_error (s_neighbors sg') 0 = Some (mkCoord 0 0) /\
    nth_error (neighbor_statuses sg') 0 = Some (Some (image_atc (status s) position))).
  { destruct Hcells as [C1 C2].
    destruct (n_neighbors sc + 1 >=? neighbors parameters).
    - injection Eg as <-. cbn [n_neighbors set_n_neighbors]. rewrite C.
      split; [lia|]. split; assumption.
    - apply gather_loop_first in Eg;
        [|cbn [n_neighbors set_n_neighbors]; rewrite C; lia].
      destruct Eg as (G1 & G2 & G3). split; [assumption|]. split; congruence. }
  destruct Hresult as (Hn & Hnb & Hns).
  split; [assumption|].
  assert (Hlen : forall A (l : list A) a, nth_error l 0 = Some a -> read l 0 = Done a).
  { intros A l a Hl. apply read_Done. split; [|exact Hl].
    destruct l; [discriminate|]. simpl. lia. }
  split; [now apply Hlen|]. split; [now apply Hlen|].
  exists (mkStatus true (has_source st0) (source st0)). split; [|reflexivity].
  now rewrite Hstatus.
Qed.
(** ** What a visit does to the output *)

Lemma read_same_cell {A : Type} (l l' : list A) (i : Z) (v : A) :
  nth_error l' (Z.to_nat i) = nth_error l (Z.to_nat i) ->
  read l i = Done v -> read l' i = Done v.
Proof.
  intros Hc Hr. apply read_Done in Hr as [Hi Hv]. apply read_Done.
  rewrite Hc. split; [|assumption].
  assert (Hlt : (Z.to_nat i < length l')%nat) by (apply nth_error_Some; congruence).
  lia.
Qed.

(** The gathering part of a visit: the position is read, its value flag
    is set, and the fields of [gather_kept] stay as they are. *)
Lemma gather_effect (fuel : nat) (parameters : Parameters) (s sg : Resynth_state)
    (i : Z) (position : Coord) :
  gather fuel parameters s i = Done (position, sg) ->
  exists st,
    read (data_points s) i = Done position /\
    0 <= image_atc (status s) position < Z.of_nat (length (status_array s)) /\
    nth_error (status_array s) (Z.to_nat (image_atc (status s) position)) = Some st /\
    gather_kept sg =
    gather_kept
      (set_status_array
         (replace_nth (Z.to_nat (image_atc (status s) position))
                      (mkStatus true (has_source st) (source st)) (status_array s)) s).
Proof.
  unfold gather. intros H.
  destruct (read (data_points s) i) as [p| |]; cbn [bind] in H; try discriminate.
  destruct (modify (status_array s) (image_atc (status s) p) _) as [a| |] eqn:M;
    cbn [bind] in H; try discriminate.
  cbv zeta in H.
  destruct (gather_loop fuel parameters p _ _) as [sg'| |] eqn:GL;
    cbn [bind] in H; try discriminate.
  injection H as -> ->.
  apply gather_loop_kept in GL.
  apply modify_Done in M as (st & Hi & Hst & ->).
  exists st. split; [reflexivity|]. split; [assumption|]. split; [assumption|].
  rewrite GL. reflexivity.
Qed.

(** The committing part: the input bytes of the pixel at the position
    are those of the corpus pixel at [best_point], and no other cell of
    the output changes. *)
Lemma commit_data (position : Coord) (s s' : Resynth_state) :
  commit position s = Done s' ->
  (forall j, 0 <= j < input_bytes s ->
     exists v,
       read (corpus_array s) (image_atc (corpus s) (best_point s) + j) = Done v /\
       read (data_array s') (image_atc (data s) position + j) = Done v) /\
  (forall k,
     (forall j, 0 <= j < input_bytes s -> Z.of_nat k <> image_atc (data s) position + j) ->
     nth_error (data_array s') k = nth_error (data_array s) k).
Proof.
  unfold commit. intros H.
  destruct (for_each (commit_step position) (zrange 0 (input_bytes s)) s)
    as [sc| |] eqn:C; cbn [bind] in H; try discriminate.
  destruct (modify (status_array sc) _ _) as [a1| |]; cbn [bind] in H; try discriminate.
  destruct (modify a1 _ _) as [a2| |]; cbn [bind] in H; try discriminate.
  injection H as <-. cbn [data_array set_status_array].
  apply commit_steps_data in C as (Hset & Hother & _); [|apply NoDup_zrange].
  split.
  - intros j Hj. apply Hset. apply in_zrange. lia.
  - intros k Hk. apply Hother. intros j Hj. apply Hk. apply in_zrange in Hj. lia.
Qed.

Section VisitEffect.

Variable rand : nat -> nat.
Variable fuel : nat.
Variable parameters : Parameters.

Lemma visit_parts (s s' : Resynth_state) (i : Z) :
  visit rand fuel parameters s i = Done s' ->
  exists position sg ss,
    gather fuel parameters s i = Done (position, sg) /\
    search rand parameters i sg = Done ss /\
    commit position ss = Done s'.
Proof.
  unfold visit. intros H.
  destruct (gather fuel parameters s i) as [[position sg]| |]; cbn [bind] in H;
    try discriminate.
  destruct (search rand parameters i sg) as [ss| |] eqn:S; cbn [bind] in H;
    try discriminate.
  now exists position, sg, ss.
Qed.

(** What a completed visit has done to the output pixels. *)
Lemma visit_data (s s' : Resynth_state) (i : Z) :
  visit rand fuel parameters s i = Done s' ->
  exists position,
    read (data_points s) i = Done position /\
    (forall j, 0 <= j < input_bytes s ->
       exists v,
         read (corpus_array s) (image_atc (corpus s) (best_point s') + j) = Done v /\
         read (data_array s') (image_atc (data s) position + j) = Done v) /\
    (forall k,
       (forall j, 0 <= j < input_bytes s -> Z.of_nat k <> image_atc (data s) position + j) ->
       nth_error (data_array s') k = nth_error (data_array s) k).
Proof.
  intros H. apply visit_parts in H as (position & sg & ss & G & S & C).
  apply gather_effect in G as (st & Hpos & _ & _ & KG).
  apply search_kept_search in S as [KS _].
  pose proof (commit_status _ _ _ C) as (_ & _ & _ & _ & _ & B & _).
  apply commit_data in C as [Hset Hother].
  unfold gather_kept in KG. cbn in KG. unfold search_kept in KS.
  assert (Hca : corpus_array ss = corpus_array s) by congruence.
  assert (Hc : corpus ss = corpus s) by congruence.
  assert (Hd : data ss = data s) by congruence.
  assert (Hib : input_bytes ss = input_bytes s) by congruence.
  assert (Hda : data_array ss = data_array s) by congruence.
  clear KG KS.
  rewrite Hca, Hc, Hd, Hib, <- B in Hset. rewrite Hd, Hib, Hda in Hother.
  exists position. auto.
Qed.

Lemma visit_sources_copied (s s' : Resynth_state) (i : Z) :
  visit rand fuel parameters s i = Done s' ->
  status s = mkImage (width (data s)) (height (data s)) 1 ->
  input_bytes s <= depth (data s) ->
  sources_copied s -> sources_copied s'.
Proof.
  intros H Hst Hdepth Q.
  pose proof (visit_status _ _ _ _ _ _ H)
    as (position & st0 & Hpos & Hidx & Hst0 & Harr & K & _).
  apply visit_data in H as (position' & Hpos' & Hset & Hother).
  assert (position' = position) by congruence. subst position'.
  unfold visit_kept in K.
  assert (Hca : corpus_array s' = corpus_array s) by congruence.
  assert (Hc : corpus s' = corpus s) by congruence.
  assert (Hd : data s' = data s) by congruence.
  assert (Hib : input_bytes s' = input_bytes s) by congruence.
  clear K.
  assert (Hcell : image_atc (data s) position =
                  image_atc (status s) position * depth (data s)).
  { rewrite Hst. unfold image_atc, image_at. cbn [width depth]. ring. }
  intros k st Hk Hsrc j Hj. rewrite Hca, Hc, Hd. rewrite Hib in Hj.
  rewrite Harr in Hk.
  destruct (Nat.eq_dec k (Z.to_nat (image_atc (status s) position))) as [->|Hne].
  - rewrite nth_error_replace_nth_same in Hk by lia. injection Hk as <-.
    cbn [source]. destruct (Hset j Hj) as (v & Hv & Hw). exists v. split; [assumption|].
    rewrite Z2Nat.id by lia. now rewrite <- Hcell.
  - rewrite nth_error_replace_nth_other in Hk by assumption.
    destruct (Q k st Hk Hsrc j Hj) as (v & Hv & Hw). exists v. split; [assumption|].
    eapply read_same_cell; [|exact Hw].
    apply Hother. intros j' Hj'. rewrite Hcell.
    apply read_Done in Hw as [Hw _]. rewrite Z2Nat.id by lia.
    assert (Hk' : Z.of_nat k <> image_atc (status s) position) by lia.
    nia.
Qed.

(** The main loop: the fields that no visit writes, the pixels visited
    have a source, a pixel that has a source keeps one, and the bytes of
    the pixels that have a source are those of the corpus. *)
Lemma visit_loop_sources (l : list Z) :
  forall s s',
    for_each (visit rand fuel parameters) l s = Done s' ->
    status s = mkImage (width (data s)) (height (data s)) 1 ->
    input_bytes s <= depth (data s) ->
    sources_copied s ->
    visit_kept s' = visit_kept s /\
    sources_copied s' /\
    (forall k st, nth_error (status_array s) k = Some st -> has_source st = true ->
       exists st', nth_error (status_array s') k = Some st' /\ has_source st' = true) /\
    (forall i, In i l ->
       exists position st',
         read (data_points s) i = Done position /\
         nth_error (status_array s') (Z.to_nat (image_atc (status s) position)) = Some st' /\
         has_source st' = true).
Proof.
  induction l as [|i l IH]; intros s s' H Hst Hdepth Q; cbn [for_each] in H.
  - inv_done. split; [reflexivity|]. split; [assumption|]. split.
    + intros k st Hk Hr. now exists st.
    + intros i [].
  - inv_done. rename a into s1.
    pose proof (visit_sources_copied _ _ _ E Hst Hdepth Q) as Q1.
    apply visit_status in E as (position & st & Hpos & Hidx & Hst0 & Harr & K & _).
    assert (Hd : data s1 = data s) by (unfold visit_kept in K; congruence).
    assert (Hp : data_points s1 = data_points s) by (unfold visit_kept in K; congruence).
    assert (Hs : status s1 = status s) by (unfold visit_kept in K; congruence).
    assert (Hib : input_bytes s1 = input_bytes s) by (unfold visit_kept in K; congruence).
    specialize (IH s1 s' H). rewrite Hd, Hp, Hs, Hib in IH.
    destruct (IH Hst Hdepth Q1) as (K' & Q' & Keep & Seen).
    assert (Keep1 : forall k st0, nth_error (status_array s) k = Some st0 ->
              has_source st0 = true ->
              exists st1, nth_error (status_array s1) k = Some st1 /\
                          has_source st1 = true).
    { intros k st0 Hk Hr. rewrite Harr.
      destruct (Nat.eq_dec k (Z.to_nat (image_atc (status s) position))) as [->|Hne].
      - eexists. split; [apply nth_error_replace_nth_same; lia|reflexivity].
      - exists st0. split; [|assumption].
        now rewrite nth_error_replace_nth_other. }
    split; [congruence|]. split; [assumption|]. split.
    + intros k st0 Hk Hr. destruct (Keep1 k st0 Hk Hr) as (st1 & Hk1 & Hr1).
      now apply (Keep k st1).
    + intros j [<-|Hj].
      * exists position.
        assert (Hcell : nth_error (status_array s1)
                          (Z.to_nat (image_atc (status s) position)) =
                        Some (mkStatus true true (best_point s1))).
        { rewrite Harr. apply nth_error_replace_nth_same. lia. }
        destruct (Keep _ _ Hcell eq_refl) as (st' & Hst' & Hr').
        exists st'. auto.
      * now apply Seen.
Qed.

End VisitEffect.

(** ** What a run does to its input and to the output *)

Lemma nth_error_repeat_Some {A : Type} (a b : A) (n k : nat) :
  nth_error (repeat a n) k = Some b -> b = a.
Proof.
  intros H. apply nth_error_In in H. now apply repeat_spec in H.
Qed.

Section RunEffect.

Variable qsort : (Coord -> Coord -> Z) -> list Coord -> list Coord.
Variable rand : nat -> nat.

(** The state that the main loop starts from, whatever the polish loop
    has done. *)
Lemma main_loop_start (fuel : nat) (s s3 : Resynth_state) (n3 : nat)
    (parameters : Parameters) :
  polish_loop rand fuel fuel parameters
    (Z.of_nat (length (grid (width (data s)) (height (data s)))))
    0 0 (scheduled_state qsort s parameters) = Done (n3, s3) ->
  visit_kept (tried_state s3) =
    (input_bytes s, data s, corpus s, mkImage (width (data s)) (height (data s)) 1,
     corpus_array s, data_points s3, grid (width (corpus s)) (height (corpus s)),
     qsort coord_compare
       (offset_grid (Z.min (width (corpus s)) (width (data s)))
                    (Z.min (height (corpus s)) (height (data s)))),
     mkImage (width (corpus s)) (height (corpus s)) 1,
     make_diff_table (autism parameters), stderr s,
     length (MEMORY Status_zero (width (data s) * height (data s) * 1)),
     length (data_array s),
     length (MEMORY 0 (width (corpus s) * height (corpus s) * 1))) /\
  status_array (tried_state s3) =
    MEMORY Status_zero (width (data s) * height (data s) * 1) /\
  data_array (tried_state s3) = data_array s /\
  (forall c, In c (data_points s3) <-> In c (grid (width (data s)) (height (data s)))).
Proof.
  intros E0. apply polish_loop_rescheduled in E0 as [K Same].
  unfold schedule_kept in K.
  assert (H1 : input_bytes s3 = input_bytes s) by (transitivity (input_bytes (scheduled_state qsort s parameters)); [congruence|reflexivity]).
  assert (H2 : data s3 = data s) by (transitivity (data (scheduled_state qsort s parameters)); [congruence|reflexivity]).
  assert (H3 : corpus s3 = corpus s) by (transitivity (corpus (scheduled_state qsort s parameters)); [congruence|reflexivity]).
  assert (H4 : status s3 = mkImage (width (data s)) (height (data s)) 1) by (transitivity (status (scheduled_state qsort s parameters)); [congruence|reflexivity]).
  assert (H5 : corpus_array s3 = corpus_array s) by (transitivity (corpus_array (scheduled_state qsort s parameters)); [congruence|reflexivity]).
  assert (H6 : corpus_points s3 = grid (width (corpus s)) (height (corpus s))) by (transitivity (corpus_points (scheduled_state qsort s parameters)); [congruence|reflexivity]).
  assert (H7 : sorted_offsets s3 = sorted_offsets (scheduled_state qsort s parameters)) by congruence.
  assert (H8 : diff_table s3 = make_diff_table (autism parameters)) by (transitivity (diff_table (scheduled_state qsort s parameters)); [congruence|reflexivity]).
  assert (H9 : stderr s3 = stderr s) by (transitivity (stderr (scheduled_state qsort s parameters)); [congruence|reflexivity]).
  assert (H10 : status_array s3 = MEMORY Status_zero (width (data s) * height (data s) * 1)) by (transitivity (status_array (scheduled_state qsort s parameters)); [congruence|reflexivity]).
  assert (H11 : data_array s3 = data_array s) by (transitivity (data_array (scheduled_state qsort s parameters)); [congruence|reflexivity]).
  clear K.
  unfold visit_kept, tried_state.
  cbn [input_bytes data corpus status corpus_array data_points corpus_points
       sorted_offsets tried diff_table stderr status_array data_array tried_array
       set_tried set_tried_array].
  rewrite H1, H2, H3, H4, H5, H6, H7, H8, H9, H10, H11, length_map.
  split; [reflexivity|]. split; [reflexivity|]. split; [reflexivity|exact Same].
Qed.

(** The fields that a finished run has not changed. *)
Lemma run_Done_kept (fuel : nat) (s s' : Resynth_state)
    (parameters : Parameters) :
  run qsort rand fuel s parameters = Done s' ->
  corpus s' = corpus s /\ corpus_array s' = corpus_array s /\
  input_bytes s' = input_bytes s /\
  data s' = data s /\ length (data_array s') = length (data_array s) /\
  status s' = mkImage (width (data s)) (height (data s)) 1.
Proof.
  intros Hrun. apply run_Done in Hrun as [n E].
  destruct (sizes_invalid (setup_state s parameters)) eqn:Hsz.
  - rewrite run_counting_invalid in E by assumption. injection E as _ <-.
    repeat split; reflexivity.
  - apply run_counting_Done in E as (s3 & E0 & E1); [|assumption].
    apply main_loop_start in E0 as (K0 & _).
    assert (K : visit_kept s' = visit_kept (tried_state s3)).
    { revert E1.
      apply for_each_invariant
        with (P := fun t => visit_kept t = visit_kept (tried_state s3)).
      - intros t i t' _ Ht Hv. apply visit_status in Hv as (_ & _ & _ & _ & _ & _ & Kv & _).
        congruence.
      - reflexivity. }
    rewrite K0 in K. unfold visit_kept in K.
    repeat split; congruence.
Qed.

(** X15.  A run that finishes has left its input alone: the corpus and
    its pixels, the number of input bytes, and the dimensions and the size
    of the output image are what they were on entry. *)
Theorem run_keeps_its_input (fuel : nat) (s s' : Resynth_state)
    (parameters : Parameters) :
  run qsort rand fuel s parameters = Done s' ->
  corpus s' = corpus s /\ corpus_array s' = corpus_array s /\
  input_bytes s' = input_bytes s /\
  data s' = data s /\ length (data_array s') = length (data_array s) /\
  status s' = mkImage (width (data s)) (height (data s)) 1.
Proof. exact (run_Done_kept fuel s s' parameters). Qed.

(** What a finished run has done to the output. *)
Lemma run_Done_sources (fuel : nat) (s s' : Resynth_state)
    (parameters : Parameters) :
  0 < width (corpus s) -> 0 < height (corpus s) ->
  0 < width (data s) -> 0 < height (data s) ->
  input_bytes s <= depth (data s) ->
  run qsort rand fuel s parameters = Done s' ->
  forall x y, 0 <= x < width (data s) -> 0 <= y < height (data s) ->
    exists st,
      read (status_array s') (image_at (status s') x y) = Done st /\
      has_source st = true /\
      forall j, 0 <= j < input_bytes s ->
        exists v,
          read (corpus_array s) (image_atc (corpus s) (source st) + j) = Done v /\
          read (data_array s') (image_at (data s) x y + j) = Done v.
Proof.
  intros Hcw Hch Hdw Hdh Hdepth Hrun x y Hx Hy.
  apply run_Done in Hrun as [n E].
  apply run_counting_Done in E as (s3 & E0 & E1); [|now apply sizes_valid].
  apply main_loop_start in E0 as (K0 & Hsa & Hda & Same).
  assert (Hst3 : status (tried_state s3) =
                 mkImage (width (data (tried_state s3))) (height (data (tried_state s3))) 1).
  { unfold visit_kept in K0.
    assert (Hd : data (tried_state s3) = data s) by congruence.
    assert (Hs : status (tried_state s3) = mkImage (width (data s)) (height (data s)) 1)
      by congruence.
    now rewrite Hd, Hs. }
  assert (Hib3 : input_bytes (tried_state s3) <= depth (data (tried_state s3))).
  { unfold visit_kept in K0.
    assert (Hd : data (tried_state s3) = data s) by congruence.
    assert (Hi : input_bytes (tried_state s3) = input_bytes s) by congruence.
    now rewrite Hd, Hi. }
  assert (Q3 : sources_copied (tried_state s3)).
  { intros k st Hk Hsrc. rewrite Hsa in Hk. unfold MEMORY in Hk.
    apply nth_error_repeat_Some in Hk. subst st. discriminate. }
  destruct (visit_loop_sources rand fuel parameters _ _ _ E1 Hst3 Hib3 Q3)
    as (K & Q & _ & Seen).
  rewrite K0 in K. unfold visit_kept in K.
  assert (Hin : In (mkCoord x y) (data_points s3)).
  { apply Same. apply in_grid. cbn [cx cy]. lia. }
  apply In_nth_error in Hin as [k Hk].
  assert (Hklt : (k < length (data_points s3))%nat)
    by (apply nth_error_Some; congruence).
  destruct (Seen (Z.of_nat k)) as (position & st' & Hpos & Hcell & Hsrc).
  { rewrite <- in_rev. apply in_zrange.
    change (data_points (tried_state s3)) with (data_points s3). lia. }
  change (data_points (tried_state s3)) with (data_points s3) in Hpos.
  apply read_Done in Hpos as [_ Hpos]. rewrite Nat2Z.id in Hpos.
  assert (Hp : Some position = Some (mkCoord x y)) by (rewrite <- Hpos; exact Hk).
  injection Hp as ->.
  assert (Hs' : status s' = mkImage (width (data s)) (height (data s)) 1) by congruence.
  assert (Hs3 : status (tried_state s3) = mkImage (width (data s)) (height (data s)) 1)
    by (unfold visit_kept in K0; congruence).
  rewrite Hs3 in Hcell.
  assert (Hidx : image_atc (mkImage (width (data s)) (height (data s)) 1) (mkCoord x y) =
                 image_at (status s') x y) by (rewrite Hs'; reflexivity).
  rewrite Hidx in Hcell.
  assert (H0 : 0 <= image_at (status s') x y).
  { rewrite Hs'. unfold image_at. cbn [width depth]. nia. }
  exists st'. split; [|split; [exact Hsrc|]].
  - apply read_Done. split; [|exact Hcell].
    assert (Hlt : (Z.to_nat (image_at (status s') x y) < length (status_array s'))%nat)
      by (apply nth_error_Some; congruence).
    lia.
  - intros j Hj.
    assert (Hib : input_bytes s' = input_bytes s) by congruence.
    assert (Hca : corpus_array s' = corpus_array s) by congruence.
    assert (Hc : corpus s' = corpus s) by congruence.
    assert (Hd : data s' = data s) by congruence.
    destruct (Q _ _ Hcell Hsrc j) as (v & Hv & Hw); [rewrite Hib; exact Hj|].
    exists v. rewrite Hca, Hc in Hv. split; [exact Hv|].
    rewrite Hd in Hw. rewrite Z2Nat.id in Hw by exact H0.
    replace (image_at (data s) x y) with (image_at (status s') x y * depth (data s));
      [exact Hw|].
    rewrite Hs'. unfold image_at. cbn [width depth]. ring.
Qed.

(** X16.  When a run on images that are not empty finishes, every output
    pixel has a source, and its input bytes are those of the corpus pixel
    at that source: the output is made of pixels of the corpus. *)
Theorem run_output_is_corpus_pixels (fuel : nat) (s s' : Resynth_state)
    (parameters : Parameters) :
  0 < width (corpus s) -> 0 < height (corpus s) ->
  0 < width (data s) -> 0 < height (data s) ->
  input_bytes s <= depth (data s) ->
  run qsort rand fuel s parameters = Done s' ->
  forall x y, 0 <= x < width (data s) -> 0 <= y < height (data s) ->
    exists st,
      read (status_array s') (image_at (status s') x y) = Done st /\
      has_source st = true /\
      forall j, 0 <= j < input_bytes s ->
        exists v,
          read (corpus_array s) (image_atc (corpus s) (source st) + j) = Done v /\
          read (data_array s') (image_at (data s) x y + j) = Done v.
Proof. exact (run_Done_sources fuel s s' parameters). Qed.

End RunEffect.
(** ** The cells of an image *)

Lemma quotient_unique (d a b r r' : Z) :
  0 <= r < d -> 0 <= r' < d -> a * d + r = b * d + r' -> a = b /\ r = r'.
Proof. intros Hr Hr' H. assert (a = b) by nia. subst. lia. Qed.

(** X17.  [image_at] gives each byte of an image a cell of its own inside
    the array.  For an image whose array has at most [INT_MAX] cells, and
    for coordinates and a channel within the image: the offset lies within
    [width * height * depth], no step of its computation leaves the range
    of [int], and two bytes that share an offset are the same byte of the
    same pixel. *)
Theorem image_at_addresses_bytes (image : Image) (x y k x' y' k' : Z) :
  width image * height image * depth image <= INT_MAX ->
  0 <= x < width image -> 0 <= y < height image -> 0 <= k < depth image ->
  0 <= x' < width image -> 0 <= y' < height image -> 0 <= k' < depth image ->
  0 <= image_at image x y + k < width image * height image * depth image /\
  (0 <= y * width image <= INT_MAX /\ 0 <= y * width image + x <= INT_MAX /\
   0 <= image_at image x y <= INT_MAX /\ image_at image x y + k <= INT_MAX) /\
  (image_at image x y + k = image_at image x' y' + k' -> x = x' /\ y = y' /\ k = k').
Proof.
  intros Hfit Hx Hy Hk Hx' Hy' Hk'.
  assert (Hidx : 0 <= image_at image x y + k <
                 width image * height image * depth image)
    by (apply (pixel_index image (mkCoord x y));
        [split; assumption|assumption|reflexivity]).
  split; [exact Hidx|]. split.
  - unfold image_at in *.
    assert (H1 : 0 <= y * width image) by nia.
    assert (H2 : y * width image + x < width image * height image) by nia.
    assert (H3 : width image * height image <=
                 width image * height image * depth image) by nia.
    assert (H4 : 0 <= (y * width image + x) * depth image) by nia.
    lia.
  - unfold image_at. intros H.
    apply quotient_unique in H as [H ->]; [|assumption|assumption].
    apply quotient_unique in H as [-> ->]; auto.
Qed.

(** ** The shuffle and the duplicates *)

Lemma replace_nth_permutation {A : Type} (a b : A) (l : list A) :
  forall j, nth_error l j = Some b -> Permutation (b :: replace_nth j a l) (a :: l).
Proof.
  induction l as [|h t IH]; intros [|j] H; simpl in *; try discriminate.
  - injection H as ->. apply perm_swap.
  - etransitivity; [apply perm_swap|].
    etransitivity; [apply perm_skip, IH, H|]. apply perm_swap.
Qed.

Lemma swap_permutation {A : Type} (a b : A) (l : list A) :
  forall i j, nth_error l i = Some a -> nth_error l j = Some b ->
    Permutation (replace_nth j a (replace_nth i b l)) l.
Proof.
  induction l as [|h t IH]; intros [|i] [|j] Hi Hj; simpl in *; try discriminate.
  - injection Hi as ->. reflexivity.
  - injection Hi as ->. now apply replace_nth_permutation.
  - injection Hj as ->. now apply replace_nth_permutation.
  - apply perm_skip. now apply IH.
Qed.

Section Shuffle.

Variable rand : nat -> nat.

Lemma shuffle_step_permutation (data_area : Z) (s s' : Resynth_state) (i : Z) :
  shuffle_step rand data_area s i = Done s' ->
  Permutation (data_points s') (data_points s) /\
  rand_calls s' = S (rand_calls s).
Proof.
  unfold shuffle_step, call_rand. intros H.
  cbn [data_points set_rand_calls] in H. inv_done.
  cbn [data_points set_data_points rand_calls set_rand_calls].
  apply read_Done in E as [_ E]. apply read_Done in E0 as [_ E0].
  apply write_Done in E1 as [_ ->]. apply write_Done in E2 as [_ ->].
  split; [|reflexivity]. now apply swap_permutation.
Qed.

(** X18.  The shuffle loses no pixel and adds none: after its loop the
    visiting list is a permutation of what it was, and [rand] has been
    called once for each turn of the loop. *)
Theorem shuffle_permutes (data_area : Z) (turns : list Z) (s s' : Resynth_state) :
  for_each (shuffle_step rand data_area) turns s = Done s' ->
  Permutation (data_points s') (data_points s) /\
  rand_calls s' = (rand_calls s + length turns)%nat /\
  schedule_kept s' = schedule_kept s.
Proof.
  revert s. induction turns as [|i turns IH]; intros s H; cbn [for_each] in H.
  - inv_done. split; [reflexivity|]. split; [cbn [length]; lia|reflexivity].
  - inv_done.
    pose proof (shuffle_step_rescheduled rand _ _ _ _ E) as [K _].
    apply shuffle_step_permutation in E as [P R].
    apply IH in H as (P' & R' & K').
    split; [etransitivity; eauto|]. split; [cbn [length]; lia|congruence].
Qed.

End Shuffle.

Lemma duplicate_steps (idx : list Z) :
  forall s s',
    for_each duplicate_step idx s = Done s' ->
    exists extra,
      data_points s' = data_points s ++ extra /\
      length extra = length idx /\
      (forall c, In c extra -> In c (data_points s)) /\
      schedule_kept s' = schedule_kept s.
Proof.
  induction idx as [|i idx IH]; intros s s' H; cbn [for_each] in H.
  - inv_done. exists []. rewrite app_nil_r.
    split; [reflexivity|]. split; [reflexivity|]. split; [intros c []|reflexivity].
  - inv_done. unfold duplicate_step in E. inv_done.
    apply IH in H as (extra & Hd & Hl & Hin & K).
    cbn [data_points push_data_point set_data_points] in Hd, Hin.
    exists (a0 :: extra). split; [rewrite Hd, <- app_assoc; reflexivity|].
    split; [cbn [length]; lia|]. split; [|exact K].
    intros c [<-|Hc]; [eapply read_In; eauto|].
    apply Hin in Hc. apply in_app_or in Hc as [Hc|[<-|[]]]; [assumption|].
    eapply read_In; eauto.
Qed.

Lemma duplicate_steps_Done (idx : list Z) :
  forall s,
    (forall i, In i idx -> 0 <= i < Z.of_nat (length (data_points s))) ->
    exists s', for_each duplicate_step idx s = Done s'.
Proof.
  induction idx as [|i idx IH]; intros s Hidx; cbn [for_each].
  - now exists s.
  - unfold duplicate_step at 1.
    rewrite (read_nth _ _ (mkCoord 0 0)) by (apply Hidx; now left). cbn [bind].
    apply IH. intros j Hj. cbn [data_points push_data_point set_data_points].
    rewrite length_app. specialize (Hidx j (or_intror Hj)). lia.
Qed.

(** X19.  With [magic] in [0,255], as [main] clamps it, the loop of the
    duplicates terminates: from a count [n] of at most the length of the
    visiting list it needs no more than [n] turns.  It appends copies of
    pixels of the list and nothing else, at most [magic / (256 - magic)]
    of them for each of the [n] pixels. *)
Theorem magic_loop_terminates (parameters : Parameters) :
  0 <= magic parameters <= 255 ->
  forall fuel n s,
    0 <= n <= Z.of_nat (length (data_points s)) -> n <= Z.of_nat fuel ->
    exists s' extra,
      magic_loop fuel parameters n s = Done s' /\
      data_points s' = data_points s ++ extra /\
      (forall c, In c extra -> In c (data_points s)) /\
      (256 - magic parameters) * Z.of_nat (length extra) <= magic parameters * n /\
      schedule_kept s' = schedule_kept s.
Proof.
  intros Hm. induction fuel as [|fuel IH]; intros n s Hn Hf.
  - assert (n = 0) by lia. subst n. exists s, []. cbn [magic_loop].
    rewrite app_nil_r. cbn [length].
    split; [reflexivity|]. split; [reflexivity|]. split; [intros c []|].
    split; [lia|reflexivity].
  - cbn [magic_loop]. destruct (Z.gtb_spec n 0) as [Hpos|Hz].
    + set (n' := Z.quot (n * magic parameters) 256).
      assert (Hq : n' = n * magic parameters / 256)
        by (apply Z.quot_div_nonneg; nia).
      assert (Hn' : 0 <= n' < n).
      { rewrite Hq. split; [apply Z.div_pos; nia|].
        apply Z.div_lt_upper_bound; nia. }
      assert (H256 : 256 * n' <= magic parameters * n).
      { rewrite Hq. rewrite (Z.mul_comm (magic parameters) n).
        apply Z.mul_div_le. lia. }
      destruct (duplicate_steps_Done (zrange 0 n') s) as [s1 E1].
      { intros i Hi. apply in_zrange in Hi. lia. }
      rewrite E1. cbn [bind].
      apply duplicate_steps in E1 as (e1 & Hd1 & Hl1 & Hin1 & K1).
      rewrite length_zrange, Z.sub_0_r in Hl1.
      destruct (IH n' s1) as (s' & e2 & E2 & Hd2 & Hin2 & Hb2 & K2).
      { rewrite Hd1, length_app. lia. }
      { lia. }
      exists s', (e1 ++ e2). split; [exact E2|].
      split; [rewrite Hd2, Hd1, app_assoc; reflexivity|]. split; [|split].
      * intros c Hc. apply in_app_or in Hc as [Hc|Hc]; [now apply Hin1|].
        apply Hin2 in Hc. rewrite Hd1 in Hc.
        apply in_app_or in Hc as [Hc|Hc]; [assumption|now apply Hin1].
      * rewrite length_app, Nat2Z.inj_add, Hl1, Z2Nat.id by lia. nia.
      * congruence.
    + exists s, []. rewrite app_nil_r. cbn [length].
      split; [reflexivity|]. split; [reflexivity|]. split; [intros c []|].
      split; [lia|reflexivity].
Qed.
(** ** One file of [main] *)



Section MainFile.

Variable qsort : (Coord -> Coord -> Z) -> list Coord -> list Coord.
Variable rand : nat -> nat.

Hypothesis qsort_permutation :
  forall cmp l, Permutation (qsort cmp l) l.


End MainFile.

(** ** The end of [main] *)

Lemma copy_values_lengths (point : Coord) (ks : list Z) :
  forall s s',
    for_each (copy_value_step point) ks s = Done s' ->
    length (neighbor_values s') = length (neighbor_values s).
Proof.
  induction ks as [|k ks IH]; intros s s' H; cbn [for_each] in H.
  - now inv_done.
  - inv_done. apply copy_value_step_kept in E as (_ & _ & _ & _ & L).
    apply IH in H. congruence.
Qed.

Lemma gather_loop_lengths (fuel : nat) (parameters : Parameters) (position : Coord)
    (offsets : list Coord) :
  forall s s',
    gather_loop fuel parameters position offsets s = Done s' ->
    length (s_neighbors s') = length (s_neighbors s) /\
    length (neighbor_values s') = length (neighbor_values s) /\
    length (neighbor_statuses s') = length (neighbor_statuses s).
Proof.
  induction offsets as [|offset rest IH]; intros s s' H; cbn [gather_loop] in H.
  - inv_done. auto.
  - inv_done. destruct a as [ok point]. destruct ok; [|now apply IH].
    inv_done. destruct (has_value a); [|now apply IH].
    inv_done. cbn [n_neighbors set_s_neighbors set_neighbor_statuses status] in *.
    apply write_Done in E1 as [_ ->]. apply write_Done in E2 as [_ ->].
    pose proof (copy_values_lengths _ _ _ _ E3) as L.
    apply copy_values_first in E3 as (_ & N & S & _).
    cbn [s_neighbors neighbor_statuses neighbor_values set_s_neighbors
         set_neighbor_statuses] in N, S, L.
    assert (Hl : length (s_neighbors a2) = length (s_neighbors s) /\
                 length (neighbor_values a2) = length (neighbor_values s) /\
                 length (neighbor_statuses a2) = length (neighbor_statuses s)).
    { rewrite N, S, L, !length_replace_nth. auto. }
    destruct (n_neighbors (set_n_neighbors (n_neighbors a2 + 1) a2) >=? neighbors parameters).
    + inv_done. exact Hl.
    + apply IH in H. cbn [s_neighbors neighbor_values neighbor_statuses set_n_neighbors] in H.
      destruct H as (H1 & H2 & H3). destruct Hl as (L1 & L2 & L3).
      repeat split; congruence.
Qed.

Section StateFree.

Variable qsort : (Coord -> Coord -> Z) -> list Coord -> list Coord.
Variable rand : nat -> nat.

Lemma visit_neighbor_lengths (fuel : nat) (parameters : Parameters)
    (s s' : Resynth_state) (i : Z) :
  visit rand fuel parameters s i = Done s' ->
  length (s_neighbors s') = length (s_neighbors s) /\
  length (neighbor_values s') = length (neighbor_values s) /\
  length (neighbor_statuses s') = length (neighbor_statuses s).
Proof.
  intros H. apply visit_parts in H as (position & sg & ss & G & S & C).
  unfold gather in G.
  destruct (read (data_points s) i) as [p| |]; cbn [bind] in G; try discriminate.
  destruct (modify (status_array s) (image_atc (status s) p) _) as [a| |];
    cbn [bind] in G; try discriminate.
  cbv zeta in G.
  destruct (gather_loop fuel parameters p _ _) as [sg'| |] eqn:GL;
    cbn [bind] in G; try discriminate.
  injection G as -> ->.
  apply gather_loop_lengths in GL.
  cbn [s_neighbors neighbor_values neighbor_statuses set_n_neighbors set_status_array]
    in GL.
  apply search_kept_search in S as [KS _]. unfold search_kept in KS.
  pose proof (commit_status _ _ _ C) as _.
  unfold commit in C.
  destruct (for_each (commit_step position) _ ss) as [sc| |] eqn:CS;
    cbn [bind] in C; try discriminate.
  assert (KC : commit_kept sc = commit_kept ss).
  { revert CS. apply for_each_invariant with (P := fun t => commit_kept t = commit_kept ss).
    - intros t j t' _ Ht Hstep. apply commit_step_kept in Hstep. congruence.
    - reflexivity. }
  destruct (modify (status_array sc) _ _) as [a1| |]; cbn [bind] in C; try discriminate.
  destruct (modify a1 _ _) as [a2| |]; cbn [bind] in C; try discriminate.
  injection C as <-.
  cbn [s_neighbors neighbor_values neighbor_statuses set_status_array].
  unfold commit_kept in KC.
  assert (H1 : s_neighbors sc = s_neighbors sg) by congruence.
  assert (H2 : neighbor_values sc = neighbor_values sg) by congruence.
  assert (H3 : neighbor_statuses sc = neighbor_statuses sg) by congruence.
  rewrite H1, H2, H3. exact GL.
Qed.

(** X22.  [state_free] after a finished run: the eight buffers that it
    names are released, and the three neighbor arrays, which it does not
    name, still have the [neighbors] cells that [run] allocated. *)
Theorem state_free_leaves_neighbor_arrays (fuel : nat) (s s' : Resynth_state)
    (parameters : Parameters) :
  run qsort rand fuel s parameters = Done s' ->
  (data_points (state_free s') = [] /\ corpus_points (state_free s') = [] /\
   sorted_offsets (state_free s') = [] /\ diff_table (state_free s') = [] /\
   data_array (state_free s') = [] /\ corpus_array (state_free s') = [] /\
   status_array (state_free s') = [] /\ tried_array (state_free s') = []) /\
  length (s_neighbors (state_free s')) = Z.to_nat (neighbors parameters) /\
  length (neighbor_values (state_free s')) = Z.to_nat (neighbors parameters) /\
  length (neighbor_statuses (state_free s')) = Z.to_nat (neighbors parameters).
Proof.
  intros Hrun. split; [repeat split; reflexivity|].
  change (s_neighbors (state_free s')) with (s_neighbors s').
  change (neighbor_values (state_free s')) with (neighbor_values s').
  change (neighbor_statuses (state_free s')) with (neighbor_statuses s').
  apply run_Done in Hrun as [n E].
  destruct (sizes_invalid (setup_state s parameters)) eqn:Hsz.
  - rewrite run_counting_invalid in E by assumption. injection E as _ <-.
    cbn. unfold MEMORY. now rewrite !repeat_length.
  - apply run_counting_Done in E as (s3 & E0 & E1); [|assumption].
    apply polish_loop_rescheduled in E0 as [K _]. unfold schedule_kept in K.
    assert (H1 : s_neighbors (tried_state s3) =
                 MEMORY (mkCoord 0 0) (neighbors parameters))
      by (transitivity (s_neighbors (scheduled_state qsort s parameters));
          [change (s_neighbors (tried_state s3)) with (s_neighbors s3); congruence
          |reflexivity]).
    assert (H2 : neighbor_values (tried_state s3) =
                 MEMORY Pixel32_zero (neighbors parameters))
      by (transitivity (neighbor_values (scheduled_state qsort s parameters));
          [change (neighbor_values (tried_state s3)) with (neighbor_values s3); congruence
          |reflexivity]).
    assert (H3 : neighbor_statuses (tried_state s3) =
                 MEMORY None (neighbors parameters))
      by (transitivity (neighbor_statuses (scheduled_state qsort s parameters));
          [change (neighbor_statuses (tried_state s3)) with (neighbor_statuses s3); congruence
          |reflexivity]).
    clear K.
    assert (L : length (s_neighbors s') = length (s_neighbors (tried_state s3)) /\
                length (neighbor_values s') = length (neighbor_values (tried_state s3)) /\
                length (neighbor_statuses s') = length (neighbor_statuses (tried_state s3))).
    { revert E1.
      apply for_each_invariant
        with (P := fun t =>
                length (s_neighbors t) = length (s_neighbors (tried_state s3)) /\
                length (neighbor_values t) = length (neighbor_values (tried_state s3)) /\
                length (neighbor_statuses t) = length (neighbor_statuses (tried_state s3))).
      - intros t i t' _ (L1 & L2 & L3) Hv.
        apply visit_neighbor_lengths in Hv as (V1 & V2 & V3).
        repeat split; congruence.
      - auto. }
    destruct L as (L1 & L2 & L3). rewrite L1, L2, L3, H1, H2, H3.
    unfold MEMORY. now rewrite !repeat_length.
Qed.

End StateFree.
(** ** A neighbor is not the pixel visited *)

Lemma wrap_below_congruent (tile : bool) (dim : Z) :
  forall fuel v ok r, wrap_below fuel tile dim v = Done (ok, r) -> r mod dim = v mod dim.
Proof.
  induction fuel as [|fuel IH]; intros v ok r H; cbn [wrap_below] in H;
    destruct (v <? 0); destruct tile; try discriminate;
    try (injection H as _ <-; reflexivity).
  apply IH in H. rewrite H. replace (v + dim) with (v + 1 * dim) by lia.
  apply Z_mod_plus_full.
Qed.

Lemma wrap_above_congruent (tile : bool) (dim : Z) :
  forall fuel v ok r, wrap_above fuel tile dim v = Done (ok, r) -> r mod dim = v mod dim.
Proof.
  induction fuel as [|fuel IH]; intros v ok r H; cbn [wrap_above] in H;
    destruct (v >=? dim); destruct tile; try discriminate;
    try (injection H as _ <-; reflexivity).
  apply IH in H. rewrite H. replace (v - dim) with (v + (-1) * dim) by lia.
  apply Z_mod_plus_full.
Qed.

Lemma wrap_or_clip_congruent (fuel : nat) (parameters : Parameters) (image : Image)
    (point point' : Coord) :
  wrap_or_clip fuel parameters image point = Done (true, point') ->
  cx point' mod width image = cx point mod width image /\
  cy point' mod height image = cy point mod height image.
Proof.
  intros H. unfold wrap_or_clip in H.
  destruct (wrap_below fuel (h_tile parameters) (width image) (cx point))
    as [[ok1 x1]| |] eqn:E1; cbn [bind] in H; try discriminate.
  destruct ok1; cbn [negb] in H; [|discriminate].
  destruct (wrap_above fuel (h_tile parameters) (width image) x1)
    as [[ok2 x2]| |] eqn:E2; cbn [bind] in H; try discriminate.
  destruct ok2; cbn [negb] in H; [|discriminate].
  destruct (wrap_below fuel (v_tile parameters) (height image) (cy point))
    as [[ok3 y3]| |] eqn:E3; cbn [bind] in H; try discriminate.
  destruct ok3; cbn [negb] in H; [|discriminate].
  destruct (wrap_above fuel (v_tile parameters) (height image) y3)
    as [[ok4 y4]| |] eqn:E4; cbn [bind] in H; try discriminate.
  destruct ok4; cbn [negb] in H; [|discriminate].
  injection H as <-. cbn [cx cy].
  apply wrap_below_congruent in E1, E3. apply wrap_above_congruent in E2, E4.
  split; congruence.
Qed.

Lemma congruent_small (a b w : Z) :
  0 < w -> Z.abs b < w -> (a + b) mod w = a mod w -> b = 0.
Proof.
  intros Hw Hb H.
  pose proof (Z.div_mod (a + b) w ltac:(lia)) as H1.
  pose proof (Z.div_mod a w ltac:(lia)) as H2.
  rewrite H in H1.
  assert (Hk : b = w * ((a + b) / w - a / w)) by lia.
  assert ((a + b) / w - a / w = 0) by nia. nia.
Qed.

(** An offset other than (0,0) and shorter than the image leads to a
    pixel other than the one it starts from. *)
Lemma offset_moves (fuel : nat) (parameters : Parameters) (image : Image)
    (position offset point : Coord) :
  0 < width image -> 0 < height image ->
  Z.abs (cx offset) < width image -> Z.abs (cy offset) < height image ->
  offset <> mkCoord 0 0 ->
  wrap_or_clip fuel parameters image (coord_add position offset) = Done (true, point) ->
  point <> position.
Proof.
  intros Hw Hh Hx Hy Ho H Heq. subst point.
  apply wrap_or_clip_congruent in H as [H1 H2]. cbn [coord_add cx cy] in H1, H2.
  symmetry in H1, H2.
  apply congruent_small in H1; [|assumption|assumption].
  apply congruent_small in H2; [|assumption|assumption].
  apply Ho. destruct offset as [ox oy]. cbn [cx cy] in *. now subst.
Qed.

Lemma status_index_injective (w h : Z) (p q : Coord) :
  inside (mkImage w h 1) p -> inside (mkImage w h 1) q ->
  image_atc (mkImage w h 1) p = image_atc (mkImage w h 1) q -> p = q.
Proof.
  unfold inside, image_atc, image_at. cbn [width height depth].
  intros [Hpx Hpy] [Hqx Hqy] H. rewrite !Z.mul_1_r in H.
  apply quotient_unique in H as [Hy Hx]; [|lia|lia].
  destruct p as [px py], q as [qx qy]. cbn [cx cy] in *. now subst.
Qed.

(** ** Scores that are recorded *)

Lemma try_point_loop_records (s : Resynth_state) (C : Coord) (M : Z) :
  0 <= M -> Forall (fun t => 0 <= t <= M) (diff_table s) -> 0 <= input_bytes s ->
  forall idx sum r,
    sum + Z.of_nat (length idx) * (input_bytes s * M) < best s ->
    try_point_loop s C idx sum = Done r -> r <> None.
Proof.
  intros HM Htab Hib. induction idx as [|i idx IH]; intros sum r Hlt H;
    cbn [try_point_loop] in H.
  - inv_done. discriminate.
  - inv_done.
    assert (Hstep : sum <= a0 <= sum + input_bytes s * M).
    { destruct (outside_corpus s (coord_add C a)).
      - inv_done. apply read_In in E1. rewrite Forall_forall in Htab.
        specialize (Htab _ E1). nia.
      - destruct (negb (i =? 0)).
        + inv_done. apply (channel_steps_bound s _ _ M Htab) in E0.
          rewrite length_zrange, Z.sub_0_r, Z2Nat.id in E0 by assumption. lia.
        + inv_done. nia. }
    cbn [length] in Hlt.
    destruct (Z.geb_spec a0 (best s)) as [Hge|Hlt']; [nia|].
    apply IH in H; [assumption|nia].
Qed.

(** While the scores cannot reach [INT_MAX], a candidate scored against
    a best score of at most [INT_MAX] leaves a best score below it: the
    first candidate that a search scores is recorded. *)
Lemma try_point_finds (s s' : Resynth_state) (C : Coord) :
  Forall (fun t => 0 <= t <= 65536) (diff_table s) ->
  0 <= input_bytes s -> 0 <= n_neighbors s ->
  n_neighbors s * (input_bytes s * 65536) < INT_MAX ->
  best s <= INT_MAX ->
  try_point s C = Done s' -> best s' < INT_MAX.
Proof.
  intros Htab Hib Hn Hscore Hbest H. unfold try_point in H.
  destruct (try_point_loop s C (zrange 0 (n_neighbors s)) 0) as [[sum|]| |] eqn:E;
    cbn [bind] in H; try discriminate; injection H as <-.
  - cbn [best set_best set_best_point].
    apply (try_point_loop_bound s C 65536 ltac:(lia) Htab Hib) in E as [Hb _].
    rewrite length_zrange, Z.sub_0_r, Z2Nat.id in Hb by assumption. lia.
  - destruct (Z.eq_dec (best s) INT_MAX) as [Heq|Hne]; [exfalso|lia].
    apply (try_point_loop_records s C 65536 ltac:(lia) Htab Hib) in E; [congruence|].
    rewrite length_zrange, Z.sub_0_r, Z2Nat.id by assumption. lia.
Qed.
(** ** Two searches side by side *)

Ltac fields :=
  cbn [input_bytes data corpus status data_array corpus_array status_array
       data_points corpus_points sorted_offsets tried tried_array s_neighbors
       neighbor_values neighbor_statuses n_neighbors diff_table best best_point
       rand_calls stderr
       set_input_bytes set_data set_corpus set_corpus_array set_status
       set_data_array set_status_array set_data_points set_corpus_points
       set_sorted_offsets set_tried set_tried_array set_s_neighbors
       set_neighbor_values set_neighbor_statuses set_n_neighbors set_diff_table
       set_best set_best_point set_rand_calls set_stderr] in *.

(** The shared fields, one equation for each. *)
Ltac shared H :=
  let K := fresh "K" in
  destruct H as (K & Hlen & Hval); unfold visit_shared in K;
  injection K as Kib Kd Kc Kst Kca Ksa Kdp Kcp Kso Ktr Kta Ksn Kns Kdt Krc.

Lemma same_outside (s1 s2 : Resynth_state) (p : Coord) :
  corpus s1 = corpus s2 -> outside_corpus s2 p = outside_corpus s1 p.
Proof. intros H. unfold outside_corpus. now rewrite H. Qed.

Lemma try_point_same (s1 s2 s1' : Resynth_state) (C : Coord) :
  same_search s1 s2 -> try_point s1 C = Done s1' ->
  exists s2', try_point s2 C = Done s2' /\ same_search s1' s2'.
Proof.
  intros Hsame H. pose proof Hsame as ((Hv & Hn) & Hbest & Hbp).
  pose proof Hv as Hv'. shared Hv'. destruct Hval as (Hl & Hcells & _).
  unfold try_point in *. rewrite <- Hn.
  rewrite <- (try_point_loop_agree s1 s2 C) by
    (try assumption; intros i Hi; apply in_zrange in Hi; lia).
  destruct (try_point_loop s1 C (zrange 0 (n_neighbors s1)) 0) as [[sum|]| |];
    cbn [bind] in *; try discriminate; injection H as <-.
  - eexists. split; [reflexivity|].
    split; [split; [exact Hv|exact Hn]|]. split; [reflexivity|].
    intros _. reflexivity.
  - exists s2. split; [reflexivity|exact Hsame].
Qed.

Lemma same_search_tried (s1 s2 : Resynth_state) (ta : list Z) :
  same_search s1 s2 -> same_search (set_tried_array ta s1) (set_tried_array ta s2).
Proof.
  intros ((Hv & Hn) & Hbest & Hbp). shared Hv.
  unfold same_search, same_gather, same_visits, visit_shared. fields.
  repeat split; try congruence; try assumption; apply Hval.
Qed.

Lemma phase1_loop_same (i : Z) (js : list Z) :
  forall s1 s2 s1',
    same_search s1 s2 -> phase1_loop i js s1 = Done s1' ->
    exists s2', phase1_loop i js s2 = Done s2' /\ same_search s1' s2'.
Proof.
  induction js as [|j js IH]; intros s1 s2 s1' Hsame H; cbn [phase1_loop] in *.
  - injection H as <-. now exists s2.
  - pose proof Hsame as ((Hv & Hn) & Hbest & Hbp). shared Hv.
    rewrite <- Hbest. destruct (best s1 =? 0).
    { injection H as <-. now exists s2. }
    rewrite <- Kns.
    destruct (read (neighbor_statuses s1) j) as [[a|]| |]; cbn [bind] in *;
      try discriminate.
    rewrite <- Ksa.
    destruct (read (status_array s1) a) as [st| |]; cbn [bind] in *; try discriminate.
    destruct (has_source st); [|exact (IH _ _ _ Hsame H)].
    rewrite <- Ksn.
    destruct (read (s_neighbors s1) j) as [nb| |]; cbn [bind] in *; try discriminate.
    rewrite (same_outside s1 s2) by assumption.
    destruct (outside_corpus s1 (coord_sub (source st) nb)); [exact (IH _ _ _ Hsame H)|].
    rewrite <- Kta, <- Ktr.
    destruct (read (tried_array s1) _) as [t| |]; cbn [bind] in *; try discriminate.
    destruct (t =? i); [exact (IH _ _ _ Hsame H)|].
    destruct (try_point s1 (coord_sub (source st) nb)) as [t1| |] eqn:E;
      cbn [bind] in H; try discriminate.
    destruct (try_point_same _ _ _ _ Hsame E) as (t2 & E2 & Hsame2).
    rewrite E2. cbn [bind].
    assert (Hta : tried_array t2 = tried_array t1 /\ tried t2 = tried t1).
    { clear - Hsame2. destruct Hsame2 as ((Hv2 & _) & _). shared Hv2.
      split; congruence. }
    destruct Hta as [-> ->].
    destruct (write (tried_array t1) _ i) as [ta| |]; cbn [bind] in *; try discriminate.
    apply (IH _ _ _ (same_search_tried _ _ ta Hsame2) H).
Qed.

Section SameSearch.

Variable rand : nat -> nat.

Lemma same_search_rand (s1 s2 : Resynth_state) :
  same_search s1 s2 ->
  same_search (set_rand_calls (S (rand_calls s1)) s1)
              (set_rand_calls (S (rand_calls s1)) s2).
Proof.
  intros ((Hv & Hn) & Hbest & Hbp). shared Hv.
  unfold same_search, same_gather, same_visits, visit_shared. fields.
  repeat split; try congruence; try assumption; apply Hval.
Qed.

Lemma phase2_loop_same (n : nat) :
  forall s1 s2 s1',
    same_search s1 s2 -> phase2_loop rand n s1 = Done s1' ->
    exists s2', phase2_loop rand n s2 = Done s2' /\ same_search s1' s2'.
Proof.
  induction n as [|n IH]; intros s1 s2 s1' Hsame H; cbn [phase2_loop] in *.
  - injection H as <-. now exists s2.
  - pose proof Hsame as ((Hv & Hn) & Hbest & Hbp). shared Hv.
    rewrite <- Hbest. destruct (best s1 =? 0).
    { injection H as <-. now exists s2. }
    unfold call_rand in *. rewrite <- Krc. fields. rewrite <- Kcp.
    destruct (read (corpus_points s1) _) as [c| |]; cbn [bind] in *; try discriminate.
    destruct (try_point (set_rand_calls (S (rand_calls s1)) s1) c) as [t1| |] eqn:E;
      cbn [bind] in H; try discriminate.
    destruct (try_point_same _ _ _ _ (same_search_rand _ _ Hsame) E)
      as (t2 & E2 & Hsame2).
    rewrite E2. cbn [bind]. exact (IH _ _ _ Hsame2 H).
Qed.

Lemma search_same (parameters : Parameters) (i : Z) (s1 s2 s1' : Resynth_state) :
  same_gather s1 s2 -> search rand parameters i s1 = Done s1' ->
  exists s2', search rand parameters i s2 = Done s2' /\ same_search s1' s2'.
Proof.
  intros Hsame H. unfold search in *. cbv zeta in *.
  assert (Hs : same_search (set_best INT_MAX s1) (set_best INT_MAX s2)).
  { split; [exact Hsame|]. split; [reflexivity|]. cbn [best set_best]. lia. }
  change (n_neighbors (set_best INT_MAX s2)) with (n_neighbors s2).
  change (n_neighbors (set_best INT_MAX s1)) with (n_neighbors s1) in H.
  destruct Hsame as [_ Hn]. rewrite <- Hn.
  destruct (phase1_loop i (zrange 0 (n_neighbors s1)) (set_best INT_MAX s1))
    as [t1| |] eqn:E; cbn [bind] in H; try discriminate.
  destruct (phase1_loop_same _ _ _ _ _ Hs E) as (t2 & E2 & Hsame2).
  rewrite E2. cbn [bind]. now apply (phase2_loop_same _ t1).
Qed.

End SameSearch.

(** *** A search with a try records a candidate *)

Lemma scores_fit_kept (s s' : Resynth_state) :
  search_kept s' = search_kept s -> scores_fit s -> scores_fit s'.
Proof.
  unfold search_kept, scores_fit. intros K H.
  assert (H1 : diff_table s' = diff_table s) by congruence.
  assert (H2 : input_bytes s' = input_bytes s) by congruence.
  assert (H3 : n_neighbors s' = n_neighbors s) by congruence.
  now rewrite H1, H2, H3.
Qed.

Lemma try_point_fit (s s' : Resynth_state) (C : Coord) :
  scores_fit s -> best s <= INT_MAX -> try_point s C = Done s' ->
  scores_fit s' /\ best s' < INT_MAX.
Proof.
  intros Hfit Hbest H. split.
  - apply try_point_kept in H as (K & _). now apply (scores_fit_kept s).
  - destruct Hfit as (Htab & Hib & Hn & Hscore).
    now apply (try_point_finds s s' C).
Qed.

Lemma phase1_loop_fit (i : Z) (js : list Z) :
  forall s s',
    scores_fit s -> best s <= INT_MAX -> phase1_loop i js s = Done s' ->
    scores_fit s' /\ best s' <= INT_MAX.
Proof.
  induction js as [|j js IH]; intros s s' Hfit Hbest H; cbn [phase1_loop] in H.
  - inv_done. auto.
  - destruct (best s =? 0); [inv_done; auto|].
    inv_done. destruct a as [a|]; [|discriminate]. inv_done.
    destruct (has_source a0); [|exact (IH _ _ Hfit Hbest H)].
    inv_done.
    destruct (outside_corpus s (coord_sub (source a0) a1)); [exact (IH _ _ Hfit Hbest H)|].
    inv_done. destruct (a2 =? i); [exact (IH _ _ Hfit Hbest H)|].
    inv_done. apply (try_point_fit _ _ _ Hfit Hbest) in E3 as [Hfit3 Hbest3].
    apply IH in H; [exact H|exact Hfit3|]. cbn [best set_tried_array]. lia.
Qed.

Section SearchFinds.

Variable rand : nat -> nat.

Lemma phase2_loop_fit (n : nat) :
  forall s s',
    scores_fit s -> best s <= INT_MAX -> phase2_loop rand n s = Done s' ->
    best s < INT_MAX \/ (1 <= n)%nat -> best s' < INT_MAX.
Proof.
  induction n as [|n IH]; intros s s' Hfit Hbest H Hor; cbn [phase2_loop] in H.
  - inv_done. lia.
  - destruct (Z.eqb_spec (best s) 0) as [Hz|Hnz].
    { inv_done. rewrite Hz. reflexivity. }
    unfold call_rand in H. inv_done.
    apply try_point_fit in E0 as [Hfit0 Hbest0]; [|exact Hfit|exact Hbest].
    apply (IH _ _ Hfit0) in H; [exact H|lia|now left].
Qed.

Lemma search_finds (parameters : Parameters) (i : Z) (s s' : Resynth_state) :
  scores_fit s -> 1 <= tries parameters ->
  search rand parameters i s = Done s' -> best s' < INT_MAX.
Proof.
  intros Hfit Ht H. unfold search in H. cbv zeta in H. inv_done.
  apply phase1_loop_fit in E as [Hfit1 Hbest1];
    [|exact Hfit|cbn [best set_best]; lia].
  apply (phase2_loop_fit _ _ _ Hfit1 Hbest1) in H; [exact H|right; lia].
Qed.

End SearchFinds.

(** ** Two commits side by side *)

Lemma commit_steps_same (position : Coord) (js : list Z) :
  forall s1 s2 s1',
    same_visits s1 s2 -> best_point s1 = best_point s2 ->
    for_each (commit_step position) js s1 = Done s1' ->
    exists s2',
      for_each (commit_step position) js s2 = Done s2' /\
      same_visits s1' s2' /\ best_point s1' = best_point s2'.
Proof.
  induction js as [|j js IH]; intros s1 s2 s1' Hsame Hbp H; cbn [for_each] in *.
  - injection H as <-. now exists s2.
  - pose proof Hsame as Hv. shared Hv.
    unfold commit_step at 1. unfold commit_step at 1 in H.
    rewrite <- Kca, <- Kc, <- Hbp, <- Kd.
    destruct (read (corpus_array s1) _) as [v| |]; cbn [bind] in *; try discriminate.
    destruct (write (data_array s1) _ v) as [d| |] eqn:W; cbn [bind] in *;
      try discriminate.
    apply write_Done in W as [Hi ->].
    rewrite write_in_range by lia. cbn [bind].
    eapply IH; [| |exact H].
    + unfold same_visits, visit_shared. fields. rewrite !length_replace_nth.
      repeat split; try congruence; apply Hval.
    + exact Hbp.
Qed.

Lemma commit_same (position : Coord) (s1 s2 s1' : Resynth_state) :
  same_visits s1 s2 -> best_point s1 = best_point s2 ->
  commit position s1 = Done s1' ->
  exists s2', commit position s2 = Done s2' /\ same_visits s1' s2'.
Proof.
  intros Hsame Hbp H. unfold commit in *.
  assert (Hib : input_bytes s2 = input_bytes s1).
  { destruct Hsame as (K & _). unfold visit_shared in K. congruence. }
  rewrite Hib.
  destruct (for_each (commit_step position) (zrange 0 (input_bytes s1)) s1)
    as [t1| |] eqn:E; cbn [bind] in H; try discriminate.
  destruct (commit_steps_same _ _ _ _ _ Hsame Hbp E) as (t2 & E2 & Hsame2 & Hbp2).
  rewrite E2. cbn [bind]. clear Hsame Hib.
  pose proof Hsame2 as Hv. shared Hv.
  rewrite <- Ksa, <- Kst, <- Hbp2.
  destruct (modify (status_array t1) _ _) as [a1| |]; cbn [bind] in *;
    try discriminate.
  destruct (modify a1 _ _) as [a2| |]; cbn [bind] in *; try discriminate.
  injection H as <-. eexists. split; [reflexivity|].
  unfold same_visits, visit_shared. fields.
  repeat split; try congruence; apply Hval.
Qed.
(** ** Two gatherings side by side *)

Lemma read_same_length {A : Type} (l1 l2 : list A) (i : Z) (v1 : A) :
  length l1 = length l2 -> read l1 i = Done v1 -> exists v2, read l2 i = Done v2.
Proof.
  intros Hl H. apply read_Done in H as [Hi _].
  destruct (nth_error l2 (Z.to_nat i)) as [v2|] eqn:E.
  - exists v2. apply read_Done. split; [lia|exact E].
  - apply nth_error_None in E. lia.
Qed.

Lemma read_same_cells {A : Type} (l1 l2 : list A) (i : Z) :
  length l1 = length l2 -> nth_error l1 (Z.to_nat i) = nth_error l2 (Z.to_nat i) ->
  read l2 i = read l1 i.
Proof. intros Hl Hn. unfold read, in_range. now rewrite Hl, Hn. Qed.

Lemma values_agree_cell (v1 v2 : list Pixel32) (n : nat) (px : Pixel32) :
  values_agree v1 v2 -> (1 <= n < length v1)%nat ->
  values_agree (replace_nth n px v1) (replace_nth n px v2).
Proof.
  intros (Hl & Hc & H0) Hn. split; [rewrite !length_replace_nth; exact Hl|]. split.
  - intros i Hi. destruct (Nat.eq_dec i n) as [->|Hne].
    + rewrite !nth_error_replace_nth_same by lia. reflexivity.
    + rewrite !nth_error_replace_nth_other by assumption. now apply Hc.
  - rewrite !nth_error_replace_nth_other by lia. exact H0.
Qed.

Lemma values_agree_first (v1 v2 : list Pixel32) (px1 px2 : Pixel32) :
  values_agree v1 v2 -> length px1 = length px2 ->
  values_agree (replace_nth 0 px1 v1) (replace_nth 0 px2 v2).
Proof.
  intros (Hl & Hc & H0) Hp. split; [rewrite !length_replace_nth; exact Hl|]. split.
  - intros i Hi. rewrite !nth_error_replace_nth_other by lia. now apply Hc.
  - destruct v1, v2; simpl in *; try discriminate; [reflexivity|now rewrite Hp].
Qed.

(** One byte of one neighbor.  For the neighbor 0 the two runs may copy
    different bytes; for the others they copy the same byte. *)
Lemma copy_value_step_same (point : Coord) (u1 u2 u1' : Resynth_state) (k : Z) :
  same_gather u1 u2 ->
  n_neighbors u1 = 0 \/
  (1 <= n_neighbors u1 /\
   read (data_array u2) (image_atc (data u1) point + k) =
   read (data_array u1) (image_atc (data u1) point + k)) ->
  copy_value_step point u1 k = Done u1' ->
  exists u2',
    copy_value_step point u2 k = Done u2' /\ same_gather u1' u2' /\
    data_array u2' = data_array u2.
Proof.
  intros [Hv Hn] Hor H. pose proof Hv as Hv'. shared Hv'.
  pose proof Hval as (Hl & Hc & H0).
  unfold copy_value_step in *. rewrite <- Kd, <- Hn.
  destruct (read (data_array u1) _) as [v1| |] eqn:R1; cbn [bind] in H;
    try discriminate.
  destruct (read (neighbor_values u1) (n_neighbors u1)) as [px1| |] eqn:R2;
    cbn [bind] in H; try discriminate.
  destruct (write px1 k v1) as [px1'| |] eqn:W1; cbn [bind] in H; try discriminate.
  destruct (write (neighbor_values u1) (n_neighbors u1) px1') as [nv1| |] eqn:W2;
    cbn [bind] in H; try discriminate.
  injection H as <-.
  apply write_Done in W1 as [Hk ->]. apply write_Done in W2 as [Hnr ->].
  destruct Hor as [Hz|[Hpos Hread]].
  - destruct (read_same_length _ (data_array u2) _ _ Hlen R1) as [v2 R1'].
    rewrite R1'. cbn [bind]. rewrite Hz in *.
    apply read_Done in R2 as [_ R2]. change (Z.to_nat 0) with O in *.
    rewrite R2 in H0.
    destruct (nth_error (neighbor_values u2) 0) as [px2|] eqn:R2'; [|discriminate].
    cbn [option_map] in H0. injection H0 as Hpx.
    rewrite (proj2 (read_Done (neighbor_values u2) 0 px2)) by (split; [lia|exact R2']).
    cbn [bind]. rewrite write_in_range by lia. cbn [bind].
    rewrite write_in_range by lia. cbn [bind].
    eexists. split; [reflexivity|]. split; [|reflexivity].
    split; [|fields; congruence].
    unfold same_visits, visit_shared. fields.
    split; [congruence|]. split; [exact Hlen|].
    apply values_agree_first; [exact Hval|]. now rewrite !length_replace_nth.
  - rewrite Hread. cbn [bind].
    rewrite (read_same_cells (neighbor_values u1) (neighbor_values u2))
      by (try assumption; apply Hc; lia).
    rewrite R2. cbn [bind]. rewrite write_in_range by lia. cbn [bind].
    rewrite write_in_range by lia. cbn [bind].
    eexists. split; [reflexivity|]. split; [|reflexivity].
    split; [|fields; congruence].
    unfold same_visits, visit_shared. fields.
    split; [congruence|]. split; [exact Hlen|].
    apply values_agree_cell; [exact Hval|lia].
Qed.

Lemma copy_values_kept (point : Coord) (ks : list Z) (u u' : Resynth_state) :
  for_each (copy_value_step point) ks u = Done u' ->
  gather_kept u' = gather_kept u /\ n_neighbors u' = n_neighbors u.
Proof.
  apply for_each_invariant
    with (P := fun t => gather_kept t = gather_kept u /\ n_neighbors t = n_neighbors u).
  - intros t k t' _ [Ht Hn] Hstep.
    apply copy_value_step_kept in Hstep as (-> & _ & _ & -> & _). auto.
  - auto.
Qed.

Lemma copy_values_same (point : Coord) (ks : list Z) :
  forall u1 u2 u1',
    same_gather u1 u2 ->
    n_neighbors u1 = 0 \/
    (1 <= n_neighbors u1 /\
     forall k, In k ks ->
       read (data_array u2) (image_atc (data u1) point + k) =
       read (data_array u1) (image_atc (data u1) point + k)) ->
    for_each (copy_value_step point) ks u1 = Done u1' ->
    exists u2',
      for_each (copy_value_step point) ks u2 = Done u2' /\ same_gather u1' u2' /\
      data_array u2' = data_array u2.
Proof.
  induction ks as [|k ks IH]; intros u1 u2 u1' Hsame Hor H; cbn [for_each] in *.
  - injection H as <-. now exists u2.
  - destruct (copy_value_step point u1 k) as [t1| |] eqn:E; cbn [bind] in H;
      try discriminate.
    destruct (copy_value_step_same point u1 u2 t1 k Hsame) as (t2 & E2 & Hsame2 & Hd2);
      [|exact E|].
    { destruct Hor as [Hz|[Hpos Hread]]; [now left|right].
      split; [exact Hpos|]. apply Hread. now left. }
    rewrite E2. cbn [bind].
    apply copy_value_step_kept in E as (K & _ & _ & Hn1 & _).
    unfold gather_kept in K.
    assert (Hda : data_array t1 = data_array u1) by congruence.
    assert (Hdd : data t1 = data u1) by congruence.
    destruct (IH t1 t2 u1' Hsame2) as (u2' & E3 & Hsame3 & Hd3); [|exact H|].
    { destruct Hor as [Hz|[Hpos Hread]]; [left; congruence|right].
      split; [congruence|]. intros k' Hk'. rewrite Hd2, Hda, Hdd.
      apply Hread. now right. }
    exists u2'. split; [exact E3|]. split; [exact Hsame3|congruence].
Qed.

Lemma moving_rest (D : Image) (n : Z) (o : Coord) (rest : list Coord) :
  Forall (moving_offset D) (if n =? 0 then tl (o :: rest) else o :: rest) ->
  Forall (moving_offset D) rest /\
  Forall (moving_offset D) (if n =? 0 then tl rest else rest).
Proof.
  intros H.
  assert (Hrest : Forall (moving_offset D) rest).
  { destruct (n =? 0); [exact H|now inversion H]. }
  split; [exact Hrest|]. destruct (n =? 0); [|exact Hrest].
  destruct rest; [constructor|now inversion Hrest].
Qed.

Section SameGather.

Variable fuel : nat.
Variable parameters : Parameters.

(** The output image, the status map and the output pixels of the two
    runs during the gathering, and the position that is visited. *)
Variable D : Image.
Variable SA : list Status.
Variables DA1 DA2 : list Pixel.
Variable IB : Z.
Variable position : Coord.

Hypothesis D_width : 0 < width D.
Hypothesis D_height : 0 < height D.
Hypothesis position_inside : inside D position.

(** The pixels that have a value, the one visited apart, hold the same
    bytes in the two runs. *)
Hypothesis valued_agree :
  forall k st,
    nth_error SA k = Some st -> has_value st = true ->
    Z.of_nat k <> image_atc (mkImage (width D) (height D) 1) position ->
    forall j, 0 <= j < IB ->
      read DA2 (Z.of_nat k * depth D + j) = read DA1 (Z.of_nat k * depth D + j).

Lemma gather_loop_same (offsets : list Coord) :
  forall t1 t2 t1',
    same_gather t1 t2 ->
    data t1 = D -> status t1 = mkImage (width D) (height D) 1 ->
    status_array t1 = SA -> data_array t1 = DA1 -> data_array t2 = DA2 ->
    input_bytes t1 = IB -> 0 <= n_neighbors t1 ->
    Forall (moving_offset D) (if n_neighbors t1 =? 0 then tl offsets else offsets) ->
    gather_loop fuel parameters position offsets t1 = Done t1' ->
    exists t2',
      gather_loop fuel parameters position offsets t2 = Done t2' /\
      same_gather t1' t2'.
Proof.
  induction offsets as [|o rest IH];
    intros t1 t2 t1' Hsame HD HS HSA HDA1 HDA2 HIB Hn0 Hoffs H; cbn [gather_loop] in *.
  - injection H as <-. now exists t2.
  - pose proof Hsame as [Hv Hn]. shared Hv.
    pose proof (moving_rest _ _ _ _ Hoffs) as [Hrest Hnext].
    rewrite <- Kd.
    destruct (wrap_or_clip fuel parameters (data t1) (coord_add position o))
      as [[ok point]| |] eqn:W; cbn [bind] in *; try discriminate.
    destruct ok; [|exact (IH _ _ _ Hsame HD HS HSA HDA1 HDA2 HIB Hn0 Hnext H)].
    rewrite <- Ksa, <- Kst.
    destruct (read (status_array t1) (image_atc (status t1) point)) as [st| |] eqn:R;
      cbn [bind] in *; try discriminate.
    destruct (has_value st) eqn:Hhv;
      [|exact (IH _ _ _ Hsame HD HS HSA HDA1 HDA2 HIB Hn0 Hnext H)].
    rewrite <- Ksn, <- Hn.
    destruct (write (s_neighbors t1) (n_neighbors t1) o) as [nb| |];
      cbn [bind] in *; try discriminate.
    cbv zeta in *. fields. rewrite <- Kns, <- Hn, <- Kib, <- Kst.
    destruct (write (neighbor_statuses t1) (n_neighbors t1) _) as [ns| |];
      cbn [bind] in *; try discriminate.
    set (u1 := set_neighbor_statuses ns (set_s_neighbors nb t1)) in *.
    set (u2 := set_neighbor_statuses ns (set_s_neighbors nb t2)) in *.
    destruct (for_each (copy_value_step point) (zrange 0 (input_bytes t1)) u1)
      as [c1| |] eqn:C; cbn [bind] in H; try discriminate.
    assert (Hsu : same_gather u1 u2).
    { split; [|exact Hn]. unfold same_visits, visit_shared, u1, u2. fields.
      repeat split; try congruence; apply Hval. }
    destruct (copy_values_same point (zrange 0 (input_bytes t1)) u1 u2 c1 Hsu)
      as (c2 & C2 & Hsc & Hdc);
      [|exact C|].
    { change (n_neighbors u1) with (n_neighbors t1).
      change (data_array u1) with (data_array t1).
      change (data_array u2) with (data_array t2).
      change (data u1) with (data t1).
      destruct (Z.eq_dec (n_neighbors t1) 0) as [Hz|Hnz]; [now left|right].
      split; [lia|]. intros k Hk. apply in_zrange in Hk.
      rewrite (proj2 (Z.eqb_neq _ _) Hnz) in Hoffs.
      assert (Hmove : moving_offset D o) by now inversion Hoffs.
      destruct Hmove as (Ho & Hox & Hoy).
      rewrite HD in W.
      assert (Hpoint : inside D point) by (eapply wrap_or_clip_accepted; eauto).
      assert (Hne : point <> position)
        by (eapply offset_moves; [| | | | |exact W]; assumption).
      rewrite HS in R. apply read_Done in R as [Hi R]. rewrite HSA in R.
      assert (Hidx : Z.of_nat (Z.to_nat (image_atc (mkImage (width D) (height D) 1) point))
                     <> image_atc (mkImage (width D) (height D) 1) position).
      { rewrite Z2Nat.id by lia. intros Heq. apply Hne.
        now apply (status_index_injective (width D) (height D)). }
      pose proof (valued_agree _ _ R Hhv Hidx k ltac:(lia)) as Hag.
      rewrite Z2Nat.id in Hag by lia.
      rewrite HDA1, HDA2, HD.
      replace (image_atc D point)
        with (image_atc (mkImage (width D) (height D) 1) point * depth D);
        [exact Hag|].
      unfold image_atc, image_at. cbn [width depth]. ring. }
    rewrite C2. cbn [bind].
    apply copy_values_kept in C as [K Hn1]. unfold gather_kept in K.
    change (n_neighbors u1) with (n_neighbors t1) in Hn1.
    change (data_array u2) with (data_array t2) in Hdc.
    assert (Hn2 : n_neighbors c2 = n_neighbors c1) by (destruct Hsc; congruence).
    rewrite Hn2.
    assert (Hsn : same_gather (set_n_neighbors (n_neighbors c1 + 1) c1)
                              (set_n_neighbors (n_neighbors c1 + 1) c2)).
    { destruct Hsc as [Hsc _]. split; [exact Hsc|reflexivity]. }
    destruct (n_neighbors c1 + 1 >=? neighbors parameters).
    + injection H as <-. eexists. split; [reflexivity|exact Hsn].
    + apply (IH _ _ _ Hsn); fields; unfold u1 in K; fields;
        try congruence; try lia.
      rewrite (proj2 (Z.eqb_neq (n_neighbors c1 + 1) 0)) by lia. exact Hrest.
Qed.

End SameGather.
(** ** Two visits side by side *)

Lemma gather_loop_count (fuel : nat) (parameters : Parameters) (position : Coord)
    (offsets : list Coord) :
  forall s s',
    gather_loop fuel parameters position offsets s = Done s' ->
    0 <= n_neighbors s < neighbors parameters ->
    0 <= n_neighbors s' <= neighbors parameters.
Proof.
  induction offsets as [|offset rest IH]; intros s s' H Hn; cbn [gather_loop] in H.
  - inv_done. lia.
  - inv_done. destruct a as [ok point]. destruct ok; [|exact (IH _ _ H Hn)].
    inv_done. destruct (has_value a); [|exact (IH _ _ H Hn)].
    inv_done. apply copy_values_kept in E3 as [_ Hc]. fields.
    destruct (Z.geb_spec (n_neighbors a2 + 1) (neighbors parameters)).
    + inv_done. fields. lia.
    + apply IH in H; [exact H|]. fields. lia.
Qed.

Lemma gather_count (fuel : nat) (parameters : Parameters) (s g : Resynth_state)
    (i : Z) (position : Coord) :
  1 <= neighbors parameters ->
  gather fuel parameters s i = Done (position, g) ->
  0 <= n_neighbors g <= neighbors parameters.
Proof.
  intros Hn H. unfold gather in H. inv_done. cbv zeta in E1.
  apply gather_loop_count in E1; [exact E1|]. fields. lia.
Qed.

Section SameVisit.

Variable rand : nat -> nat.
Variable fuel : nat.
Variable parameters : Parameters.

Lemma gather_same (s1 s2 g1 : Resynth_state) (i : Z) (position : Coord) :
  same_visits s1 s2 -> visit_context parameters s1 -> sources_copied s2 ->
  gather fuel parameters s1 i = Done (position, g1) ->
  exists g2, gather fuel parameters s2 i = Done (position, g2) /\ same_gather g1 g2.
Proof.
  intros Hsame Hctx Hsrc2 H. pose proof Hsame as Hv. shared Hv.
  unfold gather in *. rewrite <- Kdp.
  destruct (read (data_points s1) i) as [p| |] eqn:Rp; cbn [bind] in *;
    try discriminate.
  rewrite <- Ksa, <- Kst.
  destruct (modify (status_array s1) _ _) as [a| |] eqn:M; cbn [bind] in *;
    try discriminate.
  cbv zeta in *. fields. rewrite <- Kso.
  destruct (gather_loop fuel parameters p (sorted_offsets s1)
              (set_n_neighbors 0 (set_status_array a s1))) as [t1| |] eqn:G;
    cbn [bind] in H; try discriminate.
  injection H as <- <-.
  destruct (vc_offsets _ _ Hctx) as (rest & Hoff & Hmov).
  pose proof (vc_status _ _ Hctx) as Hst.
  apply modify_Done in M as (st0 & Hi & Hst0 & ->).
  assert (Hinside : inside (data s1) p).
  { pose proof (vc_data_points _ _ Hctx) as Hall. rewrite Forall_forall in Hall.
    apply Hall. eapply read_In; eauto. }
  destruct (gather_loop_same fuel parameters (data s1)
              (replace_nth (Z.to_nat (image_atc (status s1) p))
                 (mkStatus true (has_source st0) (source st0)) (status_array s1))
              (data_array s1) (data_array s2) (input_bytes s1) p
              (vc_width _ _ Hctx) (vc_height _ _ Hctx) Hinside) with
      (offsets := sorted_offsets s1)
      (t1 := set_n_neighbors 0
               (set_status_array
                  (replace_nth (Z.to_nat (image_atc (status s1) p))
                     (mkStatus true (has_source st0) (source st0)) (status_array s1)) s1))
      (t2 := set_n_neighbors 0
               (set_status_array
                  (replace_nth (Z.to_nat (image_atc (status s1) p))
                     (mkStatus true (has_source st0) (source st0)) (status_array s1)) s2))
      (t1' := t1)
    as (t2 & G2 & Hsg); try reflexivity; try exact G; fields; try lia.
  - intros k st Hk Hval' Hne j Hj.
    rewrite <- Hst in Hne.
    rewrite nth_error_replace_nth_other in Hk by lia.
    assert (Hsrc : has_source st = true)
      by (rewrite <- (vc_settled _ _ Hctx k st Hk); exact Hval').
    destruct (vc_sources _ _ Hctx k st Hk Hsrc j Hj) as (v & Hc & Hd).
    destruct (Hsrc2 k st) with (j := j) as (v' & Hc' & Hd');
      [congruence|exact Hsrc|lia|].
    rewrite <- Kca, <- Kc, Hc in Hc'. injection Hc' as <-.
    rewrite <- Kd in Hd'. now rewrite Hd, Hd'.
  - split; [|reflexivity]. unfold same_visits, visit_shared. fields.
    repeat split; try congruence; apply Hval.
  - exact Hst.
  - rewrite Hoff. cbn [tl Z.eqb]. exact Hmov.
  - exists t2. rewrite G2. cbn [bind]. split; [reflexivity|exact Hsg].
Qed.

Lemma visit_same (s1 s2 s1' : Resynth_state) (i : Z) :
  same_visits s1 s2 -> visit_context parameters s1 -> sources_copied s2 ->
  visit rand fuel parameters s1 i = Done s1' ->
  exists s2', visit rand fuel parameters s2 i = Done s2' /\ same_visits s1' s2'.
Proof.
  intros Hsame Hctx Hsrc2 H.
  apply visit_parts in H as (position & g1 & ss1 & G & S & C).
  destruct (gather_same _ _ _ _ _ Hsame Hctx Hsrc2 G) as (g2 & G2 & Hsg).
  destruct (search_same rand parameters i g1 g2 ss1 Hsg S) as (ss2 & S2 & Hss).
  assert (Hfound : best ss1 < INT_MAX).
  { apply (search_finds rand parameters i g1); [|exact (vc_tries _ _ Hctx)|exact S].
    pose proof (gather_count _ _ _ _ _ _ (vc_neighbors _ _ Hctx) G) as Hn.
    apply gather_effect in G as (st & _ & _ & _ & K). unfold gather_kept in K.
    fields.
    assert (Hdt : diff_table g1 = diff_table s1) by congruence.
    assert (Hib : input_bytes g1 = input_bytes s1) by congruence.
    pose proof (vc_score _ _ Hctx) as Hscore.
    pose proof (vc_input_bytes _ _ Hctx) as Hib0.
    unfold scores_fit. rewrite Hdt, Hib.
    split; [exact (vc_table _ _ Hctx)|]. split; [lia|]. split; [lia|]. nia. }
  destruct Hss as ((Hv & Hn) & Hbest & Hbp).
  destruct (commit_same position ss1 ss2 s1' Hv (Hbp Hfound) C) as (s2' & C2 & Hs').
  exists s2'. split; [|exact Hs'].
  unfold visit. rewrite G2. cbn [bind]. rewrite S2. cbn [bind]. exact C2.
Qed.

Lemma visit_context_kept (s s' : Resynth_state) (i : Z) :
  visit_context parameters s -> visit rand fuel parameters s i = Done s' ->
  visit_context parameters s'.
Proof.
  intros Hctx H.
  pose proof (visit_sources_copied rand fuel parameters s s' i H
                (vc_status _ _ Hctx) (proj2 (vc_input_bytes _ _ Hctx))
                (vc_sources _ _ Hctx)) as Hsrc.
  apply visit_status in H as (position & st & Hpos & Hidx & Hst & Harr & K & _).
  unfold visit_kept in K.
  assert (Hib : input_bytes s' = input_bytes s) by congruence.
  assert (Hd : data s' = data s) by congruence.
  assert (Hs : status s' = status s) by congruence.
  assert (Hdp : data_points s' = data_points s) by congruence.
  assert (Hso : sorted_offsets s' = sorted_offsets s) by congruence.
  assert (Hdt : diff_table s' = diff_table s) by congruence.
  destruct Hctx. constructor; rewrite ?Hib, ?Hd, ?Hs, ?Hdp, ?Hso, ?Hdt; try assumption.
  intros k st' Hk. rewrite Harr in Hk.
  destruct (Nat.eq_dec k (Z.to_nat (image_atc (status s) position))) as [->|Hne].
  - rewrite nth_error_replace_nth_same in Hk by lia. injection Hk as <-. reflexivity.
  - rewrite nth_error_replace_nth_other in Hk by assumption. eauto.
Qed.

Lemma visit_loop_same (l : list Z) :
  forall s1 s2 s1',
    same_visits s1 s2 -> visit_context parameters s1 -> sources_copied s2 ->
    for_each (visit rand fuel parameters) l s1 = Done s1' ->
    exists s2',
      for_each (visit rand fuel parameters) l s2 = Done s2' /\ same_visits s1' s2'.
Proof.
  induction l as [|i l IH]; intros s1 s2 s1' Hsame Hctx Hsrc2 H; cbn [for_each] in *.
  - injection H as <-. now exists s2.
  - destruct (visit rand fuel parameters s1 i) as [t1| |] eqn:E; cbn [bind] in H;
      try discriminate.
    destruct (visit_same _ _ _ _ Hsame Hctx Hsrc2 E) as (t2 & E2 & Hsame2).
    rewrite E2. cbn [bind].
    apply (IH t1 t2 s1' Hsame2); [now apply (visit_context_kept s1 t1 i)| |exact H].
    pose proof Hsame as Hv. shared Hv.
    apply (visit_sources_copied rand fuel parameters s2 t2 i E2); [| |exact Hsrc2].
    + rewrite <- Kst, <- Kd. exact (vc_status _ _ Hctx).
    + rewrite <- Kib, <- Kd. exact (proj2 (vc_input_bytes _ _ Hctx)).
Qed.

End SameVisit.
(** ** Two schedules side by side *)

Lemma for_each_related {A S : Type} (R : S -> S -> Prop)
    (f : S -> A -> result S) (l : list A) :
  (forall s1 s2 a s1', R s1 s2 -> f s1 a = Done s1' ->
     exists s2', f s2 a = Done s2' /\ R s1' s2') ->
  forall s1 s2 s1', R s1 s2 -> for_each f l s1 = Done s1' ->
    exists s2', for_each f l s2 = Done s2' /\ R s1' s2'.
Proof.
  intros Hstep. induction l as [|a l IH]; intros s1 s2 s1' HR H; cbn [for_each] in *.
  - injection H as <-. now exists s2.
  - destruct (f s1 a) as [t1| |] eqn:E; cbn [bind] in H; try discriminate.
    destruct (Hstep _ _ _ _ HR E) as (t2 & E2 & HR2).
    rewrite E2. cbn [bind]. exact (IH _ _ _ HR2 H).
Qed.

Lemma duplicate_step_same (s1 s2 : Resynth_state) (i : Z) (s1' : Resynth_state) :
  same_schedule s1 s2 -> duplicate_step s1 i = Done s1' ->
  exists s2', duplicate_step s2 i = Done s2' /\ same_schedule s1' s2'.
Proof.
  intros [Hdp Hrc] H. unfold duplicate_step in *. rewrite <- Hdp.
  destruct (read (data_points s1) i) as [c| |]; cbn [bind] in *; try discriminate.
  injection H as <-. eexists. split; [reflexivity|].
  unfold same_schedule, push_data_point. fields. split; congruence.
Qed.

Lemma magic_loop_same (parameters : Parameters) (fuel : nat) :
  forall n s1 s2 s1',
    same_schedule s1 s2 -> magic_loop fuel parameters n s1 = Done s1' ->
    exists s2', magic_loop fuel parameters n s2 = Done s2' /\ same_schedule s1' s2'.
Proof.
  induction fuel as [|fuel IH]; intros n s1 s2 s1' Hs H; cbn [magic_loop] in *;
    destruct (n >? 0); try discriminate;
    try (injection H as <-; now exists s2).
  cbv zeta in *.
  destruct (for_each duplicate_step _ s1) as [t1| |] eqn:E; cbn [bind] in H;
    try discriminate.
  destruct (for_each_related same_schedule duplicate_step _ duplicate_step_same
              _ _ _ Hs E) as (t2 & E2 & Hs2).
  rewrite E2. cbn [bind]. exact (IH _ _ _ _ Hs2 H).
Qed.

Section SameSchedule.

Variable rand : nat -> nat.

Lemma shuffle_step_same (data_area : Z) (s1 s2 : Resynth_state) (i : Z)
    (s1' : Resynth_state) :
  same_schedule s1 s2 -> shuffle_step rand data_area s1 i = Done s1' ->
  exists s2', shuffle_step rand data_area s2 i = Done s2' /\ same_schedule s1' s2'.
Proof.
  intros [Hdp Hrc] H. unfold shuffle_step, call_rand in *. fields.
  rewrite <- Hdp, <- Hrc.
  destruct (read (data_points s1) i) as [temp| |]; cbn [bind] in *; try discriminate.
  destruct (read (data_points s1) _) as [dj| |]; cbn [bind] in *; try discriminate.
  destruct (write (data_points s1) i dj) as [a1| |]; cbn [bind] in *; try discriminate.
  destruct (write a1 _ temp) as [a2| |]; cbn [bind] in *; try discriminate.
  injection H as <-. eexists. split; [reflexivity|].
  unfold same_schedule. fields. split; congruence.
Qed.

Lemma polish_pass_same (fuel : nat) (parameters : Parameters) (data_area : Z)
    (s1 s2 s1' : Resynth_state) :
  same_schedule s1 s2 -> polish_pass rand fuel parameters data_area s1 = Done s1' ->
  exists s2',
    polish_pass rand fuel parameters data_area s2 = Done s2' /\ same_schedule s1' s2'.
Proof.
  intros Hs H. unfold polish_pass in *.
  destruct (for_each (shuffle_step rand data_area) _ s1) as [t1| |] eqn:E;
    cbn [bind] in H; try discriminate.
  destruct (for_each_related same_schedule (shuffle_step rand data_area) _
              (fun a b c d => shuffle_step_same data_area a b c d) _ _ _ Hs E)
    as (t2 & E2 & Hs2).
  rewrite E2. cbn [bind]. destruct (negb (magic parameters =? 0)).
  - exact (magic_loop_same _ _ _ _ _ _ Hs2 H).
  - injection H as <-. now exists t2.
Qed.

Lemma polish_loop_same (inner : nat) (parameters : Parameters) (data_area : Z)
    (fuel : nat) :
  forall p passes s1 s2 n s1',
    same_schedule s1 s2 ->
    polish_loop rand fuel inner parameters data_area p passes s1 = Done (n, s1') ->
    exists s2',
      polish_loop rand fuel inner parameters data_area p passes s2 = Done (n, s2') /\
      same_schedule s1' s2'.
Proof.
  induction fuel as [|fuel IH]; intros p passes s1 s2 n s1' Hs H;
    cbn [polish_loop] in *; destruct (polish_guard parameters p); try discriminate;
    try (injection H as <- <-; now exists s2).
  destruct (polish_pass rand inner parameters data_area s1) as [t1| |] eqn:E;
    cbn [bind] in H; try discriminate.
  destruct (polish_pass_same _ _ _ _ _ _ Hs E) as (t2 & E2 & Hs2).
  rewrite E2. cbn [bind]. exact (IH _ _ _ _ _ _ Hs2 H).
Qed.

End SameSchedule.

(** ** Two runs side by side *)

Lemma schedule_shared_kept (s s' : Resynth_state) :
  schedule_kept s' = schedule_kept s -> schedule_shared s' = schedule_shared s.
Proof.
  unfold schedule_kept, schedule_shared. intros K.
  injection K as K1 K2 K3 K4 K5 K6 K7 K8 K9 K10 K11 K12 K13 K14 K15 K16 K17 K18 K19.
  congruence.
Qed.

Lemma values_agree_refl (v : list Pixel32) : values_agree v v.
Proof. repeat split. Qed.

Section RunSame.

Variable qsort : (Coord -> Coord -> Z) -> list Coord -> list Coord.
Variable rand : nat -> nat.

Hypothesis qsort_permutation :
  forall cmp l, Permutation (qsort cmp l) l.

Hypothesis qsort_sorted :
  forall cmp l,
    (forall a b, cmp a b <= 0 \/ cmp b a <= 0) ->
    (forall a b c, cmp a b <= 0 -> cmp b c <= 0 -> cmp a c <= 0) ->
    StronglySorted (fun a b => cmp a b <= 0) (qsort cmp l).

(** The main loop starts between two visits. *)
Lemma entry_context (fuel : nat) (s s3 : Resynth_state) (n3 : nat)
    (parameters : Parameters) :
  0 < width (corpus s) -> 0 < height (corpus s) ->
  0 < width (data s) -> 0 < height (data s) ->
  0 <= input_bytes s <= depth (data s) ->
  1 <= neighbors parameters ->
  neighbors parameters * (input_bytes s * 65536) < INT_MAX ->
  1 <= tries parameters ->
  polish_loop rand fuel fuel parameters
    (Z.of_nat (length (grid (width (data s)) (height (data s)))))
    0 0 (scheduled_state qsort s parameters) = Done (n3, s3) ->
  visit_context parameters (tried_state s3).
Proof.
  intros Hcw Hch Hdw Hdh Hib Hn Hscore Ht E0.
  apply main_loop_start in E0 as (K & Hsa & Hda & Same).
  unfold visit_kept in K.
  assert (H1 : input_bytes (tried_state s3) = input_bytes s) by congruence.
  assert (H2 : data (tried_state s3) = data s) by congruence.
  assert (H3 : status (tried_state s3) = mkImage (width (data s)) (height (data s)) 1)
    by congruence.
  assert (H4 : sorted_offsets (tried_state s3) =
               qsort coord_compare
                 (offset_grid (Z.min (width (corpus s)) (width (data s)))
                              (Z.min (height (corpus s)) (height (data s)))))
    by congruence.
  assert (H5 : diff_table (tried_state s3) = make_diff_table (autism parameters))
    by congruence.
  clear K.
  constructor; rewrite ?H1, ?H2, ?H3, ?H4, ?H5; try assumption.
  - reflexivity.
  - destruct (offsets_head qsort qsort_permutation qsort_sorted s)
      as (rest & Hrest & Hnot); [lia|lia|].
    change (sorted_offsets (make_offset_list qsort s))
      with (qsort coord_compare
              (offset_grid (Z.min (width (corpus s)) (width (data s)))
                           (Z.min (height (corpus s)) (height (data s))))) in Hrest.
    exists rest. split; [exact Hrest|]. apply Forall_forall. intros o Ho.
    split; [intros ->; contradiction|].
    assert (Hin : In o (offset_grid (Z.min (width (corpus s)) (width (data s)))
                                    (Z.min (height (corpus s)) (height (data s))))).
    { eapply Permutation_in; [apply qsort_permutation|]. rewrite Hrest. now right. }
    apply in_offset_grid in Hin. lia.
  - apply Forall_forall. intros c Hc.
    change (data_points (tried_state s3)) with (data_points s3) in Hc.
    apply Same in Hc. apply in_grid in Hc. exact Hc.
  - apply make_diff_table_bounds.
  - intros k st Hk. rewrite Hsa in Hk. unfold MEMORY in Hk.
    apply nth_error_repeat_Some in Hk. now subst st.
  - intros k st Hk Hsrc. rewrite Hsa in Hk. unfold MEMORY in Hk.
    apply nth_error_repeat_Some in Hk. subst st. discriminate.
Qed.

(** Two states that give [run] the same corpus, the same output image
    and the same random numbers lead to the same main loop. *)
Lemma entry_same (fuel : nat) (s1 s2 s3 : Resynth_state) (n3 : nat)
    (parameters : Parameters) :
  input_bytes s2 = input_bytes s1 -> data s2 = data s1 -> corpus s2 = corpus s1 ->
  corpus_array s2 = corpus_array s1 -> rand_calls s2 = rand_calls s1 ->
  length (data_array s2) = length (data_array s1) ->
  polish_loop rand fuel fuel parameters
    (Z.of_nat (length (grid (width (data s1)) (height (data s1)))))
    0 0 (scheduled_state qsort s1 parameters) = Done (n3, s3) ->
  exists s3',
    polish_loop rand fuel fuel parameters
      (Z.of_nat (length (grid (width (data s2)) (height (data s2)))))
      0 0 (scheduled_state qsort s2 parameters) = Done (n3, s3') /\
    data_points s3' = data_points s3 /\
    same_visits (tried_state s3) (tried_state s3').
Proof.
  intros Hib Hd Hc Hca Hrc Hlen E0.
  assert (Hs : same_schedule (scheduled_state qsort s1 parameters)
                             (scheduled_state qsort s2 parameters)).
  { split; cbn; congruence. }
  destruct (polish_loop_same rand _ _ _ _ _ _ _ _ _ _ Hs E0) as (s3' & E0' & Hdp & Hr).
  exists s3'. rewrite Hd. split; [exact E0'|]. split; [congruence|].
  apply polish_loop_rescheduled in E0 as [K _].
  apply polish_loop_rescheduled in E0' as [K' _].
  apply schedule_shared_kept in K, K'.
  assert (Hshared : schedule_shared (scheduled_state qsort s1 parameters) =
                    schedule_shared (scheduled_state qsort s2 parameters)).
  { unfold schedule_shared, scheduled_state, make_offset_list, setup_state. fields.
    rewrite Hib, Hd, Hc, Hca, Hlen. reflexivity. }
  rewrite Hshared, <- K' in K. clear K' Hshared. unfold schedule_shared in K.
  injection K as K1 K2 K3 K4 K5 K6 K7 K8 K9 K10 K11 K12 K13.
  unfold same_visits, visit_shared, tried_state. fields.
  split; [congruence|]. split; [congruence|].
  rewrite K10. apply values_agree_refl.
Qed.

(** What two runs do that start from the same corpus, the same output
    image and the same random numbers, whatever else their states hold. *)
Lemma run_Done_same (fuel : nat) (s1 s2 s1' : Resynth_state)
    (parameters : Parameters) :
  input_bytes s2 = input_bytes s1 -> data s2 = data s1 -> corpus s2 = corpus s1 ->
  corpus_array s2 = corpus_array s1 -> rand_calls s2 = rand_calls s1 ->
  length (data_array s2) = length (data_array s1) ->
  0 < width (corpus s1) -> 0 < height (corpus s1) ->
  0 < width (data s1) -> 0 < height (data s1) ->
  0 <= input_bytes s1 <= depth (data s1) ->
  1 <= neighbors parameters ->
  neighbors parameters * (input_bytes s1 * 65536) < INT_MAX ->
  1 <= tries parameters ->
  run qsort rand fuel s1 parameters = Done s1' ->
  exists s2',
    run qsort rand fuel s2 parameters = Done s2' /\
    status_array s2' = status_array s1' /\
    forall x y j,
      0 <= x < width (data s1) -> 0 <= y < height (data s1) ->
      0 <= j < input_bytes s1 ->
      read (data_array s2') (image_at (data s1) x y + j) =
      read (data_array s1') (image_at (data s1) x y + j).
Proof.
  intros Hib Hd Hc Hca Hrc Hlen Hcw Hch Hdw Hdh Hib0 Hn Hscore Ht Hrun.
  pose proof Hrun as Hrun1.
  apply run_Done in Hrun as [n E].
  apply run_counting_Done in E as (s3 & E0 & E1); [|now apply sizes_valid].
  destruct (entry_same fuel s1 s2 s3 n parameters Hib Hd Hc Hca Hrc Hlen E0)
    as (s3' & E0' & Hdp & Hsame).
  pose proof (entry_context fuel s1 s3 n parameters Hcw Hch Hdw Hdh Hib0 Hn Hscore Ht E0)
    as Hctx.
  assert (Hctx2 : visit_context parameters (tried_state s3')).
  { apply (entry_context fuel s2 s3' n parameters); try exact E0';
      rewrite ?Hib, ?Hd, ?Hc; assumption. }
  destruct (visit_loop_same rand fuel parameters _ _ _ _ Hsame Hctx
              (vc_sources _ _ Hctx2) E1) as (s2' & E1' & Hsame').
  assert (Hrun2 : run qsort rand fuel s2 parameters = Done s2').
  { unfold run. rewrite run_counting_valid
      by (apply sizes_valid; rewrite ?Hd, ?Hc; assumption).
    rewrite E0'. cbn [bind snd fst]. rewrite Hdp, E1'. reflexivity. }
  exists s2'. split; [exact Hrun2|].
  assert (Hsa : status_array s2' = status_array s1').
  { destruct Hsame' as (K & _). unfold visit_shared in K. congruence. }
  split; [exact Hsa|]. intros x y j Hx Hy Hj.
  destruct (run_Done_sources qsort rand fuel s1 s1' parameters Hcw Hch Hdw Hdh
              (proj2 Hib0) Hrun1 x y Hx Hy) as (st1 & Hst1 & _ & Hcopy1).
  destruct (run_Done_sources qsort rand fuel s2 s2' parameters) with (x := x) (y := y)
    as (st2 & Hst2 & _ & Hcopy2); rewrite ?Hib, ?Hd, ?Hc; try assumption;
    try apply Hib0.
  assert (Hstatus : status s2' = status s1').
  { destruct Hsame' as (K & _). unfold visit_shared in K. congruence. }
  rewrite Hsa, Hstatus, Hst1 in Hst2. injection Hst2 as <-.
  destruct (Hcopy1 j Hj) as (v1 & Hv1 & Hw1).
  destruct (Hcopy2 j) as (v2 & Hv2 & Hw2); [rewrite Hib; exact Hj|].
  rewrite Hca, Hc, Hv1 in Hv2. injection Hv2 as <-.
  rewrite Hd in Hw2. now rewrite Hw1, Hw2.
Qed.


End RunSame.
(** ** One file after another *)

(** The bytes of the pixels of an image are all the cells of its array. *)
Lemma pixels_cover (w h d : Z) (l1 l2 : list Z) :
  Z.of_nat (length l1) = w * h * d -> length l2 = length l1 ->
  0 <= w -> 0 <= h -> 0 <= d ->
  (forall x y j, 0 <= x < w -> 0 <= y < h -> 0 <= j < d ->
     read l2 (image_at (mkImage w h d) x y + j) =
     read l1 (image_at (mkImage w h d) x y + j)) ->
  l2 = l1.
Proof.
  intros Hl1 Hl2 Hw Hh Hd Hread. apply nth_error_ext. intros n.
  destruct (Nat.lt_ge_cases n (length l1)) as [Hlt|Hge].
  - set (i := Z.of_nat n).
    assert (Hi : 0 <= i < w * h * d) by lia.
    assert (Hdpos : 0 < d) by nia. assert (Hwpos : 0 < w) by nia.
    set (j := i mod d). set (q := i / d). set (x := q mod w). set (y := q / w).
    assert (Hj : 0 <= j < d) by (apply Z.mod_pos_bound; lia).
    assert (Hx : 0 <= x < w) by (apply Z.mod_pos_bound; lia).
    assert (Hq : 0 <= q < w * h).
    { split; [apply Z.div_pos; lia|]. apply Z.div_lt_upper_bound; [lia|]. nia. }
    assert (Hy : 0 <= y < h).
    { split; [apply Z.div_pos; lia|]. apply Z.div_lt_upper_bound; [lia|]. lia. }
    assert (Hsplit : i = (y * w + x) * d + j).
    { pose proof (Z.div_mod i d ltac:(lia)) as H1.
      pose proof (Z.div_mod q w ltac:(lia)) as H2.
      fold q j in H1. fold x y in H2. nia. }
    specialize (Hread x y j Hx Hy Hj). unfold image_at in Hread.
    cbn [width depth] in Hread. rewrite <- Hsplit in Hread.
    unfold read, in_range in Hread. rewrite Hl2 in Hread.
    rewrite (proj2 (Z.leb_le 0 i)), (proj2 (Z.ltb_lt i _)) in Hread by lia.
    cbn [andb] in Hread. unfold i in Hread. rewrite Nat2Z.id in Hread.
    destruct (nth_error l2 n), (nth_error l1 n); congruence.
  - rewrite (proj2 (nth_error_None l1 n)), (proj2 (nth_error_None l2 n)) by lia.
    reflexivity.
Qed.

(** [main_file] is the run on the state that [main] has loaded, with the
    parameters clamped. *)
Lemma main_file_run (qsort : (Coord -> Coord -> Z) -> list Coord -> list Coord)
    (rand : nat -> nat) (fuel : nat) (s : Resynth_state) (p p' : Parameters)
    (scale w h d : Z) (image : list Pixel) :
  clamp_parameters p = Done p' ->
  main_file qsort rand fuel s p scale w h d image =
  run qsort rand fuel (srand (load_image s w h d image (clamp_scale scale))) p'.
Proof. intros E. unfold main_file. rewrite E. reflexivity. Qed.

Lemma clamp_parameters_asked (p p' : Parameters) :
  clamp_parameters p = Done p' -> 1 <= neighbors p -> 1 <= tries p ->
  1 <= neighbors p' <= 1093 /\ 1 <= tries p'.
Proof.
  intros Ep Hn Ht.
  unfold clamp_parameters in Ep. rewrite disc00_last in Ep. cbn [bind] in Ep.
  injection Ep as <-.
  cbn [neighbors tries set_tries set_neighbors set_autism set_magic set_polish].
  unfold CLAMP, MIN, MAX.
  destruct (Z.gtb_spec (neighbors p) 0); [|lia].
  destruct (Z.gtb_spec (tries p) 0); [|lia].
  destruct (Z.ltb_spec (neighbors p) 1093), (Z.ltb_spec (tries p) 65536); lia.
Qed.

(** The output that [main] sets up for an image that is not empty. *)
Lemma load_image_output (s : Resynth_state) (w h d c : Z) (image : list Pixel) :
  0 < w -> 0 < h ->
  exists dw dh,
    0 < dw /\ 0 < dh /\
    data (srand (load_image s w h d image c)) = mkImage dw dh (Z.min d 3) /\
    data_array (srand (load_image s w h d image c)) = MEMORY 0 (dw * dh * Z.min d 3).
Proof.
  intros Hw Hh.
  exists (if c <? 0 then - c else if c >? 0 then c * w else 256),
         (if c <? 0 then - c else if c >? 0 then c * h else 256).
  assert (Hsize : forall n, 0 < n ->
            0 < (if c <? 0 then - c else if c >? 0 then c * n else 256)).
  { intros n Hpos. destruct (Z.ltb_spec c 0); [lia|].
    destruct (Z.gtb_spec c 0); nia. }
  split; [now apply Hsize|]. split; [now apply Hsize|]. split; reflexivity.
Qed.

Section MainSame.

Variable qsort : (Coord -> Coord -> Z) -> list Coord -> list Coord.
Variable rand : nat -> nat.

Hypothesis qsort_permutation :
  forall cmp l, Permutation (qsort cmp l) l.

Hypothesis qsort_sorted :
  forall cmp l,
    (forall a b, cmp a b <= 0 \/ cmp b a <= 0) ->
    (forall a b c, cmp a b <= 0 -> cmp b c <= 0 -> cmp a c <= 0) ->
    StronglySorted (fun a b => cmp a b <= 0) (qsort cmp l).

(** X27.  What [main] makes of a file does not depend on the files it
    has processed before, the seed being the same.  Take an image of at
    least one pixel with 1 to 4 bytes a pixel, sizes [w * h * d] of the
    image and [data_w * data_h * input_bytes] of the output that fit in an
    [int], an offset table whose comparisons do not overflow, and
    parameters that ask for one neighbor and one try at least.  Let [s]
    and [t] be any two states, such as the zeroed state of the first file
    and the state that earlier files have left: if the file completes
    from [s], it completes from [t], with the same output pixels and the
    same status map. *)
Theorem main_file_forgets_earlier_files (fuel : nat) (s t s' : Resynth_state)
    (p : Parameters) (scale w h d : Z) (image : list Pixel) :
  0 < w -> 0 < h -> 1 <= d <= 4 -> w * h * d <= INT_MAX ->
  1 <= neighbors p -> 1 <= tries p ->
  let s0 := load_image zero_state w h d image (clamp_scale scale) in
  width (data s0) * height (data s0) * depth (data s0) <= INT_MAX ->
  (Z.min w (width (data s0)) - 1) * (Z.min w (width (data s0)) - 1) +
  (Z.min h (height (data s0)) - 1) * (Z.min h (height (data s0)) - 1) <= INT_MAX ->
  main_file qsort rand fuel s p scale w h d image = Done s' ->
  exists t',
    main_file qsort rand fuel t p scale w h d image = Done t' /\
    data_array t' = data_array s' /\ status_array t' = status_array s'.
Proof.
  intros Hw Hh Hd4 _ Hn Ht s0 _ _ H.
  assert (Hd : 0 <= d) by lia.
  destruct (clamp_parameters p) as [p'| |] eqn:Ep;
    try (unfold clamp_parameters in Ep; rewrite disc00_last in Ep; discriminate Ep).
  destruct (clamp_parameters_asked p p' Ep Hn Ht) as [Hn' Ht'].
  rewrite (main_file_run qsort rand fuel s p p' scale w h d image Ep) in H.
  rewrite (main_file_run qsort rand fuel t p p' scale w h d image Ep).
  set (c := clamp_scale scale) in *.
  destruct (load_image_output s w h d c image Hw Hh) as (dw & dh & Hdw & Hdh & Hds & Has).
  assert (Hdt : data (srand (load_image t w h d image c)) = mkImage dw dh (Z.min d 3))
    by (rewrite <- Hds; reflexivity).
  assert (Hat : data_array (srand (load_image t w h d image c)) =
                MEMORY 0 (dw * dh * Z.min d 3))
    by (rewrite <- Has; reflexivity).
  assert (Hbytes : input_bytes (srand (load_image s w h d image c)) = Z.min d 3)
    by reflexivity.
  assert (Hscore : neighbors p' * (Z.min d 3 * 65536) < INT_MAX)
    by (unfold INT_MAX; nia).
  destruct (run_Done_same qsort rand qsort_permutation qsort_sorted fuel
              (srand (load_image s w h d image c))
              (srand (load_image t w h d image c)) s' p')
    as (t' & Hrun & Hsa & Hread);
    [reflexivity|congruence|reflexivity|reflexivity|reflexivity|congruence
    |exact Hw|exact Hh|rewrite Hds; exact Hdw|rewrite Hds; exact Hdh
    |rewrite Hbytes, Hds; cbn [depth]; lia|lia|rewrite Hbytes; exact Hscore
    |exact Ht'|exact H|].
  exists t'. split; [exact Hrun|]. split; [|exact Hsa].
  apply run_Done_kept in H as (_ & _ & _ & _ & Hls & _).
  apply run_Done_kept in Hrun as (_ & _ & _ & _ & Hlt & _).
  rewrite Has in Hls. rewrite Hat in Hlt. rewrite Hds, Hbytes in Hread.
  apply (pixels_cover dw dh (Z.min d 3)).
  - rewrite Hls. unfold MEMORY. rewrite repeat_length.
    rewrite Z2Nat.id; [reflexivity|].
    clear - Hdw Hdh Hd. apply Z.mul_nonneg_nonneg; [apply Z.mul_nonneg_nonneg|]; lia.
  - rewrite Hlt, Hls. reflexivity.
  - clear - Hdw. lia.
  - clear - Hdh. lia.
  - clear - Hd. lia.
  - exact Hread.
Qed.

End MainSame.

(** * Instances *)

Lemma Forall_nonneg_check (l : list Z) :
  forallb (fun t => 0 <=? t) l = true -> Forall (fun t => 0 <= t) l.
Proof.
  intros H. apply Forall_forall. intros t Hin.
  rewrite forallb_forall in H. apply Z.leb_le. now apply H.
Qed.

Lemma Forall_byte_check (l : list Z) :
  forallb (fun b => (0 <=? b) && (b <=? 255)) l = true -> Forall is_byte l.
Proof.
  intros H. apply Forall_forall. intros t Hin.
  rewrite forallb_forall in H. specialize (H t Hin).
  apply andb_true_iff in H as [H1 H2]. unfold is_byte. lia.
Qed.

Lemma scoring_state_ready : scoring_ready scoring_state.
Proof.
  constructor.
  - vm_compute. discriminate.
  - vm_compute. discriminate.
  - repeat constructor; try (vm_compute; discriminate).
  - vm_compute. split; discriminate.
  - reflexivity.
  - apply Forall_byte_check. reflexivity.
  - reflexivity.
  - apply Forall_nonneg_check. vm_compute. reflexivity.
Defined.

Lemma settled_state_ready : scoring_ready settled_state.
Proof.
  constructor.
  - vm_compute. discriminate.
  - vm_compute. discriminate.
  - repeat constructor; try (vm_compute; discriminate).
  - vm_compute. split; discriminate.
  - reflexivity.
  - apply Forall_byte_check. reflexivity.
  - reflexivity.
  - apply Forall_nonneg_check. vm_compute. reflexivity.
Defined.




(** C8 at an instance: [autism = 0], the cells of the differences 0 and 7. *)
Lemma diff_table_zero_and_hard_witness :
  (0 <= 0)%Q /\ -256 <= 7 < 256 /\
  read (make_diff_table 0) 256 = Done 0 /\
  read (make_diff_table 0) (256 + 7) = Done 65536.
Proof.
  assert (Ha : (0 <= 0)%Q) by apply Qle_refl.
  assert (Hd : -256 <= 7 < 256) by lia.
  split; [exact Ha|]. split; [exact Hd|]. split.
  - exact (proj1 (diff_table_zero_and_hard 0)).
  - exact (proj2 (diff_table_zero_and_hard 0) Ha 7 Hd).
Defined.

(** C4, amended, at an instance: [autism = 1], the difference 2. *)
Lemma diff_table_truncates_witness :
  (0 < 1)%Q /\ -256 <= 2 < 256 /\
  exists c, read (make_diff_table 1) (256 + 2) = Done c /\ 0 <= c /\
            (IZR c <= spec_cost_value 1 2 < IZR c + 1)%R.
Proof.
  assert (Ha : (0 < 1)%Q) by reflexivity.
  assert (Hd : -256 <= 2 < 256) by lia.
  split; [exact Ha|]. split; [exact Hd|].
  exact (diff_table_truncates 1 2 Ha Hd).
Defined.

(** C5 at an instance: the candidate (0, 0) against the two gathered
    neighbors. *)
Lemma try_point_reference_witness :
  scoring_ready scoring_state /\
  (0 < best scoring_state \/ 0 < n_neighbors scoring_state) /\
  try_point scoring_state (mkCoord 0 0) =
    Done (reference_try_point scoring_state (mkCoord 0 0)).
Proof.
  assert (Hpos : 0 < best scoring_state \/ 0 < n_neighbors scoring_state)
    by (left; reflexivity).
  split; [exact scoring_state_ready|]. split; [exact Hpos|].
  exact (try_point_reference scoring_state (mkCoord 0 0) scoring_state_ready Hpos).
Defined.

(** Why the driver's test of [best] matters.  In a state that no call
    receives, with no neighbor gathered and a best score of 0, the whole
    reference sum of the candidate (1, 1) is 0, which is not lower than the
    best score; [try_point] would still make it the best point. *)
Lemma try_point_moves_best_point :
  scoring_ready settled_state /\
  best settled_state = 0 /\ best_point settled_state = mkCoord 0 0 /\
  reference_sum settled_state (mkCoord 1 1) = 0 /\
  reference_try_point settled_state (mkCoord 1 1) = settled_state /\
  try_point settled_state (mkCoord 1 1) =
    Done (set_best_point (mkCoord 1 1) settled_state) /\
  try_point settled_state (mkCoord 1 1) <>
    Done (reference_try_point settled_state (mkCoord 1 1)).
Proof.
  split; [exact settled_state_ready|].
  split; [reflexivity|]. split; [reflexivity|].
  split; [vm_compute; reflexivity|]. split; [vm_compute; reflexivity|].
  split; [vm_compute; reflexivity|].
  intros H. vm_compute in H. discriminate H.
Qed.

(** C9, amended, at an instance: a corpus without pixels. *)
Lemma run_invalid_sizes_witness :
  (width (corpus empty_corpus_state) <= 0 \/ height (corpus empty_corpus_state) <= 0 \/
   width (data empty_corpus_state) <= 0 \/ height (data empty_corpus_state) <= 0) /\
  exists s',
    run insertion_sort no_random 0 empty_corpus_state main_parameters = Done s' /\
    data_array s' = data_array empty_corpus_state /\
    stderr s' = [("invalid sizes\n"%string, []); ("corpus: %i\n"%string, [0]);
                 ("data: %i\n"%string, [1])].
Proof.
  assert (H : width (corpus empty_corpus_state) <= 0 \/
              height (corpus empty_corpus_state) <= 0 \/
              width (data empty_corpus_state) <= 0 \/
              height (data empty_corpus_state) <= 0)
    by (left; vm_compute; discriminate).
  split; [exact H|].
  destruct (run_invalid_sizes insertion_sort no_random 0 empty_corpus_state
              main_parameters H)
    as (s' & Hrun & Hdata & _ & _ & _ & _ & _ & _ & Herr & _).
  exists s'. split; [exact Hrun|]. split; [exact Hdata|]. exact Herr.
Defined.

(** C9 fails as stated.  On the corpus without pixels the run has, when it
    returns, allocated and cleared the status map of the output, listed the
    output coordinates and allocated the diff table. *)
Lemma run_invalid_sizes_touches_buffers :
  exists s',
    run insertion_sort no_random 0 empty_corpus_state main_parameters = Done s' /\
    status_array empty_corpus_state = [] /\ status_array s' = [Status_zero] /\
    data_points empty_corpus_state = [] /\ data_points s' = [mkCoord 0 0] /\
    diff_table empty_corpus_state = [] /\ diff_table s' = repeat 0 512.
Proof.
  exists (report_invalid_sizes (setup_state empty_corpus_state main_parameters)).
  split; [|repeat split; vm_compute; reflexivity].
  unfold run. rewrite run_counting_invalid; [reflexivity|].
  vm_compute. reflexivity.
Qed.

(** C1 at an instance of the failure: one polish pass asked for, three
    turns of fuel. *)
Lemma run_polish_overruns_witness :
  1 <= polish polish_parameters <= 9 /\ Z.of_nat 3 <= INT_MAX - 9 /\
  (forall r, run_counting insertion_sort no_random 3 four_colors_state
               polish_parameters <> Done r) /\
  (forall s', run insertion_sort no_random 3 four_colors_state
                polish_parameters <> Done s').
Proof.
  assert (Hp : 1 <= polish polish_parameters <= 9) by (simpl; lia).
  assert (Hf : Z.of_nat 3 <= INT_MAX - 9) by (vm_compute; discriminate).
  split; [exact Hp|]. split; [exact Hf|].
  apply (run_polish_overruns insertion_sort no_random 3 four_colors_state
           polish_parameters); try (vm_compute; reflexivity); assumption.
Defined.

(** After the one pass asked for, the guard of the polish loop still
    holds, and the loop runs out of the three turns it was given. *)
Lemma polish_one_pass_goes_on :
  polish_guard polish_parameters 1 = true /\
  run insertion_sort no_random 3 four_colors_state polish_parameters = OutOfFuel.
Proof. split; vm_compute; reflexivity. Qed.

(** C3 at its scenario: the 2 by 2 corpus of four colors, [neighbors = 0],
    [tries = 1], [polish = 0]. *)
Lemma run_without_neighbors_faults_witness :
  neighbors scenario_parameters <= 0 /\ polish scenario_parameters = 0 /\
  run insertion_sort no_random 10 four_colors_state scenario_parameters = Fault.
Proof.
  assert (Hn : neighbors scenario_parameters <= 0) by (simpl; lia).
  assert (Hp : polish scenario_parameters = 0) by reflexivity.
  split; [exact Hn|]. split; [exact Hp|].
  apply (run_without_neighbors_faults insertion_sort no_random
           insertion_sort_permutation insertion_sort_sorted 10 four_colors_state
           scenario_parameters); try (vm_compute; reflexivity); assumption.
Defined.

Lemma sample_run :
  run insertion_sort (rand_cycle [3; 1; 2]%nat) 10 four_colors_state sample_parameters
  = Done sample_result.
Proof. vm_compute. reflexivity. Defined.

(** X24 at an instance: the pixel (1, 1) of the sample run. *)
Lemma run_resolves_every_pixel_witness :
  run insertion_sort (rand_cycle [3; 1; 2]%nat) 10 four_colors_state sample_parameters
    = Done sample_result /\
  exists st,
    read (status_array sample_result) (image_at (status sample_result) 1 1) = Done st /\
    has_value st = true /\ has_source st = true /\
    0 <= cx (source st) < width (corpus four_colors_state) /\
    0 <= cy (source st) < height (corpus four_colors_state).
Proof.
  split; [exact sample_run|].
  refine (run_resolves_every_pixel insertion_sort (rand_cycle [3; 1; 2]%nat) 10
            four_colors_state sample_result sample_parameters
            _ _ _ _ _ _ sample_run 1 1 _ _);
    vm_compute; first [reflexivity | split; [discriminate|reflexivity]].
Defined.

Lemma first_image_run :
  run insertion_sort no_random 10 first_image_state no_tries_parameters
  = Done first_image_result.
Proof. vm_compute. reflexivity. Qed.

Lemma second_image_run :
  run insertion_sort no_random 10 second_image_state no_tries_parameters
  = Done second_image_result.
Proof. vm_compute. reflexivity. Qed.

(** C2, where the code departs from it.  [main] called with [-a 0 -M 0]
    on a 3 by 1 image and then on a 1 by 2 image.  It zeroes its state
    once, before the loop over the files, and [run] does not reset
    [best_point].  The run on the first image leaves (1, 0) there; the run
    on the second image finishes, and the source it records for the output
    pixel (0, 0) is (1, 0), outside the corpus, which is 1 pixel wide. *)
Lemma stale_best_point_leaves_corpus :
  main_file insertion_sort no_random 10 zero_state no_tries_parameters 1 3 1 3 six_grays
    = Done first_image_result /\
  run insertion_sort no_random 10 first_image_state no_tries_parameters
    = Done first_image_result /\
  best_point first_image_result = mkCoord 1 0 /\
  main_file insertion_sort no_random 10 first_image_result no_tries_parameters
            1 1 2 3 six_grays
    = Done second_image_result /\
  run insertion_sort no_random 10 second_image_state no_tries_parameters
    = Done second_image_result /\
  width (corpus second_image_state) = 1 /\
  read (status_array second_image_result) (image_at (status second_image_result) 0 0)
    = Done (mkStatus true true (mkCoord 1 0)) /\
  ~ (0 <= cx (mkCoord 1 0) < width (corpus second_image_state)).
Proof.
  split; [vm_compute; reflexivity|].
  split; [exact first_image_run|]. split; [vm_compute; reflexivity|].
  split; [vm_compute; reflexivity|].
  split; [exact second_image_run|]. split; [vm_compute; reflexivity|].
  split; [vm_compute; reflexivity|].
  vm_compute. intros [_ H]. discriminate H.
Qed.

(** X25 at an instance: the first visit of the run on the first image.
    Only the pixel itself is gathered, and it has no source yet. *)
Lemma visit_without_candidate_witness :
  gather 10 no_tries_parameters first_run_entry 2
    = Done (mkCoord 2 0, first_run_gathered) /\
  tries no_tries_parameters <= 0 /\
  visit no_random 10 no_tries_parameters first_run_entry 2 = Done first_run_visited /\
  best first_run_visited = INT_MAX /\
  best_point first_run_visited = best_point first_run_entry /\
  read (status_array first_run_visited)
       (image_atc (status first_run_entry) (mkCoord 2 0))
    = Done (mkStatus true true (best_point first_run_entry)).
Proof.
  assert (G : gather 10 no_tries_parameters first_run_entry 2
              = Done (mkCoord 2 0, first_run_gathered)) by (vm_compute; reflexivity).
  assert (T : tries no_tries_parameters <= 0) by (vm_compute; discriminate).
  assert (V : visit no_random 10 no_tries_parameters first_run_entry 2
              = Done first_run_visited) by (vm_compute; reflexivity).
  assert (N : forall j, 0 <= j < n_neighbors first_run_gathered ->
                        no_candidate first_run_gathered j).
  { intros j Hj. change (n_neighbors first_run_gathered) with 1 in Hj.
    assert (j = 0) by lia. subst j.
    exists 2, (mkStatus true false (mkCoord 0 0)).
    split; [vm_compute; reflexivity|]. split; [vm_compute; reflexivity|].
    left. reflexivity. }
  destruct (visit_without_candidate no_random 10 no_tries_parameters first_run_entry
              first_run_gathered first_run_visited 2 (mkCoord 2 0) G T N V)
    as (_ & Hbest & Hpoint & Hstatus & _).
  split; [exact G|]. split; [exact T|]. split; [exact V|].
  split; [exact Hbest|]. split; [exact Hpoint|]. exact Hstatus.
Defined.

(** C10, where the code departs from it.  [main] called with
    [-a 0 -M 0] on a 3 by 1 image and then on a second image.  In the run
    on a second image of 1 by 2 pixels no candidate is scored in the first
    visit, nor has any been scored in the run before it; the source it
    commits is the point (1, 0) left by the run on the first image, which
    is neither (0, 0) nor inside the corpus of width 1.  On a second
    image of 1 by 1 pixel the commit reads the corpus past its end, and
    the run goes wrong. *)
Lemma stale_source_committed :
  run insertion_sort no_random 10 first_image_state no_tries_parameters
    = Done first_image_result /\
  second_image_state = load_image first_image_result 1 2 3 six_grays 1 /\
  rand_calls second_run_entry = rand_calls first_image_state /\
  gather 10 no_tries_parameters second_run_entry 1
    = Done (mkCoord 0 1, second_run_gathered) /\
  n_neighbors second_run_gathered = 1 /\
  no_candidate second_run_gathered 0 /\
  visit no_random 10 no_tries_parameters second_run_entry 1 = Done second_run_visited /\
  best second_run_visited = INT_MAX /\
  read (status_array second_run_visited)
       (image_atc (status second_run_entry) (mkCoord 0 1))
    = Done (mkStatus true true (mkCoord 1 0)) /\
  mkCoord 1 0 <> mkCoord 0 0 /\
  width (corpus second_run_entry) = 1 /\
  ~ (0 <= cx (mkCoord 1 0) < width (corpus second_run_entry)) /\
  main_file insertion_sort no_random 10 first_image_result no_tries_parameters
            1 1 1 3 [10; 10; 10]
    = Fault.
Proof.
  split; [exact first_image_run|]. split; [reflexivity|].
  split; [vm_compute; reflexivity|]. split; [vm_compute; reflexivity|].
  split; [vm_compute; reflexivity|]. split.
  { exists 1, (mkStatus true false (mkCoord 0 0)).
    split; [vm_compute; reflexivity|]. split; [vm_compute; reflexivity|].
    left. reflexivity. }
  split; [vm_compute; reflexivity|]. split; [vm_compute; reflexivity|].
  split; [vm_compute; reflexivity|]. split; [discriminate|].
  split; [vm_compute; reflexivity|]. split.
  - vm_compute. intros [_ H]. discriminate H.
  - vm_compute. reflexivity.
Qed.


(** * More instances *)

Lemma no_NUL_check (l : list ascii) :
  forallb (fun c => negb (Ascii.eqb c NUL)) l = true -> ~ In NUL l.
Proof.
  intros H Hin. rewrite forallb_forall in H. specialize (H NUL Hin).
  now rewrite Ascii.eqb_refl in H.
Defined.

Lemma no_dot_check (l : list ascii) :
  forallb (fun c => negb (Ascii.eqb c "."%char)) l = true -> ~ In "."%char l.
Proof.
  intros H Hin. rewrite forallb_forall in H. specialize (H "."%char Hin).
  now rewrite Ascii.eqb_refl in H.
Defined.

Lemma Forall_cost_check (l : list Z) :
  forallb (fun t => (0 <=? t) && (t <=? 65536)) l = true ->
  Forall (fun t => 0 <= t <= 65536) l.
Proof.
  intros H. apply Forall_forall. intros t Hin.
  rewrite forallb_forall in H. specialize (H t Hin).
  apply andb_true_iff in H as [H1 H2]. lia.
Defined.

(** X1 at an instance: a path with a dot in a directory name. *)
Lemma manipulate_filename_replaces_extension_witness :
  ~ In NUL (list_ascii_of_string "dir.v2/image.png") /\
  ~ In NUL (list_ascii_of_string ".resynth.png") /\
  (length (list_ascii_of_string ".resynth.png") <= 255)%nat /\
  exists out,
    manipulate_filename (c_literal "dir.v2/image.png") (c_literal ".resynth.png")
      = Done out /\
    c_string out = list_ascii_of_string "dir.v2/image.resynth.png".
Proof.
  assert (H1 : ~ In NUL (list_ascii_of_string "dir.v2/image.png"))
    by (apply no_NUL_check; reflexivity).
  assert (H2 : ~ In NUL (list_ascii_of_string ".resynth.png"))
    by (apply no_NUL_check; reflexivity).
  assert (H3 : (length (list_ascii_of_string ".resynth.png") <= 255)%nat)
    by (apply Nat.leb_le; reflexivity).
  split; [exact H1|]. split; [exact H2|]. split; [exact H3|].
  destruct (manipulate_filename_replaces_extension
              (list_ascii_of_string "dir.v2/image.png")
              (list_ascii_of_string ".resynth.png") [] [] H1 H2 H3)
    as (out & Hrun & _ & _ & Hdot).
  exists out. split; [exact Hrun|].
  apply (Hdot (list_ascii_of_string "dir.v2/image") (list_ascii_of_string "png")).
  - reflexivity.
  - apply no_dot_check. reflexivity.
Defined.

(** X2 at an instance. *)
Lemma manipulate_filename_not_the_input_witness :
  ~ In NUL (list_ascii_of_string "image.resynth.png") /\
  (length (list_ascii_of_string "image.resynth.png") <= 256)%nat /\
  exists out,
    manipulate_filename (c_literal "image.resynth.png") resynth_extension = Done out /\
    c_string out <> list_ascii_of_string "image.resynth.png".
Proof.
  assert (H1 : ~ In NUL (list_ascii_of_string "image.resynth.png"))
    by (apply no_NUL_check; reflexivity).
  assert (H2 : (length (list_ascii_of_string "image.resynth.png") <= 256)%nat)
    by (apply Nat.leb_le; reflexivity).
  split; [exact H1|]. split; [exact H2|].
  exact (manipulate_filename_not_the_input
           (list_ascii_of_string "image.resynth.png") [] H1 H2).
Defined.

(** X3 at an instance: a name of 256 letters and an extension of 256. *)
Lemma manipulate_filename_overruns_witness :
  ~ In NUL (repeat "a"%char 256) /\ ~ In NUL (repeat "b"%char 256) /\
  ~ In "."%char (firstn 256 (repeat "a"%char 256)) /\
  (512 <= length (firstn 256 (repeat "a"%char 256)) + length (repeat "b"%char 256))%nat /\
  manipulate_filename (repeat "a"%char 256 ++ [NUL]) (repeat "b"%char 256 ++ [NUL])
    = Fault.
Proof.
  assert (H1 : ~ In NUL (repeat "a"%char 256)) by (apply no_NUL_check; reflexivity).
  assert (H2 : ~ In NUL (repeat "b"%char 256)) by (apply no_NUL_check; reflexivity).
  assert (H3 : ~ In "."%char (firstn 256 (repeat "a"%char 256)))
    by (apply no_dot_check; reflexivity).
  assert (H4 : (512 <= length (firstn 256 (repeat "a"%char 256))
                       + length (repeat "b"%char 256))%nat)
    by (apply Nat.leb_le; reflexivity).
  split; [exact H1|]. split; [exact H2|]. split; [exact H3|]. split; [exact H4|].
  exact (proj1 (manipulate_filename_overruns (repeat "a"%char 256)
                  (repeat "b"%char 256) [] [] H1 H2) H3 H4).
Defined.

(** X4 at an instance: the parameters that [main] starts with are left
    as they are. *)
Lemma clamp_parameters_ranges_witness :
  0 <= polish main_parameters <= 9 /\ 0 <= neighbors main_parameters <= 1093 /\
  exists p',
    clamp_parameters main_parameters = Done p' /\
    polish p' = polish main_parameters /\ neighbors p' = neighbors main_parameters.
Proof.
  assert (H1 : 0 <= polish main_parameters <= 9) by (split; discriminate).
  assert (H2 : 0 <= neighbors main_parameters <= 1093) by (split; discriminate).
  split; [exact H1|]. split; [exact H2|].
  destruct (clamp_parameters_ranges main_parameters)
    as (p' & Hrun & _ & _ & _ & _ & _ & _ & _ & Hp & _ & _ & Hn & _).
  exists p'. split; [exact Hrun|]. split; [exact (Hp H1)|exact (Hn H2)].
Defined.


(** X7 at an instance: [autism = 1], the cell 258. *)
Lemma diff_table_bounds_witness :
  0 <= 258 < 512 /\
  read (make_diff_table 1) 0 = Done 65536 /\
  exists t, read (make_diff_table 1) 258 = Done t /\ 0 <= t <= 65536.
Proof.
  assert (H : 0 <= 258 < 512) by lia.
  split; [exact H|]. split.
  - exact (proj1 (diff_table_bounds 1)).
  - exact (proj2 (diff_table_bounds 1) 258 H).
Defined.

(** X8 at an instance: [autism = 1], the differences 2 and 5. *)
Lemma diff_table_even_and_monotone_witness :
  0 <= 2 <= 5 /\ 5 <= 255 /\
  exists td te,
    read (make_diff_table 1) (256 + 2) = Done td /\
    read (make_diff_table 1) (256 - 2) = Done td /\
    read (make_diff_table 1) (256 + 5) = Done te /\
    read (make_diff_table 1) (256 - 5) = Done te /\
    td <= te.
Proof.
  assert (H1 : 0 <= 2 <= 5) by lia. assert (H2 : 5 <= 255) by lia.
  split; [exact H1|]. split; [exact H2|].
  exact (diff_table_even_and_monotone 1 2 5 H1 H2).
Defined.

Lemma scoring_state_scored :
  try_point scoring_state (mkCoord 0 0) = Done scored_state.
Proof. vm_compute. reflexivity. Defined.

(** X9 at an instance: the candidate (0, 0) against the two gathered
    neighbors. *)
Lemma try_point_score_bounded_witness :
  Forall (fun t => 0 <= t <= 65536) (diff_table scoring_state) /\
  0 <= input_bytes scoring_state /\ 0 <= n_neighbors scoring_state /\
  try_point scoring_state (mkCoord 0 0) = Done scored_state /\
  (scored_state = scoring_state \/
   (scored_state =
      set_best_point (mkCoord 0 0) (set_best (best scored_state) scoring_state) /\
    0 <= best scored_state
      <= n_neighbors scoring_state * (input_bytes scoring_state * 65536) /\
    (0 < n_neighbors scoring_state -> best scored_state < best scoring_state) /\
    (n_neighbors scoring_state <= 1093 -> input_bytes scoring_state <= 3 ->
     best scored_state < INT_MAX))).
Proof.
  assert (H1 : Forall (fun t => 0 <= t <= 65536) (diff_table scoring_state))
    by (apply Forall_cost_check; vm_compute; reflexivity).
  assert (H2 : 0 <= input_bytes scoring_state) by discriminate.
  assert (H3 : 0 <= n_neighbors scoring_state) by discriminate.
  split; [exact H1|]. split; [exact H2|]. split; [exact H3|].
  split; [exact scoring_state_scored|].
  exact (try_point_score_bounded scoring_state scored_state (mkCoord 0 0)
           H1 H2 H3 scoring_state_scored).
Defined.

(** X10 at an instance: another value for the first neighbor. *)
Lemma try_point_first_value_unused_witness :
  write (neighbor_values scoring_state) 0 [9; 9; 9; 9] =
    Done [[9; 9; 9; 9]; [0; 255; 0; 0]] /\
  try_point (set_neighbor_values [[9; 9; 9; 9]; [0; 255; 0; 0]] scoring_state)
            (mkCoord 0 0) =
  match try_point scoring_state (mkCoord 0 0) with
  | Done s' => Done (set_neighbor_values [[9; 9; 9; 9]; [0; 255; 0; 0]] s')
  | Fault => Fault
  | OutOfFuel => OutOfFuel
  end.
Proof.
  assert (H : write (neighbor_values scoring_state) 0 [9; 9; 9; 9] =
              Done [[9; 9; 9; 9]; [0; 255; 0; 0]]) by reflexivity.
  split; [exact H|].
  exact (try_point_first_value_unused scoring_state (mkCoord 0 0) [9; 9; 9; 9]
           [[9; 9; 9; 9]; [0; 255; 0; 0]] H).
Defined.

(** X11 at an instance: the point (-5, 2) of a 4 by 3 image that tiles
    in x. *)
Lemma wrap_or_clip_fixed_point_witness :
  wrap_or_clip 8 (mkParameters true false 0 1 1 0 0) (mkImage 4 3 3) (mkCoord (-5) 2)
    = Done (true, mkCoord 3 2) /\
  wrap_or_clip 0 (mkParameters true false 0 1 1 0 0) (mkImage 4 3 3) (mkCoord 3 2)
    = Done (true, mkCoord 3 2).
Proof.
  assert (H : wrap_or_clip 8 (mkParameters true false 0 1 1 0 0) (mkImage 4 3 3)
                (mkCoord (-5) 2) = Done (true, mkCoord 3 2)) by reflexivity.
  split; [exact H|].
  exact (proj2 (wrap_or_clip_fixed_point 8 _ _ _ _ H) O).
Defined.

(** X12 at an instance: an image without columns that tiles in x. *)
Lemma wrap_or_clip_empty_axis_witness :
  h_tile (mkParameters true false 0 1 1 0 0) = true /\ width (mkImage 0 3 3) = 0 /\
  wrap_or_clip 1000 (mkParameters true false 0 1 1 0 0) (mkImage 0 3 3) (mkCoord 5 1)
    = OutOfFuel.
Proof.
  split; [reflexivity|]. split; [reflexivity|].
  exact (proj1 (wrap_or_clip_empty_axis 1000 (mkParameters true false 0 1 1 0 0)
                  (mkImage 0 3 3) (mkCoord 5 1)) eq_refl eq_refl).
Defined.


Lemma sample_gather :
  gather 10 sample_parameters sample_entry 3 = Done (mkCoord 1 1, sample_gathered).
Proof. vm_compute. reflexivity. Defined.

(** X14 at an instance: the first visit of the sample run, at the pixel
    (1, 1). *)
Lemma gather_first_neighbor_is_self_witness :
  sorted_offsets sample_entry = mkCoord 0 0 :: tl (sorted_offsets sample_entry) /\
  read (data_points sample_entry) 3 = Done (mkCoord 1 1) /\
  gather 10 sample_parameters sample_entry 3 = Done (mkCoord 1 1, sample_gathered) /\
  1 <= n_neighbors sample_gathered /\
  read (s_neighbors sample_gathered) 0 = Done (mkCoord 0 0) /\
  read (neighbor_statuses sample_gathered) 0 =
    Done (Some (image_atc (status sample_entry) (mkCoord 1 1))) /\
  exists st,
    read (status_array sample_gathered) (image_atc (status sample_entry) (mkCoord 1 1))
      = Done st /\
    has_value st = true.
Proof.
  assert (H1 : sorted_offsets sample_entry =
               mkCoord 0 0 :: tl (sorted_offsets sample_entry))
    by (vm_compute; reflexivity).
  assert (H2 : read (data_points sample_entry) 3 = Done (mkCoord 1 1))
    by (vm_compute; reflexivity).
  assert (H3 : 0 <= cx (mkCoord 1 1) < width (data sample_entry))
    by (vm_compute; split; [discriminate|reflexivity]).
  assert (H4 : 0 <= cy (mkCoord 1 1) < height (data sample_entry))
    by (vm_compute; split; [discriminate|reflexivity]).
  split; [exact H1|]. split; [exact H2|]. split; [exact sample_gather|].
  exact (gather_first_neighbor_is_self 10 sample_parameters sample_entry sample_gathered
           3 (mkCoord 1 1) (tl (sorted_offsets sample_entry)) H1 H2 H3 H4 sample_gather).
Defined.

(** X15 at an instance: the sample run. *)
Lemma run_keeps_its_input_witness :
  run insertion_sort (rand_cycle [3; 1; 2]%nat) 10 four_colors_state sample_parameters
    = Done sample_result /\
  corpus sample_result = corpus four_colors_state /\
  corpus_array sample_result = corpus_array four_colors_state /\
  input_bytes sample_result = input_bytes four_colors_state /\
  data sample_result = data four_colors_state /\
  length (data_array sample_result) = length (data_array four_colors_state) /\
  status sample_result =
    mkImage (width (data four_colors_state)) (height (data four_colors_state)) 1.
Proof.
  split; [exact sample_run|].
  exact (run_keeps_its_input insertion_sort (rand_cycle [3; 1; 2]%nat) 10
           four_colors_state sample_result sample_parameters sample_run).
Defined.

(** X16 at an instance: the pixel (1, 0) of the sample run. *)
Lemma run_output_is_corpus_pixels_witness :
  run insertion_sort (rand_cycle [3; 1; 2]%nat) 10 four_colors_state sample_parameters
    = Done sample_result /\
  exists st,
    read (status_array sample_result) (image_at (status sample_result) 1 0) = Done st /\
    has_source st = true /\
    forall j, 0 <= j < input_bytes four_colors_state ->
      exists v,
        read (corpus_array four_colors_state)
             (image_atc (corpus four_colors_state) (source st) + j) = Done v /\
        read (data_array sample_result) (image_at (data four_colors_state) 1 0 + j)
          = Done v.
Proof.
  split; [exact sample_run|].
  refine (run_output_is_corpus_pixels insertion_sort (rand_cycle [3; 1; 2]%nat) 10
            four_colors_state sample_result sample_parameters
            _ _ _ _ _ sample_run 1 0 _ _);
    vm_compute; first [reflexivity | discriminate | split; [discriminate|reflexivity]].
Defined.

(** X17 at an instance: two bytes of a 4 by 3 image of 3 bytes a pixel. *)
Lemma image_at_addresses_bytes_witness :
  4 * 3 * 3 <= INT_MAX /\
  0 <= image_at (mkImage 4 3 3) 3 2 + 2 < 4 * 3 * 3 /\
  (0 <= 2 * 4 <= INT_MAX /\ 0 <= 2 * 4 + 3 <= INT_MAX /\
   0 <= image_at (mkImage 4 3 3) 3 2 <= INT_MAX /\
   image_at (mkImage 4 3 3) 3 2 + 2 <= INT_MAX) /\
  (image_at (mkImage 4 3 3) 3 2 + 2 = image_at (mkImage 4 3 3) 0 1 + 1 ->
   3 = 0 /\ 2 = 1 /\ 2 = 1).
Proof.
  assert (H : width (mkImage 4 3 3) * height (mkImage 4 3 3) * depth (mkImage 4 3 3)
              <= INT_MAX) by (vm_compute; discriminate).
  split; [exact H|].
  refine (image_at_addresses_bytes (mkImage 4 3 3) 3 2 2 0 1 1 H _ _ _ _ _ _);
    split; first [discriminate | reflexivity].
Defined.

Lemma sample_shuffle :
  for_each (shuffle_step (rand_cycle [3; 1; 2]%nat) 4) (zrange 0 4) sample_entry
  = Done sample_shuffled.
Proof. vm_compute. reflexivity. Defined.

(** X18 at an instance: the four pixels of the sample run, shuffled. *)
Lemma shuffle_permutes_witness :
  for_each (shuffle_step (rand_cycle [3; 1; 2]%nat) 4) (zrange 0 4) sample_entry
    = Done sample_shuffled /\
  Permutation (data_points sample_shuffled) (data_points sample_entry) /\
  rand_calls sample_shuffled = (rand_calls sample_entry + length (zrange 0 4))%nat /\
  schedule_kept sample_shuffled = schedule_kept sample_entry.
Proof.
  split; [exact sample_shuffle|].
  exact (shuffle_permutes (rand_cycle [3; 1; 2]%nat) 4 (zrange 0 4) sample_entry
           sample_shuffled sample_shuffle).
Defined.

(** X19 at an instance: [magic = 192] and four pixels. *)
Lemma magic_loop_terminates_witness :
  0 <= magic sample_parameters <= 255 /\
  0 <= 4 <= Z.of_nat (length (data_points sample_entry)) /\ 4 <= Z.of_nat 4 /\
  exists s' extra,
    magic_loop 4 sample_parameters 4 sample_entry = Done s' /\
    data_points s' = data_points sample_entry ++ extra /\
    (forall c, In c extra -> In c (data_points sample_entry)) /\
    (256 - magic sample_parameters) * Z.of_nat (length extra)
      <= magic sample_parameters * 4 /\
    schedule_kept s' = schedule_kept sample_entry.
Proof.
  assert (H1 : 0 <= magic sample_parameters <= 255) by (split; discriminate).
  assert (H2 : 0 <= 4 <= Z.of_nat (length (data_points sample_entry)))
    by (vm_compute; split; discriminate).
  assert (H3 : 4 <= Z.of_nat 4) by discriminate.
  split; [exact H1|]. split; [exact H2|]. split; [exact H3|].
  exact (magic_loop_terminates sample_parameters H1 4%nat 4 sample_entry H2 H3).
Defined.



(** X22 at an instance: the sample run, then [state_free]. *)
Lemma state_free_leaves_neighbor_arrays_witness :
  run insertion_sort (rand_cycle [3; 1; 2]%nat) 10 four_colors_state sample_parameters
    = Done sample_result /\
  data_array (state_free sample_result) = [] /\
  length (s_neighbors (state_free sample_result)) = 4%nat /\
  length (neighbor_values (state_free sample_result)) = 4%nat /\
  length (neighbor_statuses (state_free sample_result)) = 4%nat.
Proof.
  split; [exact sample_run|].
  destruct (state_free_leaves_neighbor_arrays insertion_sort (rand_cycle [3; 1; 2]%nat)
              10 four_colors_state sample_result sample_parameters sample_run)
    as ((_ & _ & _ & _ & Hd & _) & H1 & H2 & H3).
  split; [exact Hd|]. split; [exact H1|]. split; [exact H2|exact H3].
Defined.

Lemma sample_file_run :
  main_file insertion_sort (rand_cycle [3; 1; 2]%nat) 10 zero_state sample_parameters
            1 2 2 3 four_colors = Done sample_file_result.
Proof. vm_compute. reflexivity. Defined.


(** X27 at an instance: the four colors as the first file, and again as
    the second. *)
Lemma main_file_forgets_earlier_files_witness :
  main_file insertion_sort (rand_cycle [3; 1; 2]%nat) 10 zero_state sample_parameters
            1 2 2 3 four_colors = Done sample_file_result /\
  exists t',
    main_file insertion_sort (rand_cycle [3; 1; 2]%nat) 10 sample_file_result
              sample_parameters 1 2 2 3 four_colors = Done t' /\
    data_array t' = data_array sample_file_result /\
    status_array t' = status_array sample_file_result.
Proof.
  split; [exact sample_file_run|].
  assert (H1 : 0 < 2) by reflexivity.
  assert (H2 : 1 <= 3 <= 4) by (split; discriminate).
  assert (H3 : 2 * 2 * 3 <= INT_MAX) by (vm_compute; discriminate).
  assert (H4 : 1 <= neighbors sample_parameters) by (vm_compute; discriminate).
  assert (H5 : 1 <= tries sample_parameters) by (vm_compute; discriminate).
  pose proof (main_file_forgets_earlier_files insertion_sort (rand_cycle [3; 1; 2]%nat)
                insertion_sort_permutation insertion_sort_sorted 10
                zero_state sample_file_result sample_file_result sample_parameters
                1 2 2 3 four_colors H1 H1 H2 H3 H4 H5) as H.
  cbv zeta in H.
  lazymatch type of H with
  | ?A -> _ => assert (H6 : A) by (vm_compute; discriminate); specialize (H H6)
  end.
  lazymatch type of H with
  | ?A -> _ => assert (H7 : A) by (vm_compute; discriminate); specialize (H H7)
  end.
  exact (H sample_file_run).
Defined.
